(** * encodingwf: the chunked video-encoding workflow, embedded and verified

    A shallow embedding of the Python package [video_encoder]:

    - [config.py]            : [EncoderConfig] and its audio bitrate table;
    - [utils/exceptions.py]  : the exception classes;
    - [utils/subprocess.py]  : [run_command];
    - [utils/validation.py]  : [VideoValidator];
    - [core/video.py]        : [VideoProcessor];
    - [core/audio.py]        : [AudioProcessor];
    - [core/encoder.py]      : [ProcessingStats] and [VideoEncoder].

    Python integers are unbounded, hence [Z].  Dictionaries are [gmap]s.
    Code that mutates objects, touches the file system, writes log records
    and raises exceptions lives in the monad [M] below: a state monad over
    the program state [St], with a write-only list of log records and a
    result that is either a value or a raised exception. *)

From Stdlib Require Import QArith Ascii.
From stdpp Require Import gmap strings list fin_maps sorting pretty.

Local Open Scope Z_scope.
#[local] Set Warnings "-register-all".

(** ** config.py *)

Module Config.

(** [EncodePreset]: an [Enum] with integer values. *)
Inductive EncodePreset := FASTER | FAST | MEDIUM | SLOW | SLOWER.

Definition preset_value (p : EncodePreset) : Z :=
  match p with
  | FASTER => 5 | FAST => 6 | MEDIUM => 7 | SLOW => 8 | SLOWER => 9
  end.

Definition preset_name (p : EncodePreset) : string :=
  match p with
  | FASTER => "FASTER" | FAST => "FAST" | MEDIUM => "MEDIUM"
  | SLOW => "SLOW" | SLOWER => "SLOWER"
  end.

Definition BASE_DIR : string := "/app/videos".

Definition DIRS : list string :=
  ["input"; "working"; "output"; "segments"; "encoded_segments"; "logs"].

Definition MIN_FILE_SIZE : Z := 1024.
Definition SUPPORTED_FORMATS : list string := ["mkv"; "mp4"].
Definition SEGMENT_DURATION : string := "00:01:00".
Definition MIN_VMAF : Z := 92.
Definition PRESET : EncodePreset := FAST.
Definition KEYINT : string := "10s".

(** [AUDIO_BITRATES]: channel count to kbps. *)
Definition AUDIO_BITRATES : gmap Z Z :=
  <[1 := 64]> (<[2 := 128]> (<[6 := 256]> (<[8 := 384]> ∅))).

(** [self.AUDIO_BITRATES.get(channels, channels * 48)] *)
Definition get_audio_bitrate (channels : Z) : Z :=
  default (channels * 48) (AUDIO_BITRATES !! channels).

End Config.

(** ** encoder.py: ProcessingStats *)

Module Stats.

(** Timestamps are readings of the environment clock; the float seconds
    of [time.time()] are kept as integer ticks.  Sizes are Python ints. *)
Record ProcessingStats := mkStats {
  filename : string;
  start_time : Z;
  end_time : option Z;
  input_size : option Z;
  output_size : option Z;
  segment_count : option Z;
  audio_tracks : option Z
}.

Definition duration (s : ProcessingStats) : Z :=
  match end_time s with
  | None => 0
  | Some e => e - start_time s
  end.

(** Truth value of an [Optional[int]]: [None] and [0] are false. *)
Definition truthy (o : option Z) : bool :=
  match o with
  | None => false
  | Some z => negb (z =? 0)
  end.

(** [if self.input_size and self.output_size: return input / output].
    Python's [/] on ints is true division; its float is the rounding of
    the rational kept here. *)
Definition compression_ratio (s : ProcessingStats) : option Q :=
  match input_size s, output_size s with
  | Some i, Some o =>
      if truthy (Some i) && truthy (Some o)
      then Some (inject_Z i / inject_Z o)%Q
      else None
  | _, _ => None
  end.

Definition stats_of (i o : option Z) : ProcessingStats :=
  mkStats "test.mkv" 100 (Some 200) i o None None.

End Stats.

(** ** Paths, the file system and the outside world *)

(** Every path the program touches is either one of the working
    directories directly under [BASE_DIR] (named by a [string]) or a file
    directly inside one of them (a [Path]). *)
Record Path := mkPath { parent : string; name : string }.

Definition nl : string := String "010"%char EmptyString.

(** [str(path)] *)
Definition str_dir (d : string) : string := Config.BASE_DIR +:+ "/" +:+ d.
Definition str_path (p : Path) : string := str_dir (parent p) +:+ "/" +:+ name p.

(** [config.get_dir(name)] is [BASE_DIR / name]: the directory [name]. *)
Definition get_dir (name : string) : string := name.

(** [get_all_dirs] maps each name of [DIRS] to its directory. *)
Definition get_all_dirs : list (string * string) :=
  (λ n, (n, get_dir n)) <$> Config.DIRS.

(** [dir / name] *)
Definition in_dir (d : string) (n : string) : Path := mkPath d n.

(** A directory entry: whether it is a regular file, its size, and the
    text the program itself wrote into it (media files are opaque). *)
Record fentry := FEntry { is_reg : bool; st_size : Z; text : string }.

(** A directory: its entries in listing order, and whether the operating
    system lets the process remove it ([shutil.rmtree] raises otherwise). *)
Record dnode := DNode { entries : list (string * fentry); removable : bool }.

(** The world outside the interpreter: the directories under [BASE_DIR],
    whether new directories can be created there, the programs found on
    [PATH], and the clock. *)
Record Env := mkEnv {
  base_writable : bool;
  dirs : gmap string dnode;
  on_path : list string;
  clock : Z
}.

Definition set_dirs (f : gmap string dnode → gmap string dnode) (e : Env) : Env :=
  mkEnv (base_writable e) (f (dirs e)) (on_path e) (clock e).

Fixpoint assoc {A} (k : string) (l : list (string * A)) : option A :=
  match l with
  | [] => None
  | (k', v) :: l => if String.eqb k k' then Some v else assoc k l
  end.

Fixpoint remove_assoc {A} (k : string) (l : list (string * A)) : list (string * A) :=
  match l with
  | [] => []
  | (k', v) :: l => if String.eqb k k' then remove_assoc k l else (k', v) :: remove_assoc k l
  end.

Definition lookup_entry (p : Path) (e : Env) : option fentry :=
  d ← dirs e !! parent p; assoc (name p) (entries d).

(** [fnmatch] of a name against the pattern [*.ext]. *)
Definition ends_with (suffix s : string) : bool :=
  String.prefix (String.rev suffix) (String.rev s).

(** [directory.glob("*." + ext)]: the matching names in listing order; a
    missing directory yields nothing. *)
Definition glob (d : string) (ext : string) (e : Env) : list string :=
  match dirs e !! d with
  | None => []
  | Some dn => filter (λ n, ends_with ("." +:+ ext) n = true) (fst <$> entries dn)
  end.

(** [PurePath.stem] *)
Fixpoint rfind_dot (s : string) (i : nat) : option nat :=
  match s with
  | EmptyString => None
  | String c s' =>
      match rfind_dot s' (S i) with
      | Some j => Some j
      | None => if Ascii.eqb c "."%char then Some i else None
      end
  end.

Definition stem (n : string) : string :=
  match rfind_dot n 0 with
  | Some i =>
      if bool_decide (0 < i < String.length n - 1)%nat
      then String.substring 0 i n else n
  | None => n
  end.

(** Ascending order on sibling paths is the order of their names, compared
    character by character. *)
Definition name_le : relation string := String.le.

(** Python's [sorted]: a stable merge sort. *)
Definition sorted (l : list string) : list string := merge_sort name_le l.

(** ** Exceptions (utils/exceptions.py and the built-in ones) *)

Inductive exn_class :=
| VideoEncoderError | ValidationError | FileNotFoundError | FileSizeError
| InvalidVideoError | FFmpegError | AudioError | SegmentationError
| EncodingError | ConcatenationError | RemuxError | ProcessError | CleanupError.

Global Instance exn_class_eq_dec : EqDecision exn_class.
Proof. solve_decision. Defined.

(** An exception of the package ([Enc]) carries its class, its message and
    the optional file of [VideoEncoderError.__init__].  Where the source
    interpolates [str(e)] of another exception at the end of the message,
    that exception is kept as [cause]. *)
Inductive exn :=
| OSError (strerror : string)
| CalledProcessError (returncode : Z) (cmd : list string) (output stderr : string)
| JSONDecodeError
| TypeError
| ValueError
| AttributeError
| KeyError
| IndexError
| Enc (cls : exn_class) (message : string) (cause : option exn) (file : option Path).

Definition class_of (e : exn) : option exn_class :=
  match e with Enc c _ _ _ => Some c | _ => None end.

(** [FileSizeError.__init__] *)
Definition mkFileSizeError (file : Path) (size min_size : Z) : exn :=
  Enc FileSizeError
    ("File size (" +:+ pretty size +:+ " bytes) is below minimum required size ("
       +:+ pretty min_size +:+ " bytes)") None (Some file).

(** [ProcessError.__init__] *)
Definition mkProcessError (message : string) (cmd : list string) (return_code : Z)
    (stdout stderr : string) : exn :=
  Enc ProcessError
    (message +:+ nl +:+ "Command: " +:+ String.concat " " cmd +:+ nl
       +:+ "Return code: " +:+ pretty return_code +:+ nl
       +:+ "stdout: " +:+ stdout +:+ nl +:+ "stderr: " +:+ stderr) None None.

(** ** Values decoded by [json.loads] *)

Inductive json :=
| JNull
| JBool (b : bool)
| JInt (z : Z)
| JFloat (q : Q)
| JStr (s : string)
| JList (l : list json)
| JDict (m : gmap string json).

(** ** Log records *)

Inductive level := DEBUG | INFO | WARNING | ERROR.

(** The module-level [logger = logging.getLogger()] of video.py, audio.py
    and subprocess.py is [Root]; [self.logger] is the [ContextLogger]. *)
Inductive logger_id := Root | Ctx.

(** A fragment of a formatted message. *)
Inductive frag :=
| T (s : string)            (* literal text, and [str] of an int, a str or a path *)
| E (e : exn)               (* [str(e)] of an exception *)
| J (v : json)              (* [str(v)] of a decoded JSON value *)
| Len (v : json)            (* [len(v)] of a decoded str or dict *)
| MB (bytes : Z)            (* a byte count shown in MB with two decimals *)
| Ticks (t : Z)             (* a clock reading or a difference of two *)
| Ratio (num den : Z) (fmt : string).  (* a float quotient and its format *)

Coercion T : string >-> frag.

Record record := Rec { logger : logger_id; lvl : level; msg : list frag }.

Global Instance level_eq_dec : EqDecision level.
Proof. solve_decision. Defined.
Global Instance logger_id_eq_dec : EqDecision logger_id.
Proof. solve_decision. Defined.

(** ** Program state and the monad *)

Record St := mkSt {
  env : Env;
  current_file : option string;                 (* [ContextLogger.current_file] *)
  stats : gmap string Stats.ProcessingStats;    (* [VideoEncoder.stats] *)
  processed_videos : list string;               (* [VideoEncoder.processed_videos] *)
  is_dolby_vision : bool                        (* [VideoProcessor.is_dolby_vision] *)
}.

Definition set_env (f : Env → Env) (s : St) : St :=
  mkSt (f (env s)) (current_file s) (stats s) (processed_videos s) (is_dolby_vision s).
Definition with_current_file (c : option string) (s : St) : St :=
  mkSt (env s) c (stats s) (processed_videos s) (is_dolby_vision s).
Definition set_stats (f : gmap string Stats.ProcessingStats → gmap string Stats.ProcessingStats)
    (s : St) : St :=
  mkSt (env s) (current_file s) (f (stats s)) (processed_videos s) (is_dolby_vision s).
Definition set_processed (f : list string → list string) (s : St) : St :=
  mkSt (env s) (current_file s) (stats s) (f (processed_videos s)) (is_dolby_vision s).
Definition with_dolby (b : bool) (s : St) : St :=
  mkSt (env s) (current_file s) (stats s) (processed_videos s) b.

Inductive result (A : Type) :=
| Ok (a : A)
| Raise (e : exn).
Arguments Ok {A} a.
Arguments Raise {A} e.

(** What running a computation yields: the records it logged, in order,
    the state it leaves, and its result. *)
Record outcome (A : Type) := Out { logged : list record; st_of : St; res : result A }.
Arguments Out {A} logged st_of res.
Arguments logged {A} o.
Arguments st_of {A} o.
Arguments res {A} o.

Definition M (A : Type) : Type := St → outcome A.

Definition ret {A} (a : A) : M A := λ s, Out [] s (Ok a).
Definition raise {A} (e : exn) : M A := λ s, Out [] s (Raise e).

Definition bind {A B} (m : M A) (k : A → M B) : M B := λ s,
  let o := m s in
  match res o with
  | Ok a => let o' := k a (st_of o) in Out (logged o ++ logged o') (st_of o') (res o')
  | Raise e => Out (logged o) (st_of o) (Raise e)
  end.

Declare Scope m_scope.
Delimit Scope m_scope with m.
Notation "x <- m ;; k" := (bind m (λ x, k))
  (at level 20, m at level 99, k at level 200, only parsing) : m_scope.
Notation "' x <- m ;; k" := (bind m (λ x, k))
  (at level 20, x pattern, m at level 99, k at level 200, only parsing) : m_scope.
Notation "m ;; k" := (bind m (λ _, k))
  (at level 100, k at level 200, only parsing, right associativity) : m_scope.
Local Open Scope m_scope.

(** [try: m  except Exception as e: h e] *)
Definition try_except {A} (m : M A) (h : exn → M A) : M A := λ s,
  let o := m s in
  match res o with
  | Ok a => o
  | Raise e => let o' := h e (st_of o) in Out (logged o ++ logged o') (st_of o') (res o')
  end.

(** [try: m  finally: f]: [f] always runs; an exception escaping [f]
    replaces the result of [m]. *)
Definition try_finally {A} (m : M A) (f : M unit) : M A := λ s,
  let o := m s in
  let o' := f (st_of o) in
  Out (logged o ++ logged o') (st_of o')
      match res o' with
      | Ok _ => res o
      | Raise e => Raise e
      end.

Definition get : M St := λ s, Out [] s (Ok s).
Definition gets {A} (f : St → A) : M A := λ s, Out [] s (Ok (f s)).
Definition modify (f : St → St) : M unit := λ s, Out [] (f s) (Ok tt).

Definition log (lg : logger_id) (l : level) (m : list frag) : M unit :=
  λ s, Out [Rec lg l m] s (Ok tt).

(** [for x in xs: body x] *)
Fixpoint for_each {A} (xs : list A) (body : A → M unit) : M unit :=
  match xs with
  | [] => ret tt
  | x :: xs => body x;; for_each xs body
  end.

(** [enumerate(xs, start)] *)
Fixpoint enumerate {A} (start : Z) (xs : list A) : list (Z * A) :=
  match xs with
  | [] => []
  | x :: xs => (start, x) :: enumerate (start + 1) xs
  end.

(** [for x in xs: acc = body acc x] *)
Fixpoint for_fold {A S} (xs : list A) (acc : S) (body : S → A → M S) : M S :=
  match xs with
  | [] => ret acc
  | x :: xs => acc' <- body acc x;; for_fold xs acc' body
  end.

(** [range(n)] *)
Definition range (n : Z) : list Z := Z.of_nat <$> seq 0 (Z.to_nat n).

(** [needle in hay] on strings *)
Definition contains (needle hay : string) : bool :=
  bool_decide (is_Some (String.index 0 needle hay)).

(** ** File-system primitives *)

Definition now : M Z := gets (λ s, clock (env s)).

(** [dir_path.exists()] *)
Definition path_exists (d : string) : M bool :=
  gets (λ s, bool_decide (is_Some (dirs (env s) !! d))).

(** [shutil.rmtree(dir_path)] *)
Definition rmtree (d : string) : M unit :=
  e <- gets env;;
  match dirs e !! d with
  | None => raise (OSError "No such file or directory")
  | Some dn =>
      if removable dn && base_writable e
      then modify (set_env (set_dirs (delete d)))
      else raise (OSError "Permission denied")
  end.

(** [dir_path.mkdir(parents=True, exist_ok=...)] *)
Definition mkdir (d : string) (exist_ok : bool) : M unit :=
  e <- gets env;;
  match dirs e !! d with
  | Some _ => if exist_ok then ret tt else raise (OSError "File exists")
  | None =>
      if base_writable e
      then modify (set_env (set_dirs (<[d := DNode [] true]>)))
      else raise (OSError "Permission denied")
  end.

(** [file.is_file()] *)
Definition is_file (p : Path) : M bool :=
  gets (λ s, match lookup_entry p (env s) with
             | Some f => is_reg f
             | None => false
             end).

(** [file.stat().st_size] *)
Definition stat_size (p : Path) : M Z :=
  e <- gets env;;
  match lookup_entry p e with
  | Some f => ret (st_size f)
  | None => raise (OSError "No such file or directory")
  end.

(** [with open(p, 'w') as f: f.write(content)] *)
Definition write_text (p : Path) (content : string) : M unit :=
  e <- gets env;;
  match dirs e !! parent p with
  | None => raise (OSError "No such file or directory")
  | Some dn =>
      match assoc (name p) (entries dn) with
      | Some (FEntry false _ _) => raise (OSError "Is a directory")
      | _ =>
          let f := FEntry true (Z.of_nat (String.length content)) content in
          modify (set_env (set_dirs
            (<[parent p := DNode (remove_assoc (name p) (entries dn) ++ [(name p, f)])
                                 (removable dn)]>)))
      end
  end.

(** [p.unlink()] *)
Definition unlink (p : Path) : M unit :=
  e <- gets env;;
  match dirs e !! parent p with
  | None => raise (OSError "No such file or directory")
  | Some dn =>
      match assoc (name p) (entries dn) with
      | None => raise (OSError "No such file or directory")
      | Some _ =>
          modify (set_env (set_dirs
            (<[parent p := DNode (remove_assoc (name p) (entries dn)) (removable dn)]>)))
      end
  end.

(** ** The host: external programs and Python built-ins *)

(** What the embedding takes as given.  [exec cmd e] is what running the
    external program [cmd] does to the outside world [e], with its exit
    code, standard output and standard error.  The other fields are the
    Python library functions the source calls on program output. *)
Class Host := {
  exec : list string → Env → Env * (Z * string * string);
  json_loads : string → option json;     (* [None]: [JSONDecodeError] *)
  int_of_str : string → option Z;        (* [int(s)]; [None]: [ValueError] *)
  splitlines : string → list string;     (* [str.splitlines] *)
  read_lines : string → list string      (* the lines [readline] yields, right-stripped *)
}.

Section Pipeline.
Context `{Host}.

(** ** utils/subprocess.py and the standard [subprocess] module *)

(** Starting a child process: [Popen] raises an [OSError] when the
    program is not found on [PATH]; otherwise the program runs to its
    end. *)
Definition spawn (cmd : list string) : M (Z * string * string) :=
  e <- gets env;;
  match cmd with
  | [] => raise IndexError
  | prog :: _ =>
      if bool_decide (prog ∈ on_path e)
      then let '(e', r) := exec cmd e in
           modify (set_env (λ _, e'));; ret r
      else raise (OSError ("No such file or directory: '" +:+ prog +:+ "'"))
  end.

(** [subprocess.run(cmd, capture_output=True, text=True, check=True)] *)
Definition subprocess_run (cmd : list string) : M (string * string) :=
  '(rc, out, err) <- spawn cmd;;
  if bool_decide (rc ≠ 0) then raise (CalledProcessError rc cmd out err)
  else ret (out, err).

(** [run_command].  The lines of the child are logged as they arrive;
    the arrival order between the two streams is not modelled: the
    records of standard output come first. *)
Definition run_command (cmd : list string) (desc : string)
    (check show_output : bool) : M (Z * string * string) :=
  log Root INFO [T "Running "; T desc; T ": "; T (String.concat " " cmd)];;
  '(return_code, stdout, stderr) <- spawn cmd;;
  (if show_output
   then for_each (read_lines stdout) (λ line, log Root INFO [T line]);;
        for_each (read_lines stderr) (λ line, log Root WARNING [T line])
   else ret tt);;
  if check && bool_decide (return_code ≠ 0)
  then raise (CalledProcessError return_code cmd stdout stderr)
  else ret (return_code, stdout, stderr).

(** ** utils/validation.py: VideoValidator *)

(** [shutil.which(tool)] as a truth value *)
Definition which (tool : string) : M bool :=
  gets (λ s, bool_decide (tool ∈ on_path (env s))).

Definition required_tools : list string := ["ffmpeg"; "ffprobe"; "mediainfo"].

Definition check_ffmpeg_installed : M unit :=
  for_each required_tools (λ tool,
    found <- which tool;;
    if negb found
    then raise (Enc ValidationError
                  ("Required tool '" +:+ tool +:+ "' not found in PATH") None None)
    else ret tt).

Definition validate_video_file (file : Path) (step : string) : M unit :=
  log Ctx DEBUG [T "Validating file: "; T (str_path file); T " (step: "; T step; T ")"];;
  isf <- is_file file;;
  if negb isf
  then raise (Enc FileNotFoundError (step +:+ ": File not found") None (Some file))
  else
    file_size <- stat_size file;;
    if file_size <? Config.MIN_FILE_SIZE
    then raise (mkFileSizeError file file_size Config.MIN_FILE_SIZE)
    else
      try_except
        (subprocess_run ["ffprobe"; "-v"; "error"; str_path file];; ret tt)
        (λ e, match e with
              | CalledProcessError _ _ _ stderr =>
                  raise (Enc InvalidVideoError
                           (step +:+ ": Invalid video file - ffprobe output: " +:+ stderr)
                           None (Some file))
              | _ => raise e
              end);;
      log Ctx DEBUG [T "Successfully validated: "; T (str_path file)].

(** Run [m] and hand back its result instead of raising. *)
Definition capture {A} (m : M A) : M (result A) := λ s,
  let o := m s in Out (logged o) (st_of o) (Ok (res o)).

(** The first exception of a list of results, if any. *)
Fixpoint collect {A} (rs : list (result A)) : M (list A) :=
  match rs with
  | [] => ret []
  | Ok a :: rs => l <- collect rs;; ret (a :: l)
  | Raise e :: _ => raise e
  end.

(** [with ThreadPoolExecutor() as executor: list(executor.map(f, xs))]:
    every call is submitted and runs to its end, also when an earlier one
    raised, and the list raises the first exception in the order of [xs].
    The calls are run here one after the other in that order. *)
Fixpoint executor_run {A B} (f : A → M B) (xs : list A) : M (list (result B)) :=
  match xs with
  | [] => ret []
  | x :: xs => r <- capture (f x);; rs <- executor_run f xs;; ret (r :: rs)
  end.

Definition executor_map {A B} (f : A → M B) (xs : list A) : M (list B) :=
  rs <- executor_run f xs;; collect rs.

Definition validate_segments (directory : string) (min_segments : Z) : M unit :=
  log Ctx INFO [T "Validating segments"];;
  segments <- gets (λ s, glob directory "mkv" (env s));;
  if Z.of_nat (length segments) <? min_segments
  then raise (Enc ValidationError
                ("Expected at least " +:+ pretty min_segments +:+ " segments, found "
                   +:+ pretty (length segments)) None None)
  else
    executor_map (λ f, validate_video_file f "Segment validation")
                 (in_dir directory <$> segments);;
    log Ctx INFO [T "Successfully validated "; T (pretty (length segments)); T " segments"].

Definition audio_probe_cmd (entries : string) (file : Path) : list string :=
  ["ffprobe"; "-v"; "error"; "-select_streams"; "a"; "-show_entries"; entries;
   "-of"; "csv=p=0"; str_path file].

Definition audio_file (working_dir : string) (i : Z) : Path :=
  in_dir working_dir ("audio-" +:+ pretty i +:+ ".mkv").

Definition validate_audio_tracks (base_path : Path) (expected_tracks : Z)
    (working_dir : string) : M unit :=
  log Ctx INFO [T "Validating audio tracks"];;
  for_each (range expected_tracks) (λ i,
    let audio_file := audio_file working_dir i in
    isf <- is_file audio_file;;
    if negb isf
    then raise (Enc FileNotFoundError ("Audio track " +:+ pretty i +:+ " missing")
                    None (Some audio_file))
    else
      try_except
        ('(stdout, _) <- subprocess_run (audio_probe_cmd "stream=codec_type" audio_file);;
         if negb (contains "audio" stdout)
         then raise (Enc ValidationError
                       ("No audio stream found in track " +:+ pretty i)
                       None (Some audio_file))
         else ret tt)
        (λ e, match e with
              | CalledProcessError rc cmd out err =>
                  raise (mkProcessError "Failed to probe audio file" cmd rc out err)
              | _ => raise e
              end));;
  log Ctx INFO [T "Successfully validated "; T (pretty expected_tracks); T " audio tracks"].

Definition validate_final_output (output_file : Path) (expected_audio_tracks : Z) : M unit :=
  log Ctx INFO [T "Validating final output"];;
  validate_video_file output_file "Final output";;
  try_except
    ('(stdout, _) <- subprocess_run (audio_probe_cmd "stream=index" output_file);;
     let actual_tracks := Z.of_nat (length (splitlines stdout)) in
     if bool_decide (actual_tracks ≠ expected_audio_tracks)
     then raise (Enc ValidationError
                   ("Final output has " +:+ pretty actual_tracks +:+ " audio tracks, "
                      +:+ "expected " +:+ pretty expected_audio_tracks)
                   None (Some output_file))
     else ret tt)
    (λ e, match e with
          | CalledProcessError rc cmd out err =>
              raise (mkProcessError "Failed to probe final output" cmd rc out err)
          | _ => raise e
          end);;
  log Ctx INFO [T "Final output validation successful"].

(** ** core/video.py: VideoProcessor *)

Definition detect_dolby_vision (file : Path) : M unit :=
  log Root INFO [T "Detecting Dolby Vision..."];;
  try_except
    (let cmd := ["mediainfo"; "--Output=JSON"; str_path file] in
     '(_, stdout, _) <- run_command cmd "Mediainfo detection" true false;;
     let dv := contains "Dolby Vision" stdout in
     modify (with_dolby dv);;
     if dv
     then log Root INFO [T "Dolby Vision detected in input file"];;
          log Root WARNING
            [T "Note: Dolby Vision encoding is currently disabled to prevent metadata corruption"]
     else log Root INFO [T "No Dolby Vision detected, continuing with standard encoding"])
    (λ e, match e with
          | CalledProcessError _ _ _ stderr =>
              log Root WARNING [T "Failed to detect Dolby Vision: "; T stderr];;
              log Root WARNING [T "Assuming no Dolby Vision present"];;
              modify (with_dolby false)
          | _ => raise e
          end).

Definition segment_cmd (input_path : Path) (segments_dir : string) : list string :=
  ["ffmpeg"; "-v"; "info"; "-stats"; "-i"; str_path input_path;
   "-c:v"; "copy"; "-an"; "-map"; "0:v";
   "-segment_time"; Config.SEGMENT_DURATION; "-reset_timestamps"; "1";
   "-f"; "segment"; str_path (in_dir segments_dir "%04d.mkv")].

Definition segment_video (input_path : Path) (segments_dir : string) : M unit :=
  log Root INFO [T "Segmenting video: "; T (str_path input_path)];;
  log Root INFO [T "Segment duration: "; T Config.SEGMENT_DURATION];;
  log Root INFO [T "Output directory: "; T (str_dir segments_dir)];;
  try_except
    (run_command (segment_cmd input_path segments_dir) "Segmenting video" true true;;
     segments <- gets (λ s, glob segments_dir "mkv" (env s));;
     let total_segments := length segments in
     log Root INFO [T "Created "; T (pretty total_segments); T " segments"];;
     validate_segments segments_dir 1)
    (λ e, match e with
          | CalledProcessError _ _ _ stderr =>
              raise (Enc SegmentationError ("Failed to segment video: " +:+ stderr)
                         None (Some input_path))
          | _ => raise (Enc SegmentationError EmptyString (Some e) (Some input_path))
          end).

Definition encode_cmd (segment output_file : Path) : list string :=
  ["ab-av1"; "auto-encode"; "-e"; "libsvtav1";
   "--svt"; "tune=3"; "--svt"; "film-grain=8"; "--svt"; "film-grain-denoise=1";
   "--svt"; "adaptive-film-grain=1";
   "--keyint"; Config.KEYINT;
   "--min-vmaf"; pretty Config.MIN_VMAF;
   "--preset"; pretty (Config.preset_value Config.PRESET);
   "--vmaf"; "n_subsample=8:pool=harmonic_mean";
   "--samples"; "3"; "--sample-duration"; "1sec"; "--verbose";
   "--input"; str_path segment; "--output"; str_path output_file].

Definition rule : list frag := [T "=============================="].

Definition progress (segment_num total_segments : Z) : string :=
  pretty segment_num +:+ "/" +:+ pretty total_segments.

Definition encode_segment (segment : Path) (output_dir : string)
    (segment_num total_segments : Z) (input_file : string) : M unit :=
  let output_file := in_dir output_dir (name segment) in
  log Ctx INFO rule;;
  log Ctx INFO [T "Encoding segment "; T (progress segment_num total_segments)];;
  log Ctx INFO [T "Input: "; T (str_path segment)];;
  log Ctx INFO [T "Output: "; T (str_path output_file)];;
  sz <- stat_size segment;;
  log Ctx DEBUG [T "Segment size: "; MB sz; T " MB"];;
  try_finally
    (try_except
       (start_time <- now;;
        run_command (encode_cmd segment output_file)
          ("Encoding segment " +:+ progress segment_num total_segments) true true;;
        end_time <- now;;
        let duration := end_time - start_time in
        input_size <- stat_size segment;;
        output_size <- stat_size output_file;;
        log Root INFO [T "Segment "; T (progress segment_num total_segments);
                       T " encoding completed:"];;
        log Root INFO [T "  Duration: "; Ticks duration];;
        log Root INFO [T "  Input size: "; MB input_size; T " MB"];;
        log Root INFO [T "  Output size: "; MB output_size; T " MB"];;
        log Root INFO [T "  Compression ratio: ";
                       (if 0 <? output_size then Ratio input_size output_size ".2f"
                        else Ratio 0 1 ".2f"); T "x"];;
        validate_video_file output_file "Segment encoding";;
        log Ctx INFO [T "Successfully encoded segment ";
                      T (progress segment_num total_segments)];;
        sz' <- stat_size output_file;;
        log Ctx DEBUG [T "Output size: "; MB sz'; T " MB"])
       (λ e, log Ctx ERROR [T "Failed to encode segment "; T (pretty segment_num)];;
             raise e))
    (log Ctx INFO rule).

Definition encode_segments (segments_dir encoded_dir : string) (input_file : string)
    : M unit :=
  segments <- gets (λ s, sorted (glob segments_dir "mkv" (env s)));;
  let total_segments := Z.of_nat (length segments) in
  log Root INFO [T "Starting encoding of "; T (pretty total_segments); T " segments"];;
  log Root INFO [T "Encoding preset: "; T (Config.preset_name Config.PRESET)];;
  log Root INFO [T "Target minimum VMAF: "; T (pretty Config.MIN_VMAF)];;
  start_time <- now;;
  '(total_input_size, total_output_size) <-
    for_fold (enumerate 1 segments) (0, 0) (λ '(total_in, total_out) '(i, n),
      let segment := in_dir segments_dir n in
      sz <- stat_size segment;;
      let total_in := total_in + sz in
      try_except
        (encode_segment segment encoded_dir i total_segments input_file;;
         osz <- stat_size (in_dir encoded_dir (name segment));;
         ret (total_in, total_out + osz))
        (λ e, match class_of e with
              | Some EncodingError =>
                  log Root ERROR [T "Failed to encode segment ";
                                  T (progress i total_segments); T ": "; E e];;
                  raise e
              | _ => raise e
              end));;
  end_time <- now;;
  log Root INFO [T nl; T "Encoding Summary:"];;
  log Root INFO [T "Total duration: "; Ticks (end_time - start_time)];;
  log Root INFO [T "Total input size: "; MB total_input_size; T " MB"];;
  log Root INFO [T "Total output size: "; MB total_output_size; T " MB"];;
  log Root INFO [T "Average size reduction: ";
                 (if 0 <? total_input_size
                  then Ratio (100 * (total_input_size - total_output_size))
                             total_input_size ".1f"
                  else Ratio 0 1 ".1f"); T "%"];;
  validate_segments encoded_dir total_segments.

(** [str(segment).replace("'", "'\''")] *)
Fixpoint escape_quotes (s : string) : string :=
  match s with
  | EmptyString => EmptyString
  | String c s' =>
      if Ascii.eqb c "'"%char
      then String "'" (String "\" (String "'" (String "'" (escape_quotes s'))))
      else String c (escape_quotes s')
  end.

Definition manifest_line (segment : Path) : string :=
  "file '" +:+ escape_quotes (str_path segment) +:+ "'" +:+ nl.

(** The text written to the concat file, one line per segment. *)
Definition manifest (segments : list Path) : string :=
  String.concat EmptyString (manifest_line <$> segments).

Definition concat_cmd (concat_file output_file : Path) : list string :=
  ["ffmpeg"; "-v"; "info"; "-stats"; "-f"; "concat"; "-safe"; "0";
   "-i"; str_path concat_file; "-c"; "copy"; "-movflags"; "+faststart";
   str_path output_file].

(** Lines 258 to 266 of [concatenate_segments]: list the encoded
    segments and write the concat file. *)
Definition write_concat_file (encoded_dir : string) : M Path :=
  let concat_file := in_dir encoded_dir "concat.txt" in
  segments <- gets (λ s, sorted (glob encoded_dir "mkv" (env s)));;
  log Root INFO [T "Writing concat file with "; T (pretty (length segments));
                 T " segments"];;
  write_text concat_file (manifest (in_dir encoded_dir <$> segments));;
  ret concat_file.

Definition concatenate_segments (encoded_dir : string) (output_file : Path) : M unit :=
  log Root INFO [T "Concatenating encoded segments"];;
  log Root INFO [T "Output file: "; T (str_path output_file)];;
  try_except
    (concat_file <- write_concat_file encoded_dir;;
     run_command (concat_cmd concat_file output_file) "Concatenating segments" true true;;
     unlink concat_file;;
     final_size <- stat_size output_file;;
     log Root INFO [T "Concatenation complete. Final size: "; MB final_size; T " MB"];;
     log Root INFO [T "Validating concatenated file"];;
     validate_video_file output_file "Concatenation")
    (λ e, match e with
          | CalledProcessError _ _ _ stderr =>
              raise (Enc ConcatenationError ("Failed to concatenate segments: " +:+ stderr)
                         None (Some output_file))
          | _ => raise (Enc ConcatenationError EmptyString (Some e) (Some output_file))
          end).

(** ** core/audio.py: AudioProcessor *)

(** Truth value of a decoded JSON value ([if not audio_streams]). *)
Definition json_truthy (v : json) : bool :=
  match v with
  | JNull => false
  | JBool b => b
  | JInt z => negb (z =? 0)
  | JFloat q => negb (Qeq_bool q 0)
  | JStr s => negb (String.eqb s EmptyString)
  | JList l => negb (bool_decide (length l = 0%nat))
  | JDict m => negb (bool_decide (size m = 0%nat))
  end.

(** [stream.get(key, default)]: only a dict has [get]. *)
Definition py_get (stream : json) (key : string) (dflt : json) : M json :=
  match stream with
  | JDict m => ret (default dflt (m !! key))
  | _ => raise AttributeError
  end.

(** [int(v)] *)
Definition py_int (v : json) : M Z :=
  match v with
  | JInt z => ret z
  | JBool b => ret (if b then 1 else 0)
  | JFloat q => ret (Z.quot (Qnum q) (Z.pos (Qden q)))
  | JStr s => match int_of_str s with
              | Some z => ret z
              | None => raise ValueError
              end
  | JNull | JList _ | JDict _ => raise TypeError
  end.

Definition audio_info_cmd (input_path : Path) : list string :=
  ["ffprobe"; "-v"; "quiet"; "-print_format"; "json"; "-show_streams";
   "-select_streams"; "a"; str_path input_path].

Definition get_audio_info (input_path : Path) : M json :=
  let cmd := audio_info_cmd input_path in
  try_except
    ('(_, stdout, stderr) <- run_command cmd "Getting audio stream information" true false;;
     match json_loads stdout with
     | None => raise JSONDecodeError
     | Some data => py_get data "streams" (JList [])
     end)
    (λ e, match e with
          | CalledProcessError rc _ out err =>
              raise (mkProcessError "Failed to get audio information" cmd rc out err)
          | JSONDecodeError =>
              raise (Enc AudioError "Failed to parse audio information: " (Some e) None)
          | _ => raise e
          end).

Definition audio_cmd (input_path : Path) (track_index : Z) (bitrate : Z)
    (output_file : Path) : list string :=
  ["ffmpeg"; "-v"; "info"; "-stats"; "-i"; str_path input_path;
   "-map"; "0:a:" +:+ pretty track_index;
   "-c:a"; "libopus";
   "-af"; "aformat=channel_layouts=7.1|5.1|stereo|mono";
   "-application"; "audio"; "-vbr"; "on"; "-compression_level"; "10";
   "-frame_duration"; "20";
   "-b:a"; pretty bitrate +:+ "k";
   "-avoid_negative_ts"; "make_zero";
   str_path output_file].

Definition encode_audio_track (input_path : Path) (track_index channels : Z)
    (working_dir : string) : M Path :=
  let output_file := audio_file working_dir track_index in
  let bitrate := Config.get_audio_bitrate channels in
  log Root INFO [T "Encoding audio track "; T (pretty track_index); T " with ";
                 T (pretty channels); T " channels at "; T (pretty bitrate); T "k"];;
  try_except
    (run_command (audio_cmd input_path track_index bitrate output_file)
       ("Encoding audio track " +:+ pretty track_index) true true;;
     ret output_file)
    (λ e, match e with
          | CalledProcessError _ _ _ stderr =>
              raise (Enc AudioError
                       ("Failed to encode audio track " +:+ pretty track_index +:+ ": "
                          +:+ stderr) None (Some input_path))
          | _ => raise e
          end).

(** The body of the loop of [encode_audio_tracks] for stream [i]. *)
Definition encode_stream (input_path : Path) (working_dir : string)
    (encoded_files : list Path) (i : Z) (stream : json) : M (list Path) :=
  c <- py_get stream "channels" (JInt 2);;
  channels <- py_int c;;
  codec <- py_get stream "codec_name" (JStr "unknown");;
  log Root INFO [T "Processing audio track "; T (pretty i); T " ("; J codec; T " - ";
                 T (pretty channels); T " channels)"];;
  output_file <- encode_audio_track input_path i channels working_dir;;
  ret (encoded_files ++ [output_file]).

(** A [streams] value that is not a list is ill-formed probe output: the
    model raises where the interpreter does ([len] of a number, [get] on
    the first element of a str or of a dict). *)
Definition encode_audio_tracks (input_path : Path) (working_dir : string)
    : M (list Path) :=
  audio_streams <- get_audio_info input_path;;
  if negb (json_truthy audio_streams)
  then log Root WARNING [T "No audio streams found in input file"];; ret []
  else
    match audio_streams with
    | JList streams =>
        log Root INFO [T "Found "; T (pretty (length streams)); T " audio tracks to encode"];;
        encoded_files <-
          for_fold (enumerate 0 streams) [] (λ acc '(i, stream),
            encode_stream input_path working_dir acc i stream);;
        validate_audio_tracks input_path (Z.of_nat (length streams)) working_dir;;
        ret encoded_files
    | JStr _ | JDict _ =>
        log Root INFO [T "Found "; Len audio_streams; T " audio tracks to encode"];;
        raise AttributeError
    | _ => raise TypeError
    end.

Definition remux_cmd (video_file : Path) (audio_files : list Path) (output_file : Path)
    : list string :=
  ["ffmpeg"; "-v"; "info"; "-stats"; "-i"; str_path video_file]
    ++ concat ((λ a, ["-i"; str_path a]) <$> audio_files)
    ++ ["-map"; "0:v"]
    ++ concat ((λ i, ["-map"; pretty (i + 1) +:+ ":a"])
                 <$> range (Z.of_nat (length audio_files)))
    ++ ["-c"; "copy"; "-movflags"; "+faststart"; str_path output_file].

Definition remux_tracks (video_file : Path) (audio_files : list Path)
    (output_file : Path) : M unit :=
  log Root INFO [T "Remuxing tracks"];;
  log Root INFO [T "Video file: "; T (str_path video_file)];;
  for_each (enumerate 0 audio_files) (λ '(i, audio),
    log Root INFO [T "Audio track "; T (pretty i); T ": "; T (str_path audio)]);;
  try_except
    (run_command (remux_cmd video_file audio_files output_file) "Remuxing tracks" true true;;
     validate_final_output output_file (Z.of_nat (length audio_files));;
     log Root INFO [T "Successfully created output file: "; T (str_path output_file)])
    (λ e, match e with
          | CalledProcessError _ _ _ stderr =>
              raise (Enc RemuxError ("Failed to remux tracks: " +:+ stderr)
                         None (Some output_file))
          | _ => raise (Enc RemuxError EmptyString (Some e) (Some output_file))
          end).

(** ** core/encoder.py: VideoEncoder *)

Definition prepare_directories : M unit :=
  log Ctx INFO [T "Preparing working directories"];;
  try_except
    (for_each (snd <$> get_all_dirs) (λ dir_path, mkdir dir_path true))
    (λ e, raise (Enc VideoEncoderError "Failed to create directories: " (Some e) None)).

Definition get_input_files : M (list Path) :=
  let input_dir := get_dir "input" in
  files <- gets (λ s, concat ((λ fmt, glob input_dir fmt (env s))
                                <$> Config.SUPPORTED_FORMATS));;
  if bool_decide (files = [])
  then raise (Enc VideoEncoderError ("No input files found in " +:+ str_dir input_dir)
                  None None)
  else ret (in_dir input_dir <$> sorted files).

Definition transient_dirs : list string := ["segments"; "encoded_segments"; "working"].

(** The body of the loop of [cleanup_working_dirs]. *)
Definition reset_dir (dir_name : string) : M unit :=
  let dir_path := get_dir dir_name in
  ex <- path_exists dir_path;;
  (if ex then rmtree dir_path else ret tt);;
  mkdir dir_path false.

Definition cleanup_working_dirs (vid_file : string) : M unit :=
  try_except
    (for_each transient_dirs reset_dir)
    (λ e, raise (Enc CleanupError "Failed to clean up directories: " (Some e) None)).

(** [self.stats[vid_file].field = value] *)
Definition update_stats (vid_file : string)
    (f : Stats.ProcessingStats → Stats.ProcessingStats) : M unit :=
  st <- gets stats;;
  match st !! vid_file with
  | None => raise KeyError
  | Some r => modify (set_stats (<[vid_file := f r]>))
  end.

Definition set_end_time (t : Z) (r : Stats.ProcessingStats) :=
  Stats.mkStats (Stats.filename r) (Stats.start_time r) (Some t) (Stats.input_size r)
    (Stats.output_size r) (Stats.segment_count r) (Stats.audio_tracks r).
Definition set_output_size (z : Z) (r : Stats.ProcessingStats) :=
  Stats.mkStats (Stats.filename r) (Stats.start_time r) (Stats.end_time r)
    (Stats.input_size r) (Some z) (Stats.segment_count r) (Stats.audio_tracks r).
Definition set_segment_count (z : Z) (r : Stats.ProcessingStats) :=
  Stats.mkStats (Stats.filename r) (Stats.start_time r) (Stats.end_time r)
    (Stats.input_size r) (Stats.output_size r) (Some z) (Stats.audio_tracks r).
Definition set_audio_tracks (z : Z) (r : Stats.ProcessingStats) :=
  Stats.mkStats (Stats.filename r) (Stats.start_time r) (Stats.end_time r)
    (Stats.input_size r) (Stats.output_size r) (Stats.segment_count r) (Some z).

(** Lines 95 to 107 of [process_video], before the [try] statement. *)
Definition process_video_begin (input_path : Path) (current_file total_files : Z)
    : M string :=
  let vid_file := stem (name input_path) in
  log Ctx INFO [T "Processing file "; T (pretty current_file); T " of ";
                T (pretty total_files); T ": "; T (str_path input_path)];;
  start_time <- now;;
  input_size <- stat_size input_path;;
  modify (set_stats (<[vid_file :=
    Stats.mkStats vid_file start_time None (Some input_size) None None None]>));;
  modify (set_processed (λ l, l ++ [vid_file]));;
  modify (with_current_file (Some (name input_path)));;
  ret vid_file.

(** The body of the [try] statement, lines 110 to 149. *)
Definition process_video_try (input_path : Path) (vid_file : string) : M unit :=
  cleanup_working_dirs vid_file;;
  let segments_dir := get_dir "segments" in
  let encoded_dir := get_dir "encoded_segments" in
  let working_dir := get_dir "working" in
  let output_dir := get_dir "output" in
  log Ctx INFO [T "Starting video processing"];;
  detect_dolby_vision input_path;;
  segment_video input_path segments_dir;;
  n <- gets (λ s, length (glob segments_dir "mkv" (env s)));;
  update_stats vid_file (set_segment_count (Z.of_nat n));;
  encode_segments segments_dir encoded_dir (name input_path);;
  let video_output := in_dir working_dir (vid_file +:+ ".mkv") in
  concatenate_segments encoded_dir video_output;;
  log Ctx INFO [T "Starting audio processing"];;
  audio_files <- encode_audio_tracks input_path working_dir;;
  update_stats vid_file (set_audio_tracks (Z.of_nat (length audio_files)));;
  let final_output := in_dir output_dir (vid_file +:+ ".mkv") in
  remux_tracks video_output audio_files final_output;;
  output_size <- stat_size final_output;;
  update_stats vid_file (set_output_size output_size);;
  t <- now;;
  update_stats vid_file (set_end_time t);;
  log Ctx INFO [T "Completed processing: "; T (str_path input_path)].

(** The [except Exception as e] clause, lines 151 to 155. *)
Definition process_video_except (input_path : Path) (vid_file : string) (e : exn)
    : M unit :=
  log Ctx ERROR [T "Error processing "; T (str_path input_path); T ": "; E e];;
  t <- now;;
  update_stats vid_file (set_end_time t);;
  raise e.

(** The [finally] clause, lines 157 to 164. *)
Definition process_video_finally (vid_file : string) : M unit :=
  modify (with_current_file None);;
  try_except
    (cleanup_working_dirs vid_file)
    (λ cleanup_error, log Ctx ERROR [T "Error during cleanup: "; E cleanup_error]).

Definition process_video (input_path : Path) (current_file total_files : Z) : M unit :=
  vid_file <- process_video_begin input_path current_file total_files;;
  try_finally
    (try_except (process_video_try input_path vid_file)
                (process_video_except input_path vid_file))
    (process_video_finally vid_file).

Definition hms (d : Z) : list frag :=
  let hours := d `div` 3600 in
  let remainder := d `mod` 3600 in
  [T (pretty hours); T "h "; T (pretty (remainder `div` 60)); T "m ";
   T (pretty (remainder `mod` 60)); T "s"].

Definition str_opt (o : option Z) : string :=
  match o with
  | None => "None"
  | Some z => pretty z
  end.

(** The body of the loop of [print_summary] for one processed video. *)
Definition summarize (vid_file : string) : M unit :=
  st <- gets stats;;
  match st !! vid_file with
  | None => raise KeyError
  | Some r =>
      log Ctx INFO [T nl; T vid_file; T ":"];;
      log Ctx INFO (T "  Duration: " :: hms (Stats.duration r));;
      log Ctx INFO [T "  Segments: "; T (str_opt (Stats.segment_count r))];;
      log Ctx INFO [T "  Audio Tracks: "; T (str_opt (Stats.audio_tracks r))];;
      match Stats.compression_ratio r, Stats.input_size r, Stats.output_size r with
      | Some q, Some i, Some o =>
          if negb (Qeq_bool q 0)
          then log Ctx INFO [T "  Compression Ratio: "; Ratio i o ".2f"; T "x"];;
               log Ctx INFO [T "  Input Size: "; MB i; T " MB"];;
               log Ctx INFO [T "  Output Size: "; MB o; T " MB"]
          else ret tt
      | _, _, _ => ret tt
      end
  end.

Definition print_summary (start_time : Z) : M unit :=
  end_time <- now;;
  let total_duration := end_time - start_time in
  log Ctx INFO [T nl; T "=== Encoding Summary ==="];;
  log Ctx INFO [T "Overall Process:"];;
  log Ctx INFO [T "Start time: "; Ticks start_time];;
  log Ctx INFO [T "End time: "; Ticks end_time];;
  log Ctx INFO (T "Total Duration: " :: hms total_duration);;
  log Ctx INFO [T nl; T "Individual Video Processing Times:"];;
  videos <- gets processed_videos;;
  for_each videos summarize;;
  log Ctx INFO [T nl; T "Encoding workflow complete"].

(** The body of the loop of [run] for one input file, lines 216 to 221. *)
Definition run_one (total : Z) (item : Z * Path) : M unit :=
  let '(i, input_file) := item in
  try_except
    (process_video input_file i total)
    (λ e, log Ctx ERROR [T "Failed to process "; T (str_path input_file); T ": "; E e]).

(** The body of the outer [try] statement of [run], lines 207 to 224. *)
Definition run_try (start_time : Z) : M unit :=
  prepare_directories;;
  input_files <- get_input_files;;
  let total := Z.of_nat (length input_files) in
  log Ctx INFO [T "Found "; T (pretty total); T " files to process"];;
  for_each (enumerate 1 input_files) (run_one total);;
  print_summary start_time.

(** The [finally] clause of [run], lines 229 to 234. *)
Definition run_finally : M unit :=
  try_except
    (cleanup_working_dirs "final")
    (λ e, log Ctx ERROR [T "Failed to cleanup: "; E e]).

Definition run : M unit :=
  start_time <- now;;
  log Ctx INFO [T "Starting video encoding workflow"];;
  try_finally
    (try_except
       (run_try start_time)
       (λ e, log Ctx ERROR [T "Fatal error in encoding workflow: "; E e];;
             raise e))
    run_finally.

End Pipeline.

(** ** Concrete hosts and worlds

    Worlds on which the pipeline is run in the examples below.  [tools]
    behaves like well-behaved external programs on one input, [a.mkv], with
    two segments and two audio streams; a [fault] makes one of them
    misbehave. *)

Module Demo.

Inductive fault :=
| NoFault
| SegmentationFails          (* the segmenter exits with status 1 *)
| SegmentationFailsLocked    (* ... and leaves [working] impossible to remove *)
| ProbeFails.                (* mediainfo exits with status 1 *)

Definition media (size : Z) : fentry := FEntry true size EmptyString.

Definition add_file (d n : string) (f : fentry) (e : Env) : Env :=
  set_dirs (λ m, match m !! d with
                 | Some dn => <[d := DNode (remove_assoc n (entries dn) ++ [(n, f)])
                                           (removable dn)]> m
                 | None => m
                 end) e.

Definition lock_dir (d : string) (e : Env) : Env :=
  set_dirs (λ m, match m !! d with
                 | Some dn => <[d := DNode (entries dn) false]> m
                 | None => m
                 end) e.

Definition has (flag : string) (cmd : list string) : bool := bool_decide (flag ∈ cmd).

Definition streams_json : json :=
  JDict (<["streams" :=
    JList [JDict (<["codec_name" := JStr "aac"]> ∅);
           JDict (<["codec_name" := JStr "ac3"]> (<["channels" := JInt 6]> ∅))]]> ∅).

Definition tools (f : fault) (cmd : list string) (e : Env) : Env * (Z * string * string) :=
  match cmd with
  | "mediainfo" :: _ =>
      match f with
      | ProbeFails => (e, (1, EmptyString, "cannot open"))
      | _ => (e, (0, "HDR10", EmptyString))
      end
  | "ffprobe" :: _ =>
      if has "json" cmd then (e, (0, "{streams}", EmptyString))
      else if has "stream=codec_type" cmd then (e, (0, "audio", EmptyString))
      else if has "stream=index" cmd then (e, (0, "1,2", EmptyString))
      else (e, (0, EmptyString, EmptyString))
  | "ab-av1" :: _ =>
      if has (str_path (mkPath "segments" "0000.mkv")) cmd
      then (add_file "encoded_segments" "0000.mkv" (media 2000) e,
            (0, EmptyString, EmptyString))
      else (add_file "encoded_segments" "0001.mkv" (media 3000) e,
            (0, EmptyString, EmptyString))
  | "ffmpeg" :: _ =>
      if has "segment" cmd then
        match f with
        | SegmentationFails => (e, (1, EmptyString, "Invalid data"))
        | SegmentationFailsLocked =>
            (lock_dir "working" (add_file "working" "core" (media 1) e),
             (1, EmptyString, "Invalid data"))
        | _ => (add_file "segments" "0000.mkv" (media 6000)
                  (add_file "segments" "0001.mkv" (media 5000) e),
                (0, EmptyString, EmptyString))
        end
      else if has "concat" cmd then
        (add_file "working" "a.mkv" (media 5000) e, (0, EmptyString, EmptyString))
      else if has "0:a:0" cmd then
        (add_file "working" "audio-0.mkv" (media 1500) e, (0, EmptyString, EmptyString))
      else if has "0:a:1" cmd then
        (add_file "working" "audio-1.mkv" (media 2500) e, (0, EmptyString, EmptyString))
      else (add_file "output" "a.mkv" (media 9000) e, (0, EmptyString, EmptyString))
  | _ => (e, (127, EmptyString, EmptyString))
  end.

Definition host (f : fault) : Host := {|
  exec := tools f;
  json_loads := λ s, if String.eqb s "{streams}" then Some streams_json else None;
  int_of_str := λ _, None;
  splitlines := λ s, if String.eqb s "1,2" then ["1"; "2"] else [];
  read_lines := λ s, if String.eqb s EmptyString then [] else [s]
|}.

Definition all_tools : list string := ["ffmpeg"; "ffprobe"; "mediainfo"; "ab-av1"].

Definition empty_dir : dnode := DNode [] true.

(** A fresh workspace holding the inputs [files]; [working] has a
    leftover file of an earlier run. *)
Definition world (path : list string) (files : list string) : Env :=
  mkEnv true
    (<["input" := DNode ((λ n, (n, media 10000)) <$> files) true]>
       (<["working" := DNode [("stale.mkv", media 7)] true]>
          (<["output" := empty_dir]>
             (<["segments" := empty_dir]>
                (<["encoded_segments" := empty_dir]>
                   (<["logs" := empty_dir]> ∅))))))
    path 0.

Definition state (e : Env) : St := mkSt e None ∅ [] false.

Definition a_mkv : Path := mkPath "input" "a.mkv".

Definition start : St := state (world all_tools ["a.mkv"]).

(** The same workspace, but the operating system does not let the
    process remove [working]. *)
Definition locked_start : St := state (lock_dir "working" (world all_tools ["a.mkv"])).

(** A batch of two inputs; the tools can only handle [a.mkv], so the job
    of [0.mkv], which comes first, fails. *)
Definition batch : St := state (world all_tools ["a.mkv"; "0.mkv"]).

(** The workspace of [start] on a machine without mediainfo. *)
Definition no_mediainfo : St := state (world ["ffmpeg"; "ffprobe"; "ab-av1"] ["a.mkv"]).


(** Two encoded segments, listed by the directory in descending order. *)
Definition encoded : St :=
  state (add_file "encoded_segments" "0000.mkv" (media 2000)
           (add_file "encoded_segments" "0001.mkv" (media 3000) (world all_tools ["a.mkv"]))).

Definition segmentation_error : exn :=
  Enc SegmentationError "Failed to segment video: Invalid data" None (Some a_mkv).

End Demo.


(** ** core/video.py: cleanup_segments *)


(** ** utils/validation.py: get_audio_track_count *)

Section Probes.
Context `{Host}.

Definition get_audio_track_count (file : Path) : M Z :=
  try_except
    ('(stdout, _) <- subprocess_run (audio_probe_cmd "stream=index" file);;
     ret (Z.of_nat (length (splitlines stdout))))
    (λ e, match e with
          | CalledProcessError rc cmd out err =>
              raise (mkProcessError "Failed to get audio track count" cmd rc out err)
          | _ => raise e
          end).

End Probes.

(** ** utils/logging_config.py and main.py *)

Section Program.
Context `{Host}.

(** [datetime.now().strftime('%Y%m%d_%H%M%S')] of a clock reading. *)
Variable strftime : Z → string.







End Program.

(** ** Hosts with a failing program *)

Module Faulty.

(** The host [h], except that every run of [prog] exits with status [rc]
    and writes [err] on its standard error, touching nothing. *)
Definition failing (prog : string) (rc : Z) (err : string) (h : Host) : Host := {|
  exec := λ cmd e,
    match cmd with
    | p :: _ => if String.eqb p prog then (e, (rc, EmptyString, err)) else @exec h cmd e
    | [] => @exec h cmd e
    end;
  json_loads := @json_loads h;
  int_of_str := @int_of_str h;
  splitlines := @splitlines h;
  read_lines := @read_lines h
|}.

(** A host whose probe reports no audio stream. *)
Definition silent : Host := {|
  exec := Demo.tools Demo.NoFault;
  json_loads := λ _, Some (JDict ∅);
  int_of_str := λ _, None;
  splitlines := λ _, [];
  read_lines := λ _, []
|}.



(** The workspace of [Demo.start] with an empty input directory. *)
Definition no_inputs : St := Demo.state (Demo.world Demo.all_tools []).

(** Two inputs that differ only in their extension. *)
Definition twins : St := Demo.state (Demo.world Demo.all_tools ["a.mkv"; "a.mp4"]).

(** Segments present, none encoded yet. *)
Definition segmented : St :=
  Demo.state (Demo.add_file "segments" "0000.mkv" (Demo.media 6000)
                (Demo.world Demo.all_tools ["a.mkv"])).

End Faulty.
(** * Vocabulary of the statements *)

(** An [Optional[int]] that is [None] or [0]. *)
Definition unknown_or_zero (o : option Z) : Prop := o = None ∨ o = Some 0.

(** The encoder's books: the statistics and the list of processed videos. *)
Definition same_books (s s' : St) : Prop :=
  stats s' = stats s ∧ processed_videos s' = processed_videos s.

(** [quiet f m]: running [m] logs no record that the extractor [f] picks,
    and leaves the encoder's books as they are. *)
Definition quiet {R A} (f : record → option R) (m : M A) : Prop :=
  ∀ st, omap f (logged (m st)) = [] ∧ same_books st (st_of (m st)).

(** The milestones of a batch, as the log shows them: the record
    [process_video] writes when it starts on a file (its number, the total
    and the path, as printed), and the header of the summary. *)
Inductive milestone :=
| Processing (i n path : string)
| Summary.

Definition is_milestone (r : record) : option milestone :=
  match r with
  | Rec Ctx INFO [T a; T i; T b; T n; T c; T p] =>
      if String.eqb a "Processing file " then Some (Processing i n p) else None
  | Rec Ctx INFO [T a; T b] =>
      if String.eqb a nl && String.eqb b "=== Encoding Summary ===" then Some Summary
      else None
  | _ => None
  end.

(** What [mkdir] creates. *)
Definition fresh : dnode := DNode [] true.

(** A directory exists and holds nothing. *)
Definition dir_empty (e : Env) (d : string) : bool :=
  match dirs e !! d with
  | Some dn => match entries dn with [] => true | _ => false end
  | None => false
  end.

(** The three transient directories exist and are empty. *)
Definition transient_empty (e : Env) : bool := forallb (dir_empty e) transient_dirs.

(** The operating system lets the process reset the transient
    directories: directories can be created under [BASE_DIR] and every
    transient directory that exists can be removed. *)
Definition resettable (e : Env) : bool :=
  base_writable e
  && forallb (λ d, match dirs e !! d with
                   | Some dn => removable dn
                   | None => true
                   end) transient_dirs.

Definition cleanup_failure (cause : exn) : exn :=
  Enc CleanupError "Failed to clean up directories: " (Some cause) None.

(** The record the [finally] clause of [process_video] writes when the
    reset fails with [c]. *)
Definition cleanup_error_record (c : exn) : record :=
  Rec Ctx ERROR [T "Error during cleanup: "; E c].

(** Every field of the state but the outside world is unchanged. *)
Definition same_session (s s' : St) : Prop :=
  current_file s' = current_file s ∧ stats s' = stats s
  ∧ processed_videos s' = processed_videos s ∧ is_dolby_vision s' = is_dolby_vision s.

(** The record [process_video] writes first. *)
Definition processing_record (current_file total_files : Z) (input_path : Path) : record :=
  Rec Ctx INFO [T "Processing file "; T (pretty current_file); T " of ";
                T (pretty total_files); T ": "; T (str_path input_path)].

(** Every processed video has its statistics ([print_summary] relies on it). *)
Definition books_ok (st : St) : Prop :=
  ∀ v, v ∈ processed_videos st → is_Some (stats st !! v).

(** [steady m]: running [m] announces no new file, and keeps the list of
    processed videos and the set of videos that have statistics. *)
Definition steady {A} (m : M A) : Prop :=
  ∀ st, omap is_milestone (logged (m st)) = []
        ∧ dom (stats (st_of (m st))) = dom (stats st)
        ∧ processed_videos (st_of (m st)) = processed_videos st.

(** The state [process_video] enters its [try] statement with. *)
Definition begun (input_path : Path) (start_time input_size : Z) (st : St) : St :=
  let vid_file := stem (name input_path) in
  with_current_file (Some (name input_path))
    (set_processed (λ l, l ++ [vid_file])
       (set_stats (<[vid_file := Stats.mkStats vid_file start_time None (Some input_size)
                                   None None None]>) st)).

(** The names [get_input_files] finds in the input directory, before
    sorting. *)
Definition input_names (e : Env) : list string :=
  concat ((λ fmt, glob (get_dir "input") fmt e) <$> Config.SUPPORTED_FORMATS).

(** The record [run] writes when a file failed with [e]. *)
Definition failure_record (input_file : Path) (e : exn) : record :=
  Rec Ctx ERROR [T "Failed to process "; T (str_path input_file); T ": "; E e].

(** The milestone of starting on the numbered file [item] of [total]. *)
Definition announced (total : Z) (item : Z * Path) : milestone :=
  Processing (pretty item.1) (pretty total) (str_path item.2).

(** [completes m st ms]: from [st], [m] returns normally, shows exactly
    the milestones [ms] in its log, and leaves the books in order. *)
Definition completes {A} (m : M A) (st : St) (ms : list milestone) : Prop :=
  (∃ a, res (m st) = Ok a)
  ∧ omap is_milestone (logged (m st)) = ms
  ∧ books_ok (st_of (m st)).



(** The error of [check_ffmpeg_installed] for a missing [tool]. *)
Definition missing_tool (tool : string) : exn :=
  Enc ValidationError ("Required tool '" +:+ tool +:+ "' not found in PATH") None None.

(** The path in the record [encode_segment] writes when it starts on a
    segment. *)
Definition is_input (r : record) : option string :=
  match r with
  | Rec Ctx INFO [T a; T p] => if String.eqb a "Input: " then Some p else None
  | _ => None
  end.

(** What [detect_dolby_vision] logs before and after a probe that exits
    with a status other than zero. *)
Definition probe_failure_log (file : Path) (stderr : string) : list record :=
  [Rec Root INFO [T "Detecting Dolby Vision..."];
   Rec Root INFO [T "Running "; T "Mediainfo detection"; T ": ";
                  T (String.concat " " ["mediainfo"; "--Output=JSON"; str_path file])];
   Rec Root WARNING [T "Failed to detect Dolby Vision: "; T stderr];
   Rec Root WARNING [T "Assuming no Dolby Vision present"]].

(** The record [run_command] writes before it starts the program. *)
Definition running_record (desc : string) (cmd : list string) : record :=
  Rec Root INFO [T "Running "; T desc; T ": "; T (String.concat " " cmd)].

(** The records of the lines of the child that [run_command] logs when
    [show_output] is set. *)
Definition streamed `{Host} (show_output : bool) (stdout stderr : string) : list record :=
  if show_output
  then ((λ line, Rec Root INFO [T line]) <$> read_lines stdout)
       ++ ((λ line, Rec Root WARNING [T line]) <$> read_lines stderr)
  else [].

(** [Popen] on a program that is not on [PATH]. *)
Definition not_found (prog : string) : exn :=
  OSError ("No such file or directory: '" +:+ prog +:+ "'").


(** ** Vocabulary of the further statements *)

(** The file an exception of the package carries. *)
Definition file_of (e : exn) : option Path :=
  match e with Enc _ _ _ f => f | _ => None end.

(** The size of [p] when it is a regular file. *)
Definition regular (e : Env) (p : Path) : option Z :=
  match lookup_entry p e with
  | Some f => if is_reg f then Some (st_size f) else None
  | None => None
  end.

(** The record [validate_video_file] writes first. *)
Definition validating_record (file : Path) (step : string) : record :=
  Rec Ctx DEBUG [T "Validating file: "; T (str_path file); T " (step: "; T step; T ")"].

(** The probe of [validate_video_file]. *)
Definition probe_cmd (file : Path) : list string := ["ffprobe"; "-v"; "error"; str_path file].

Definition file_not_found (step : string) (file : Path) : exn :=
  Enc FileNotFoundError (step +:+ ": File not found") None (Some file).

Definition invalid_video (step : string) (file : Path) (stderr : string) : exn :=
  Enc InvalidVideoError (step +:+ ": Invalid video file - ffprobe output: " +:+ stderr)
      None (Some file).

(** The error of [encode_audio_track] when the encoder exits with a status
    other than zero. *)
Definition audio_track_error (input_path : Path) (track_index : Z) (stderr : string) : exn :=
  Enc AudioError ("Failed to encode audio track " +:+ pretty track_index +:+ ": " +:+ stderr)
      None (Some input_path).

(** What [get_audio_info] makes of the output of a probe that exited with
    status zero. *)
Definition streams_of `{Host} (stdout : string) : result json :=
  match json_loads stdout with
  | None => Raise (Enc AudioError "Failed to parse audio information: "
                       (Some JSONDecodeError) None)
  | Some (JDict m) => Ok (default (JList []) (m !! "streams"))
  | Some _ => Raise AttributeError
  end.

(** [grown e e']: the outside world [e'] is [e] with, possibly, some
    missing directories created empty; nothing else differs. *)
Definition grown (e e' : Env) : Prop :=
  base_writable e' = base_writable e ∧ on_path e' = on_path e ∧ clock e' = clock e
  ∧ ∀ d, dirs e' !! d = dirs e !! d ∨ (dirs e !! d = None ∧ dirs e' !! d = Some fresh).

(** The error of [prepare_directories]. *)
Definition prepare_failure (cause : exn) : exn :=
  Enc VideoEncoderError "Failed to create directories: " (Some cause) None.

(** The error of [get_input_files]. *)
Definition no_input_files : exn :=
  Enc VideoEncoderError ("No input files found in " +:+ str_dir (get_dir "input")) None None.

(** The outside world apart from its directories. *)
Definition same_machine (e e' : Env) : Prop :=
  base_writable e' = base_writable e ∧ on_path e' = on_path e ∧ clock e' = clock e.

(** The record [run] writes when its outer [try] statement fails. *)
Definition fatal_record (e : exn) : record :=
  Rec Ctx ERROR [T "Fatal error in encoding workflow: "; E e].



(** [extends r r']: the statistics [r'] are [r] with, possibly, fields
    filled in or updated: the identity of the job is kept and no field
    that was set is unset. *)
Definition extends (r r' : Stats.ProcessingStats) : Prop :=
  Stats.filename r' = Stats.filename r
  ∧ Stats.start_time r' = Stats.start_time r
  ∧ Stats.input_size r' = Stats.input_size r
  ∧ (is_Some (Stats.end_time r) → is_Some (Stats.end_time r'))
  ∧ (is_Some (Stats.segment_count r) → is_Some (Stats.segment_count r'))
  ∧ (is_Some (Stats.audio_tracks r) → is_Some (Stats.audio_tracks r'))
  ∧ (is_Some (Stats.output_size r) → is_Some (Stats.output_size r')).

(** [job_frame vid s s']: between [s] and [s'] only the statistics of
    [vid] have changed, and they have been extended. *)
Definition job_frame (vid : string) (s s' : St) : Prop :=
  processed_videos s' = processed_videos s
  ∧ (∀ v, v ≠ vid → stats s' !! v = stats s !! v)
  ∧ ∀ r, stats s !! vid = Some r → ∃ r', stats s' !! vid = Some r' ∧ extends r r'.

(** [tracks vid m]: running [m] keeps to the frame of the job [vid]. *)
Definition tracks {A} (vid : string) (m : M A) : Prop :=
  ∀ st, job_frame vid st (st_of (m st)).

(** The statistics of [vid] have the field [field] set. *)
Definition has_field (vid : string) (field : Stats.ProcessingStats → option Z) (s : St) : Prop :=
  ∃ r, stats s !! vid = Some r ∧ is_Some (field r).

(** A string without a dot. *)
Fixpoint dotless (s : string) : bool :=
  match s with
  | EmptyString => true
  | String c s' => negb (Ascii.eqb c "."%char) && dotless s'
  end.

(** The video named by the record that opens its section of the summary. *)
Definition is_video_header (r : record) : option string :=
  match r with
  | Rec Ctx INFO [T a; T v; T c] =>
      if String.eqb a nl && String.eqb c ":" then Some v else None
  | _ => None
  end.

(** The error of [validate_final_output] when the output has [actual]
    audio tracks. *)
Definition track_count_mismatch (file : Path) (actual expected : Z) : exn :=
  Enc ValidationError
    ("Final output has " +:+ pretty actual +:+ " audio tracks, "
       +:+ "expected " +:+ pretty expected) None (Some file).
(** * Properties *)

(** ** The bitrate table *)

(** C4: [get_audio_bitrate] returns 64, 128, 256 and 384 for 1, 2, 6 and 8
    channels, and [channels * 48] for every other channel count. *)
Theorem get_audio_bitrate_table (channels : Z) :
  Config.get_audio_bitrate channels =
    match channels with
    | 1 => 64
    | 2 => 128
    | 6 => 256
    | 8 => 384
    | _ => channels * 48
    end.
Proof.
  unfold Config.get_audio_bitrate, Config.AUDIO_BITRATES.
  destruct (decide (channels = 1)) as [->|H1]; [reflexivity|].
  destruct (decide (channels = 2)) as [->|H2]; [reflexivity|].
  destruct (decide (channels = 6)) as [->|H6]; [reflexivity|].
  destruct (decide (channels = 8)) as [->|H8]; [reflexivity|].
  rewrite !lookup_insert_ne, lookup_empty by congruence. simpl.
  destruct channels as [|p|p]; try reflexivity.
  do 4 (destruct p as [p|p|]; try reflexivity; try congruence).
Qed.

(** ** The compression ratio *)

Section CompressionRatio.
Import Stats.

Lemma truthy_false o : truthy o = false ↔ unknown_or_zero o.
Proof.
  unfold unknown_or_zero. destruct o as [z|]; simpl.
  - rewrite negb_false_iff, Z.eqb_eq. split; [intros ->; auto|].
    intros [?| [= ->]]; congruence.
  - split; auto.
Qed.

(** C5, as stated, fails: with input size 0 and output size 500 the
    ratio is [None] although the output size is known and not zero. *)
Lemma compression_ratio_zero_input :
  ¬ (compression_ratio (stats_of (Some 0) (Some 500)) = None
     ↔ unknown_or_zero (output_size (stats_of (Some 0) (Some 500)))).
Proof.
  intros [Hn _]. specialize (Hn eq_refl). destruct Hn as [Hn|Hn]; discriminate Hn.
Qed.

(** C5, amended: the ratio is [None] exactly when the input size or the
    output size is unknown or zero, and it is input / output otherwise;
    1000 and 500 give 2, 500 and 1000 give 1/2. *)
Theorem compression_ratio_spec (s : ProcessingStats) :
  (compression_ratio s = None
     ↔ unknown_or_zero (input_size s) ∨ unknown_or_zero (output_size s))
  ∧ (∀ q, compression_ratio s = Some q →
       ∃ i o, input_size s = Some i ∧ output_size s = Some o ∧ i ≠ 0 ∧ o ≠ 0
              ∧ q = (inject_Z i / inject_Z o)%Q)
  ∧ (∃ q, compression_ratio (stats_of (Some 1000) (Some 500)) = Some q ∧ (q == 2)%Q)
  ∧ (∃ q, compression_ratio (stats_of (Some 500) (Some 1000)) = Some q ∧ (q == 1 # 2)%Q).
Proof.
  repeat split.
  - rewrite <- !truthy_false. unfold compression_ratio.
    destruct (input_size s) as [i|], (output_size s) as [o|]; simpl; auto.
    destruct (negb (i =? 0)), (negb (o =? 0)); simpl; auto; discriminate.
  - rewrite <- !truthy_false. unfold compression_ratio.
    destruct (input_size s) as [i|], (output_size s) as [o|]; simpl;
      try reflexivity; try (intros [?|?]; discriminate).
    destruct (negb (i =? 0)), (negb (o =? 0)); simpl; try reflexivity.
    intros [?|?]; discriminate.
  - intros q. unfold compression_ratio.
    destruct (input_size s) as [i|], (output_size s) as [o|]; try discriminate.
    simpl. destruct (Z.eqb_spec i 0), (Z.eqb_spec o 0); simpl; try discriminate.
    intros [= <-]. eauto 10.
  - eexists; split; [reflexivity|reflexivity].
  - eexists; split; [reflexivity|reflexivity].
Qed.

End CompressionRatio.

(** ** Facts about the monad *)

Section MonadFacts.
Context {A B : Type}.

Lemma bind_ok (m : M A) (k : A → M B) st a :
  res (m st) = Ok a →
  bind m k st = Out (logged (m st) ++ logged (k a (st_of (m st))))
                    (st_of (k a (st_of (m st)))) (res (k a (st_of (m st)))).
Proof. unfold bind. intros ->. reflexivity. Qed.

Lemma bind_raise (m : M A) (k : A → M B) st e :
  res (m st) = Raise e →
  bind m k st = Out (logged (m st)) (st_of (m st)) (Raise e).
Proof. unfold bind. intros ->. reflexivity. Qed.

Lemma try_except_ok (m : M A) h st a :
  res (m st) = Ok a → try_except m h st = m st.
Proof. unfold try_except. intros ->. reflexivity. Qed.

Lemma try_except_raise (m : M A) h st e :
  res (m st) = Raise e →
  try_except m h st = Out (logged (m st) ++ logged (h e (st_of (m st))))
                          (st_of (h e (st_of (m st)))) (res (h e (st_of (m st)))).
Proof. unfold try_except. intros ->. reflexivity. Qed.

Lemma outcome_eta (o : outcome A) : o = Out (logged o) (st_of o) (res o).
Proof. destruct o; reflexivity. Qed.

Lemma try_except_res_raise (m : M A) h st e :
  res (m st) = Raise e → res (try_except m h st) = res (h e (st_of (m st))).
Proof. unfold try_except. intros ->. reflexivity. Qed.

(** A preamble, then a job guarded by a [finally] clause that does not
    raise: the result is the job's. *)
Lemma guarded_shape (b : M A) (job : A → M B) (fin : A → M unit) st l st1 a :
  b st = Out l st1 (Ok a) →
  res (fin a (st_of (job a st1))) = Ok tt →
  bind b (λ v, try_finally (job v) (fin v)) st
  = Out (l ++ logged (job a st1) ++ logged (fin a (st_of (job a st1))))
        (st_of (fin a (st_of (job a st1)))) (res (job a st1)).
Proof.
  intros Hb Hfin. unfold bind, try_finally. rewrite Hb. cbn [res st_of logged].
  rewrite Hfin. reflexivity.
Qed.
Lemma logged_bind_prefix (m : M A) (k : A → M B) st :
  ∃ rest, logged (bind m k st) = logged (m st) ++ rest.
Proof.
  unfold bind. destruct (res (m st)); cbn [logged]; [eauto|].
  exists []. by rewrite app_nil_r.
Qed.

Lemma logged_try_except_prefix (m : M A) h st :
  ∃ rest, logged (try_except m h st) = logged (m st) ++ rest.
Proof.
  unfold try_except. destruct (res (m st)); cbn [logged]; [|eauto].
  exists []. by rewrite app_nil_r.
Qed.
Lemma res_bind_ok (m : M A) (k : A → M B) st b :
  res (bind m k st) = Ok b →
  ∃ a, res (m st) = Ok a ∧ res (k a (st_of (m st))) = Ok b.
Proof. unfold bind. destruct (res (m st)) as [a|e]; cbn [res]; [eauto|discriminate]. Qed.

(** Rewriting a [bind] whose first computation is known. *)
Lemma bind_ret (a : A) (k : A → M B) st : bind (ret a) k st = k a st.
Proof. unfold bind, ret. cbn [res st_of logged app]. by destruct (k a st). Qed.

Lemma bind_gets (f : St → A) (k : A → M B) st : bind (gets f) k st = k (f st) st.
Proof. unfold bind, gets. cbn [res st_of logged app]. by destruct (k (f st) st). Qed.

Lemma bind_throw e (k : A → M B) st : bind (raise e) k st = Out [] st (Raise e).
Proof. reflexivity. Qed.

Lemma bind_out (m : M A) (k : A → M B) st l s a :
  m st = Out l s (Ok a) →
  bind m k st = Out (l ++ logged (k a s)) (st_of (k a s)) (res (k a s)).
Proof. unfold bind. intros ->. reflexivity. Qed.

Lemma bind_out_raise (m : M A) (k : A → M B) st l s e :
  m st = Out l s (Raise e) → bind m k st = Out l s (Raise e).
Proof. unfold bind. intros ->. reflexivity. Qed.

Lemma try_except_out_raise (m : M A) h st l s e :
  m st = Out l s (Raise e) →
  try_except m h st = Out (l ++ logged (h e s)) (st_of (h e s)) (res (h e s)).
Proof. unfold try_except. intros ->. reflexivity. Qed.

Lemma try_except_out_ok (m : M A) h st l s a :
  m st = Out l s (Ok a) → try_except m h st = Out l s (Ok a).
Proof. unfold try_except. intros ->. reflexivity. Qed.

(** Where a raised exception comes from. *)
Lemma res_bind_raise (m : M A) (k : A → M B) st e :
  res (bind m k st) = Raise e →
  res (m st) = Raise e ∨ ∃ a, res (m st) = Ok a ∧ res (k a (st_of (m st))) = Raise e.
Proof. unfold bind. destruct (res (m st)) as [a|e']; cbn [res]; [eauto|]. intros [= ->]. by left. Qed.

Lemma res_try_except_raise (m : M A) h st e :
  res (try_except m h st) = Raise e →
  ∃ e0, res (m st) = Raise e0 ∧ res (h e0 (st_of (m st))) = Raise e.
Proof.
  unfold try_except. destruct (res (m st)) as [a|e'] eqn:Hm; cbn [res]; [|eauto].
  rewrite Hm. discriminate.
Qed.
End MonadFacts.

Lemma bind_log {B} lg l m (k : unit → M B) st :
  bind (log lg l m) k st
  = Out (Rec lg l m :: logged (k tt st)) (st_of (k tt st)) (res (k tt st)).
Proof. reflexivity. Qed.

Lemma logged_bind_log {B} lg l m (k : unit → M B) st :
  logged (bind (log lg l m) k st) = Rec lg l m :: logged (k tt st).
Proof. reflexivity. Qed.

Lemma res_bind_log {B} lg l m (k : unit → M B) st :
  res (bind (log lg l m) k st) = res (k tt st).
Proof. reflexivity. Qed.

Lemma st_of_bind_log {B} lg l m (k : unit → M B) st :
  st_of (bind (log lg l m) k st) = st_of (k tt st).
Proof. reflexivity. Qed.


(** ** Frames *)

Lemma same_books_refl s : same_books s s.
Proof. split; reflexivity. Qed.

Lemma same_books_trans s1 s2 s3 : same_books s1 s2 → same_books s2 s3 → same_books s1 s3.
Proof. intros [? ?] [? ?]. split; congruence. Qed.

Section Quiet.
Context {R : Type} (f : record → option R).

Lemma quiet_ret {A} (a : A) : quiet f (ret a).
Proof. intros st. split; [reflexivity|apply same_books_refl]. Qed.

Lemma quiet_raise {A} e : quiet f (@raise A e).
Proof. intros st. split; [reflexivity|apply same_books_refl]. Qed.

Lemma quiet_gets {A} (g : St → A) : quiet f (gets g).
Proof. intros st. split; [reflexivity|apply same_books_refl]. Qed.

Lemma quiet_modify (g : St → St) : (∀ st, same_books st (g st)) → quiet f (modify g).
Proof. intros Hg st. split; [reflexivity|apply Hg]. Qed.

Lemma quiet_log lg l m : f (Rec lg l m) = None → quiet f (log lg l m).
Proof. intros Hf st. split; [simpl; rewrite Hf; reflexivity|apply same_books_refl]. Qed.

Lemma quiet_bind {A B} (m : M A) (k : A → M B) :
  quiet f m → (∀ a, quiet f (k a)) → quiet f (bind m k).
Proof.
  intros Hm Hk st. unfold bind. destruct (Hm st) as [Hl Hs].
  destruct (res (m st)) as [a|e]; simpl; [|auto].
  destruct (Hk a (st_of (m st))) as [Hl' Hs'].
  rewrite omap_app, Hl, Hl'. split; [reflexivity|].
  eapply same_books_trans; eassumption.
Qed.

Lemma quiet_try_except {A} (m : M A) h :
  quiet f m → (∀ e, quiet f (h e)) → quiet f (try_except m h).
Proof.
  intros Hm Hh st. unfold try_except. destruct (Hm st) as [Hl Hs].
  destruct (res (m st)) as [a|e]; simpl; [auto|].
  destruct (Hh e (st_of (m st))) as [Hl' Hs'].
  rewrite omap_app, Hl, Hl'. split; [reflexivity|].
  eapply same_books_trans; eassumption.
Qed.

Lemma quiet_try_finally {A} (m : M A) fin :
  quiet f m → quiet f fin → quiet f (try_finally m fin).
Proof.
  intros Hm Hf st. unfold try_finally. simpl.
  destruct (Hm st) as [Hl Hs]. destruct (Hf (st_of (m st))) as [Hl' Hs'].
  rewrite omap_app, Hl, Hl'. split; [reflexivity|].
  eapply same_books_trans; eassumption.
Qed.

Lemma quiet_for_each {A} (xs : list A) body :
  (∀ x, quiet f (body x)) → quiet f (for_each xs body).
Proof.
  intros Hb. induction xs as [|x xs IH]; simpl.
  - apply quiet_ret.
  - apply quiet_bind; auto.
Qed.

Lemma quiet_for_fold {A S} (xs : list A) (acc : S) body :
  (∀ a x, quiet f (body a x)) → quiet f (for_fold xs acc body).
Proof.
  intros Hb. revert acc. induction xs as [|x xs IH]; intros acc; simpl.
  - apply quiet_ret.
  - apply quiet_bind; auto.
Qed.

Lemma quiet_capture {A} (m : M A) : quiet f m → quiet f (capture m).
Proof. intros Hm st. apply (Hm st). Qed.

Lemma quiet_collect {A} (rs : list (result A)) : quiet f (collect rs).
Proof.
  induction rs as [|[a|e] rs IH]; simpl.
  - apply quiet_ret.
  - apply quiet_bind; [assumption|]. intros; apply quiet_ret.
  - apply quiet_raise.
Qed.

Lemma quiet_executor_map {A B} (g : A → M B) xs :
  (∀ x, quiet f (g x)) → quiet f (executor_map g xs).
Proof.
  intros Hg. unfold executor_map. apply quiet_bind; [|intros; apply quiet_collect].
  induction xs as [|x xs IH]; simpl.
  - apply quiet_ret.
  - apply quiet_bind; [apply quiet_capture, Hg|]. intros r.
    apply quiet_bind; [assumption|]. intros; apply quiet_ret.
Qed.
End Quiet.

(** One step of a [quiet] proof: follow the shape of the computation. *)
Ltac quiet_step :=
  lazymatch goal with
  | |- quiet _ (bind _ _) => apply quiet_bind; [|intros; cbv beta]
  | |- quiet _ (try_except _ _) => apply quiet_try_except; [|intros; cbv beta]
  | |- quiet _ (try_finally _ _) => apply quiet_try_finally
  | |- quiet _ (for_each _ _) => apply quiet_for_each; intros; cbv beta
  | |- quiet _ (for_fold _ _ _) => apply quiet_for_fold; intros; cbv beta
  | |- quiet _ (executor_map _ _) => apply quiet_executor_map; intros; cbv beta
  | |- quiet _ (ret _) => apply quiet_ret
  | |- quiet _ (raise _) => apply quiet_raise
  | |- quiet _ (gets _) => apply quiet_gets
  | |- quiet _ (log _ _ _) => apply quiet_log; reflexivity
  | |- quiet _ (modify _) => apply quiet_modify; intros ?; split; reflexivity
  | |- quiet _ (match ?x with _ => _ end) => destruct x
  | |- quiet _ (match ?x with _ => _ end _) => destruct x; cbv beta
  | |- quiet _ (let _ := _ in _) => cbv zeta
  end.

Create HintDb quiet.

Ltac quiet_auto := repeat first [ quiet_step | solve [ eauto with quiet ] ].

Section QuietPrimitives.
Context `{Host} {R : Type} (f : record → option R).

Lemma quiet_now : quiet f now.
Proof. unfold now. quiet_auto. Qed.
Lemma quiet_path_exists d : quiet f (path_exists d).
Proof. unfold path_exists. quiet_auto. Qed.
Lemma quiet_rmtree d : quiet f (rmtree d).
Proof. unfold rmtree. quiet_auto. Qed.
Lemma quiet_mkdir d b : quiet f (mkdir d b).
Proof. unfold mkdir. quiet_auto. Qed.
Lemma quiet_is_file p : quiet f (is_file p).
Proof. unfold is_file. quiet_auto. Qed.
Lemma quiet_stat_size p : quiet f (stat_size p).
Proof. unfold stat_size. quiet_auto. Qed.
Lemma quiet_write_text p c : quiet f (write_text p c).
Proof. unfold write_text. quiet_auto. Qed.
Lemma quiet_unlink p : quiet f (unlink p).
Proof. unfold unlink. quiet_auto. Qed.
Lemma quiet_which t : quiet f (which t).
Proof. unfold which. quiet_auto. Qed.
Lemma quiet_spawn cmd : quiet f (spawn cmd).
Proof. unfold spawn. quiet_auto. Qed.
Lemma quiet_subprocess_run cmd : quiet f (subprocess_run cmd).
Proof. unfold subprocess_run. quiet_auto; apply quiet_spawn. Qed.
Lemma quiet_py_get v k d : quiet f (py_get v k d).
Proof. unfold py_get. quiet_auto. Qed.
Lemma quiet_py_int v : quiet f (py_int v).
Proof. unfold py_int. quiet_auto. Qed.
Lemma quiet_cleanup_working_dirs v : quiet f (cleanup_working_dirs v).
Proof.
  unfold cleanup_working_dirs, reset_dir.
  quiet_auto; auto using quiet_path_exists, quiet_rmtree, quiet_mkdir.
Qed.
End QuietPrimitives.

#[export] Hint Resolve quiet_now quiet_path_exists quiet_rmtree quiet_mkdir quiet_is_file
  quiet_stat_size quiet_write_text quiet_unlink quiet_which quiet_spawn
  quiet_subprocess_run quiet_py_get quiet_py_int quiet_cleanup_working_dirs : quiet.

(** No stage of the pipeline announces a new file or touches the books. *)
Section QuietStages.
Context `{Host}.
Local Abbreviation quiet := (quiet is_milestone).

Lemma quiet_run_command cmd desc check show : quiet (run_command cmd desc check show).
Proof. unfold run_command. quiet_auto. Qed.
#[local] Hint Resolve quiet_run_command : quiet.

Lemma quiet_validate_video_file file step : quiet (validate_video_file file step).
Proof. unfold validate_video_file. quiet_auto. Qed.
#[local] Hint Resolve quiet_validate_video_file : quiet.

Lemma quiet_validate_segments d n : quiet (validate_segments d n).
Proof. unfold validate_segments. quiet_auto. Qed.
#[local] Hint Resolve quiet_validate_segments : quiet.

Lemma quiet_validate_audio_tracks p n d : quiet (validate_audio_tracks p n d).
Proof. unfold validate_audio_tracks. quiet_auto. Qed.
#[local] Hint Resolve quiet_validate_audio_tracks : quiet.

Lemma quiet_validate_final_output p n : quiet (validate_final_output p n).
Proof. unfold validate_final_output. quiet_auto. Qed.
#[local] Hint Resolve quiet_validate_final_output : quiet.

Lemma quiet_detect_dolby_vision p : quiet (detect_dolby_vision p).
Proof. unfold detect_dolby_vision. quiet_auto. Qed.

Lemma quiet_segment_video p d : quiet (segment_video p d).
Proof. unfold segment_video. quiet_auto. Qed.

Lemma quiet_encode_segment p d i n inp : quiet (encode_segment p d i n inp).
Proof. unfold encode_segment, rule. quiet_auto. Qed.
#[local] Hint Resolve quiet_encode_segment : quiet.

Lemma quiet_encode_segments d d' inp : quiet (encode_segments d d' inp).
Proof. unfold encode_segments. quiet_auto. Qed.

Lemma quiet_write_concat_file d : quiet (write_concat_file d).
Proof. unfold write_concat_file. quiet_auto. Qed.
#[local] Hint Resolve quiet_write_concat_file : quiet.

Lemma quiet_concatenate_segments d p : quiet (concatenate_segments d p).
Proof. unfold concatenate_segments. quiet_auto. Qed.

Lemma quiet_get_audio_info p : quiet (get_audio_info p).
Proof. unfold get_audio_info. quiet_auto. Qed.
#[local] Hint Resolve quiet_get_audio_info : quiet.

Lemma quiet_encode_audio_track p i c d : quiet (encode_audio_track p i c d).
Proof. unfold encode_audio_track. quiet_auto. Qed.
#[local] Hint Resolve quiet_encode_audio_track : quiet.

Lemma quiet_encode_stream p d acc i s : quiet (encode_stream p d acc i s).
Proof. unfold encode_stream. quiet_auto. Qed.
#[local] Hint Resolve quiet_encode_stream : quiet.

Lemma quiet_encode_audio_tracks p d : quiet (encode_audio_tracks p d).
Proof. unfold encode_audio_tracks. quiet_auto. Qed.

Lemma quiet_remux_tracks v a o : quiet (remux_tracks v a o).
Proof. unfold remux_tracks. quiet_auto. Qed.
End QuietStages.

#[export] Hint Resolve quiet_run_command quiet_validate_video_file quiet_validate_segments
  quiet_validate_audio_tracks quiet_validate_final_output quiet_detect_dolby_vision
  quiet_segment_video quiet_encode_segment quiet_encode_segments quiet_write_concat_file
  quiet_concatenate_segments quiet_get_audio_info quiet_encode_audio_track
  quiet_encode_stream quiet_encode_audio_tracks quiet_remux_tracks : quiet.

(** ** Resetting the transient directories *)

Section Cleanup.
Context `{Host}.

Lemma same_session_refl s : same_session s s.
Proof. repeat split. Qed.

Lemma same_session_trans s1 s2 s3 :
  same_session s1 s2 → same_session s2 s3 → same_session s1 s3.
Proof. intros (?&?&?&?) (?&?&?&?). repeat split; congruence. Qed.

(** One directory: either it is replaced by a fresh empty one, or the
    operating system refuses and nothing changes. *)
Lemma reset_dir_spec d st :
  let o := reset_dir d st in
  logged o = [] ∧
  ((res o = Ok tt ∧ base_writable (env st) = true
    ∧ st_of o = set_env (set_dirs (<[d := DNode [] true]>)) st)
   ∨ (∃ e, res o = Raise e ∧ st_of o = st
           ∧ (base_writable (env st) = false
              ∨ ∃ dn, dirs (env st) !! d = Some dn ∧ removable dn = false))).
Proof.
  unfold reset_dir, get_dir, path_exists, rmtree, mkdir, bind, gets, modify, ret, raise.
  cbn [res st_of logged app].
  destruct (dirs (env st) !! d) as [dn|] eqn:Hd; cbn [res st_of logged app].
  - rewrite bool_decide_eq_true_2 by eauto. cbn [res st_of logged app].
    rewrite Hd. destruct (removable dn) eqn:Hr, (base_writable (env st)) eqn:Hw;
      cbn -[insert delete]; rewrite ?Hd; eauto 10.
    rewrite lookup_delete_eq, Hw. cbn -[insert delete]. split; [reflexivity|].
    left. repeat split. destruct st as [[]]; unfold set_env, set_dirs; cbn -[insert delete].
    cbn -[insert delete] in *. by rewrite insert_delete_eq.
  - rewrite bool_decide_eq_false_2 by (intros [? ?]; discriminate).
    cbn [res st_of logged app]. rewrite Hd.
    destruct (base_writable (env st)) eqn:Hw; cbn; eauto 10.
Qed.
Lemma reset_all_spec ds st :
  let o := for_each ds reset_dir st in
  logged o = [] ∧ same_session st (st_of o) ∧
  ((res o = Ok tt
    ∧ ∀ d, d ∈ ds ∨ dirs (env st) !! d = Some fresh →
           dirs (env (st_of o)) !! d = Some fresh)
   ∨ (∃ e d, res o = Raise e ∧ d ∈ ds
             ∧ (base_writable (env (st_of o)) = false
                ∨ ∃ dn, dirs (env (st_of o)) !! d = Some dn ∧ removable dn = false))).
Proof.
  revert st. induction ds as [|d0 ds IH]; intros st; cbn zeta.
  - simpl. split; [reflexivity|]. split; [apply same_session_refl|].
    left. split; [reflexivity|]. intros d [Hd|Hd]; [by apply elem_of_nil in Hd|done].
  - cbn [for_each]. destruct (reset_dir_spec d0 st) as [Hl [(Hr & Hw & Hs)|(e & Hr & Hs & Hc)]].
    + rewrite (bind_ok _ _ _ _ Hr). cbn [logged st_of res]. rewrite Hl, Hs.
      specialize (IH (set_env (set_dirs <[d0:=DNode [] true]>) st)).
      cbn zeta in IH. destruct IH as (Hl' & Hss & IH).
      split; [by rewrite Hl'|]. split.
      { eapply same_session_trans; [|exact Hss]. repeat split. }
      destruct IH as [[Hr' Hf]|(e & d & Hr' & Hd & Hc)].
      * left. split; [assumption|]. intros d Hd. apply Hf.
        destruct (decide (d = d0)) as [->|Hne].
        { right. cbn. apply lookup_insert_eq. }
        destruct Hd as [Hd|Hd].
        { left. apply elem_of_cons in Hd as [?|?]; [congruence|assumption]. }
        right. cbn. by rewrite lookup_insert_ne.
      * right. exists e, d. split; [assumption|]. split; [|assumption].
        by apply list_elem_of_further.
    + rewrite (bind_raise _ _ _ _ Hr). cbn [logged st_of res]. rewrite Hl, Hs.
      split; [reflexivity|]. split; [apply same_session_refl|].
      right. exists e, d0. split; [reflexivity|]. split; [apply list_elem_of_here|].
      assumption.
Qed.

Lemma resettable_false e :
  base_writable e = false
  ∨ (∃ d dn, d ∈ transient_dirs ∧ dirs e !! d = Some dn ∧ removable dn = false) →
  resettable e = false.
Proof.
  unfold resettable. intros [->|(d & dn & Hd & Hl & Hr)]; [reflexivity|].
  apply andb_false_iff. right. apply not_true_is_false. intros Hall.
  rewrite forallb_forall in Hall. specialize (Hall d).
  rewrite Hl, Hr in Hall. apply list_elem_of_In in Hd. by specialize (Hall Hd).
Qed.

(** [cleanup_working_dirs] logs nothing and touches only the outside
    world; it either leaves the three directories fresh, or fails with a
    [CleanupError] in a world that does not allow the reset. *)
Lemma cleanup_spec v st :
  let o := cleanup_working_dirs v st in
  logged o = [] ∧ same_session st (st_of o) ∧
  ((res o = Ok tt ∧ transient_empty (env (st_of o)) = true)
   ∨ (∃ c, res o = Raise (cleanup_failure c) ∧ resettable (env (st_of o)) = false)).
Proof.
  cbn zeta. unfold cleanup_working_dirs.
  destruct (reset_all_spec transient_dirs st) as (Hl & Hs & [[Hr Hf]|(e & d & Hr & Hd & Hc)]).
  - rewrite (try_except_ok _ _ _ _ Hr). split; [assumption|]. split; [assumption|].
    left. split; [assumption|]. unfold transient_empty, transient_dirs, dir_empty.
    cbn [forallb]. rewrite !Hf; [reflexivity|left..]; set_solver.
  - rewrite (try_except_raise _ _ _ _ Hr). cbn [logged st_of res raise].
    rewrite Hl. split; [reflexivity|]. split; [assumption|].
    right. exists e. split; [reflexivity|]. apply resettable_false.
    destruct Hc as [Hc|(dn & Hc1 & Hc2)]; [by left|]. right. eauto.
Qed.

(** The [finally] clause never raises, clears the logger's context and
    leaves the books alone; it logs exactly the failure of the reset, if
    any. *)
Lemma process_video_finally_spec v st :
  let o := process_video_finally v st in
  res o = Ok tt ∧ current_file (st_of o) = None ∧ same_books st (st_of o) ∧
  ((logged o = []
    ∧ res (cleanup_working_dirs v (with_current_file None st)) = Ok tt
    ∧ transient_empty (env (st_of o)) = true)
   ∨ (∃ c, logged o = [cleanup_error_record (cleanup_failure c)]
           ∧ res (cleanup_working_dirs v (with_current_file None st))
             = Raise (cleanup_failure c)
           ∧ resettable (env (st_of o)) = false)).
Proof.
  cbv zeta. unfold process_video_finally.
  rewrite (bind_ok _ _ _ tt) by reflexivity.
  cbn [modify logged st_of res app].
  pose proof (cleanup_spec v (with_current_file None st)) as Hs. cbv zeta in Hs.
  destruct Hs as (Hl & (Hc & Hst & Hp & _) & [[Hr He]|(c & Hr & He)]).
  - rewrite (try_except_ok _ _ _ _ Hr). rewrite Hl, Hc.
    split; [assumption|]. split; [reflexivity|]. split; [by split|].
    left. by repeat split.
  - rewrite (try_except_raise _ _ _ _ Hr). cbn [log logged st_of res].
    rewrite Hl, Hc.
    split; [reflexivity|]. split; [reflexivity|]. split; [by split|].
    right. exists c. by repeat split.
Qed.
End Cleanup.

(** ** The job orchestrator *)

Section Job.
Context `{Host}.

Lemma steady_of_quiet {A} (m : M A) : quiet is_milestone m → steady m.
Proof. intros Hq st. destruct (Hq st) as (Hl & Hs & Hp). by rewrite Hl, Hs, Hp. Qed.

Lemma steady_bind {A B} (m : M A) (k : A → M B) :
  steady m → (∀ a, steady (k a)) → steady (bind m k).
Proof.
  intros Hm Hk st. unfold bind. destruct (Hm st) as (Hl & Hs & Hp).
  destruct (res (m st)) as [a|e]; cbn [logged st_of]; [|done].
  destruct (Hk a (st_of (m st))) as (Hl' & Hs' & Hp').
  rewrite omap_app, Hl, Hl', Hs', Hp'. done.
Qed.

Lemma steady_try_except {A} (m : M A) h :
  steady m → (∀ e, steady (h e)) → steady (try_except m h).
Proof.
  intros Hm Hh st. unfold try_except. destruct (Hm st) as (Hl & Hs & Hp).
  destruct (res (m st)) as [a|e]; cbn [logged st_of]; [done|].
  destruct (Hh e (st_of (m st))) as (Hl' & Hs' & Hp').
  rewrite omap_app, Hl, Hl', Hs', Hp'. done.
Qed.

Lemma steady_update_stats v g : steady (update_stats v g).
Proof.
  intros st. unfold update_stats, bind, gets. cbn [res st_of logged].
  destruct (stats st !! v) as [r|] eqn:Hv; cbn -[insert]; [|done].
  repeat split. apply dom_insert_lookup_L. eauto.
Qed.

Lemma steady_process_video_try input vid : steady (process_video_try input vid).
Proof.
  unfold process_video_try.
  repeat first
    [ apply steady_update_stats
    | apply steady_of_quiet; solve [ quiet_auto ]
    | apply steady_bind; [|intros; cbv beta zeta] ].
Qed.

Lemma steady_process_video_except input vid e : steady (process_video_except input vid e).
Proof.
  unfold process_video_except.
  repeat first
    [ apply steady_update_stats
    | apply steady_of_quiet; solve [ quiet_auto ]
    | apply steady_bind; [|intros; cbv beta zeta] ].
Qed.

(** The [except] clause re-raises the exception it caught, as long as the
    video has its statistics. *)
Lemma process_video_except_raises input vid e st :
  is_Some (stats st !! vid) →
  res (process_video_except input vid e st) = Raise e.
Proof.
  intros [r Hr]. unfold process_video_except, update_stats, bind, log, now, gets.
  cbn [res st_of logged]. rewrite Hr. reflexivity.
Qed.

Lemma process_video_begin_ok input cur total st f :
  lookup_entry input (env st) = Some f →
  process_video_begin input cur total st
  = Out [processing_record cur total input]
        (begun input (clock (env st)) (st_size f) st) (Ok (stem (name input))).
Proof.
  intros Hf. unfold process_video_begin, stat_size, bind, log, now, gets, modify, ret.
  cbn [res st_of logged]. rewrite Hf. reflexivity.
Qed.

Lemma process_video_begin_missing input cur total st :
  lookup_entry input (env st) = None →
  process_video_begin input cur total st
  = Out [processing_record cur total input] st
        (Raise (OSError "No such file or directory")).
Proof.
  intros Hf. unfold process_video_begin, stat_size, bind, log, now, gets, modify, ret.
  cbn [res st_of logged]. rewrite Hf. reflexivity.
Qed.

Lemma process_video_begin_vid input cur total st vid :
  res (process_video_begin input cur total st) = Ok vid →
  vid = stem (name input) ∧ is_Some (stats (st_of (process_video_begin input cur total st)) !! vid).
Proof.
  destruct (lookup_entry input (env st)) as [f|] eqn:Hf.
  - rewrite (process_video_begin_ok _ _ _ _ _ Hf). cbn [res st_of].
    intros [= <-]. split; [reflexivity|]. unfold begun. cbn -[insert].
    rewrite lookup_insert_eq. eauto.
  - rewrite (process_video_begin_missing _ _ _ _ Hf). discriminate.
Qed.
Lemma process_video_finally_ok v st : res (process_video_finally v st) = Ok tt.
Proof. pose proof (process_video_finally_spec v st) as Hs. cbv zeta in Hs. apply Hs. Qed.

(** [process_video] on an input that exists: the announcement, the
    guarded job, and the [finally] clause, whose result is dropped. *)
Lemma process_video_unfold input cur total st f :
  lookup_entry input (env st) = Some f →
  let vid := stem (name input) in
  let j := try_except (process_video_try input vid) (process_video_except input vid)
             (begun input (clock (env st)) (st_size f) st) in
  let fin := process_video_finally vid (st_of j) in
  process_video input cur total st
  = Out ([processing_record cur total input] ++ logged j ++ logged fin)
        (st_of fin) (res j).
Proof.
  intros Hf. cbv zeta. unfold process_video.
  apply (guarded_shape (process_video_begin input cur total)
           (λ v, try_except (process_video_try input v) (process_video_except input v))
           process_video_finally st _ _ _ (process_video_begin_ok _ _ _ _ _ Hf)).
  apply process_video_finally_ok.
Qed.

(** C1, amended: for every job whose input file exists, whether the job
    succeeds or raises, [process_video] returns with the logger's
    current-file context cleared and after attempting the reset of the
    three transient directories: they are empty whenever the outside
    world allows the reset, and otherwise the failure of the reset is the
    last record logged. *)
Theorem process_video_resets_workspace input cur total st :
  is_Some (lookup_entry input (env st)) →
  let o := process_video input cur total st in
  current_file (st_of o) = None
  ∧ (resettable (env (st_of o)) = true → transient_empty (env (st_of o)) = true)
  ∧ (transient_empty (env (st_of o)) = true
     ∨ ∃ c, last (logged o) = Some (cleanup_error_record (cleanup_failure c))).
Proof.
  intros [f Hf]. cbv zeta.
  pose proof (process_video_unfold _ cur total _ _ Hf) as Hu. cbv zeta in Hu.
  rewrite Hu. clear Hu.
  generalize (try_except (process_video_try input (stem (name input)))
                (process_video_except input (stem (name input)))
                (begun input (clock (env st)) (st_size f) st)).
  intros j. cbn [st_of logged res].
  pose proof (process_video_finally_spec (stem (name input)) (st_of j)) as Hs.
  cbv zeta in Hs. revert Hs.
  generalize (process_video_finally (stem (name input)) (st_of j)).
  intros fin (_ & Hc & _ & [(Hl & _ & He)|(c & Hl & _ & He)]).
  - split; [assumption|]. split; [intros _; assumption|]. by left.
  - split; [assumption|]. split; [rewrite He; discriminate|]. right. exists c.
    rewrite Hl, !app_assoc, last_snoc. reflexivity.
Qed.

Lemma guarded_job_raises input st1 e :
  is_Some (stats st1 !! stem (name input)) →
  res (process_video_try input (stem (name input)) st1) = Raise e →
  res (try_except (process_video_try input (stem (name input)))
         (process_video_except input (stem (name input))) st1) = Raise e.
Proof.
  intros Hvid Htry.
  rewrite (try_except_res_raise _ _ _ _ Htry).
  apply process_video_except_raises.
  pose proof (steady_process_video_try input (stem (name input)) st1) as (_ & Hdom & _).
  revert Hdom. generalize (st_of (process_video_try input (stem (name input)) st1)).
  intros st2 Hdom. apply elem_of_dom. rewrite Hdom. by apply elem_of_dom.
Qed.

(** C2: when the job fails with [e] and the reset of the [finally]
    clause fails with [c], [process_video] raises [e], and [c] is only
    logged, as the last record. *)
Theorem cleanup_failure_keeps_job_error input cur total st vid e c :
  let b := process_video_begin input cur total st in
  let j := try_except (process_video_try input vid) (process_video_except input vid)
             (st_of b) in
  res b = Ok vid →
  res (process_video_try input vid (st_of b)) = Raise e →
  res (cleanup_working_dirs vid (with_current_file None (st_of j))) = Raise c →
  let o := process_video input cur total st in
  res o = Raise e ∧ last (logged o) = Some (cleanup_error_record c).
Proof.
  cbv zeta. intros Hb Htry Hclean.
  destruct (process_video_begin_vid _ _ _ _ _ Hb) as [-> Hvid].
  destruct (lookup_entry input (env st)) as [f|] eqn:Hf;
    [|rewrite (process_video_begin_missing _ _ _ _ Hf) in Hb; discriminate].
  pose proof (process_video_unfold _ cur total _ _ Hf) as Hu. cbv zeta in Hu.
  rewrite Hu. clear Hu Hb.
  revert Htry Hclean Hvid. rewrite (process_video_begin_ok _ _ _ _ _ Hf).
  cbn [st_of]. intros Htry Hclean Hvid.
  pose proof (guarded_job_raises _ _ _ Hvid Htry) as Hj.
  clear Htry Hvid. revert Hclean Hj.
  generalize (try_except (process_video_try input (stem (name input)))
                (process_video_except input (stem (name input)))
                (begun input (clock (env st)) (st_size f) st)).
  intros j Hclean Hj. cbn [st_of logged res].
  pose proof (process_video_finally_spec (stem (name input)) (st_of j)) as Hs.
  cbv zeta in Hs. revert Hs.
  generalize (process_video_finally (stem (name input)) (st_of j)).
  intros fin (_ & _ & _ & [(_ & Hr & _)|(c' & Hl & Hr & _)]).
  - pose proof (eq_trans (eq_sym Hr) Hclean) as Hx. discriminate Hx.
  - pose proof (eq_trans (eq_sym Hr) Hclean) as Hx. injection Hx as <-.
    split; [assumption|]. rewrite Hl, !app_assoc, last_snoc. reflexivity.
Qed.

Lemma books_ok_kept s s' :
  dom (stats s') = dom (stats s) → processed_videos s' = processed_videos s →
  books_ok s → books_ok s'.
Proof.
  intros Hd Hp Hb v Hv. rewrite Hp in Hv. apply elem_of_dom. rewrite Hd.
  apply elem_of_dom. by apply Hb.
Qed.

Lemma books_ok_begun input t z st : books_ok st → books_ok (begun input t z st).
Proof.
  intros Hb v Hv. unfold begun in *. cbn -[insert] in *.
  destruct (decide (v = stem (name input))) as [->|Hne].
  - rewrite lookup_insert_eq. eauto.
  - rewrite lookup_insert_ne by congruence. apply Hb.
    apply elem_of_app in Hv as [Hv|Hv]; [assumption|].
    apply list_elem_of_singleton in Hv. congruence.
Qed.

Lemma steady_guarded input vid :
  steady (try_except (process_video_try input vid) (process_video_except input vid)).
Proof.
  apply steady_try_except.
  - apply steady_process_video_try.
  - intros e. apply steady_process_video_except.
Qed.

Lemma process_video_missing input cur total st :
  lookup_entry input (env st) = None →
  process_video input cur total st
  = Out [processing_record cur total input] st (Raise (OSError "No such file or directory")).
Proof.
  intros Hf. unfold process_video.
  pose proof (process_video_begin_missing input cur total st Hf) as Hb. revert Hb.
  generalize (process_video_begin input cur total). intros b Hb.
  unfold bind. rewrite Hb. reflexivity.
Qed.

(** Whatever happens to the job, [process_video] announces its file
    exactly once and keeps the books in order. *)
Lemma process_video_spec input cur total st :
  omap is_milestone (logged (process_video input cur total st))
  = [announced total (cur, input)]
  ∧ (books_ok st → books_ok (st_of (process_video input cur total st))).
Proof.
  destruct (lookup_entry input (env st)) as [f|] eqn:Hf.
  - pose proof (process_video_unfold _ cur total _ _ Hf) as Hu. cbv zeta in Hu.
    rewrite Hu. clear Hu.
    pose proof (books_ok_begun input (clock (env st)) (st_size f) st) as Hb.
    revert Hb. generalize (begun input (clock (env st)) (st_size f) st).
    intros st1 Hb.
    pose proof (steady_guarded input (stem (name input)) st1) as Hj. revert Hj.
    generalize (try_except (process_video_try input (stem (name input)))
                  (process_video_except input (stem (name input))) st1).
    intros j (Hl & Hd & Hp).
    pose proof (process_video_finally_spec (stem (name input)) (st_of j)) as Hs.
    cbv zeta in Hs. revert Hs.
    generalize (process_video_finally (stem (name input)) (st_of j)).
    intros fin (_ & _ & [Hs1 Hs2] & Hlog).
    cbn [logged st_of].
    split.
    + rewrite !omap_app, Hl.
      destruct Hlog as [(-> & _)|(c & -> & _)]; reflexivity.
    + intros Hst. apply (books_ok_kept (st_of j)); [by rewrite Hs1|assumption|].
      apply (books_ok_kept st1); auto.
  - rewrite (process_video_missing _ _ _ _ Hf). cbn [logged st_of].
    split; [reflexivity|auto].
Qed.

(** One iteration of the loop of [run]: a failure of the job is logged
    and contained. *)
Lemma run_one_contains total i f st :
  let p := process_video f i total st in
  run_one total (i, f) st
  = Out (logged p ++ match res p with
                     | Ok _ => []
                     | Raise e => [failure_record f e]
                     end)
        (st_of p) (Ok tt).
Proof.
  cbv zeta. unfold run_one, try_except.
  generalize (process_video f i total st). intros [l s [[]|e]]; cbn [res logged st_of log].
  - by rewrite app_nil_r.
  - reflexivity.
Qed.

Lemma run_one_completes total item st :
  books_ok st → completes (run_one total item) st [announced total item].
Proof.
  destruct item as [i f]. intros Hb.
  pose proof (run_one_contains total i f st) as Hr. cbv zeta in Hr.
  pose proof (process_video_spec f i total st) as [Hm Hbk].
  unfold completes. rewrite Hr. clear Hr. cbn [res logged st_of].
  revert Hm Hbk. generalize (process_video f i total st). intros p Hm Hbk.
  split; [eauto|]. split; [|auto].
  rewrite omap_app, Hm. destruct (res p); reflexivity.
Qed.

Lemma completes_bind {A B} (m : M A) (k : A → M B) st ms1 ms2 :
  completes m st ms1 →
  (∀ a, res (m st) = Ok a → completes (k a) (st_of (m st)) ms2) →
  completes (bind m k) st (ms1 ++ ms2).
Proof.
  intros ([a Ha] & Hm & _) Hk. specialize (Hk a Ha). destruct Hk as (Hr & Hm' & Hb').
  unfold completes. rewrite (bind_ok _ _ _ _ Ha). cbn [res logged st_of].
  split; [assumption|]. split; [|assumption]. by rewrite omap_app, Hm, Hm'.
Qed.

Lemma quiet_completes {A} (m : M A) st :
  quiet is_milestone m → (∃ a, res (m st) = Ok a) → books_ok st → completes m st [].
Proof.
  intros Hq Hr Hb. destruct (Hq st) as (Hl & Hs & Hp).
  split; [assumption|]. split; [assumption|].
  apply (books_ok_kept st); [by rewrite Hs|assumption|assumption].
Qed.

(** The loop of [run] goes through every file, whatever their outcomes. *)
Lemma run_loop_completes total items st :
  books_ok st →
  completes (for_each items (run_one total)) st (announced total <$> items).
Proof.
  revert st. induction items as [|item items IH]; intros st Hb.
  - split; [by exists tt|]. split; [reflexivity|assumption].
  - cbn [for_each fmap list_fmap].
    apply (completes_bind _ _ _ [announced total item]).
    + by apply run_one_completes.
    + intros _ _. apply IH. by apply run_one_completes.
Qed.
Lemma quiet_summarize v : quiet is_milestone (summarize v).
Proof. unfold summarize. quiet_auto. Qed.

Lemma summarize_ok v st :
  is_Some (stats st !! v) →
  res (summarize v st) = Ok tt ∧ st_of (summarize v st) = st.
Proof.
  intros [r Hr]. unfold summarize, bind, gets, log. cbn [res st_of logged]. rewrite Hr.
  cbn [res st_of logged].
  destruct (Stats.compression_ratio r) as [q|]; [|by split].
  destruct (Stats.input_size r) as [i|]; [|by split].
  destruct (Stats.output_size r) as [o|]; [|by split].
  destruct (negb (Qeq_bool q 0)); by split.
Qed.

Lemma summary_loop_ok l st :
  (∀ v, v ∈ l → is_Some (stats st !! v)) →
  res (for_each l summarize st) = Ok tt ∧ st_of (for_each l summarize st) = st.
Proof.
  induction l as [|v l IH]; intros Hl; [by split|].
  cbn [for_each].
  destruct (summarize_ok v st) as [Hr Hs]; [apply Hl, list_elem_of_here|].
  rewrite (bind_ok _ _ _ _ Hr). cbn [res st_of]. rewrite Hs.
  apply IH. intros v' Hv'. by apply Hl, list_elem_of_further.
Qed.

(** With the books in order, [print_summary] returns normally and shows
    the summary header once. *)
Lemma print_summary_completes t st :
  books_ok st → completes (print_summary t) st [Summary].
Proof.
  intros Hb. unfold print_summary.
  apply (completes_bind _ _ _ [] [Summary]).
  { apply quiet_completes; [quiet_auto|by eexists|assumption]. }
  intros end_time _. cbv zeta. cbn [st_of now gets].
  apply (completes_bind _ _ _ [Summary] []).
  { split; [by eexists|]. split; [reflexivity|assumption]. }
  intros _ _. cbn [st_of log].
  do 5 (apply (completes_bind _ _ _ [] []);
        [apply quiet_completes; [quiet_auto|by eexists|assumption]
        |intros _ _; cbn [st_of log]]).
  apply (completes_bind _ _ _ [] []).
  { apply quiet_completes; [quiet_auto|by eexists|assumption]. }
  intros videos [= <-]. cbn [st_of gets].
  destruct (summary_loop_ok (processed_videos st) st Hb) as [Hr Hs].
  apply (completes_bind _ _ _ [] []).
  { apply quiet_completes; [|by eexists|assumption].
    apply quiet_for_each. intros; apply quiet_summarize. }
  intros _ _. rewrite Hs.
  apply quiet_completes; [quiet_auto|by eexists|assumption].
Qed.

(** *** The batch runner *)

Lemma mkdir_keeps d st d' dn :
  dirs (env st) !! d' = Some dn →
  dirs (env (st_of (mkdir d true st))) !! d' = Some dn.
Proof.
  intros Hd. unfold mkdir, bind, gets, modify, ret, raise. cbn [res st_of logged].
  destruct (dirs (env st) !! d) as [x|] eqn:Hx; cbn [res st_of logged]; [assumption|].
  destruct (base_writable (env st)); cbn -[insert]; [|assumption].
  rewrite lookup_insert_ne; [assumption|]. intros ->. congruence.
Qed.

Lemma mkdir_all_keeps ds st d' dn :
  dirs (env st) !! d' = Some dn →
  dirs (env (st_of (for_each ds (λ dir_path, mkdir dir_path true) st))) !! d' = Some dn.
Proof.
  revert st. induction ds as [|d ds IH]; intros st Hd; [assumption|].
  cbn [for_each]. unfold bind at 1.
  pose proof (mkdir_keeps d st d' dn Hd) as Hk. revert Hk.
  generalize (mkdir d true st). intros [l s [[]|e]] Hk; cbn [res st_of logged] in *.
  - by apply IH.
  - assumption.
Qed.

Lemma prepare_directories_keeps st d dn :
  dirs (env st) !! d = Some dn →
  dirs (env (st_of (prepare_directories st))) !! d = Some dn.
Proof.
  intros Hd. unfold prepare_directories.
  rewrite (bind_ok _ _ _ tt) by reflexivity. cbn [st_of logged res log].
  unfold try_except.
  pose proof (mkdir_all_keeps (snd <$> get_all_dirs) st d dn Hd) as Hk. revert Hk.
  generalize (for_each (snd <$> get_all_dirs) (λ dir_path, mkdir dir_path true) st).
  intros [l s [[]|e]] Hk; cbn [res st_of logged raise] in *; assumption.
Qed.

Lemma quiet_prepare_directories : quiet is_milestone prepare_directories.
Proof. unfold prepare_directories. quiet_auto. Qed.

Lemma input_names_dir e e' :
  dirs e' !! get_dir "input" = dirs e !! get_dir "input" → input_names e' = input_names e.
Proof. intros He. unfold input_names, glob. by rewrite He. Qed.

Lemma input_names_exists e :
  input_names e ≠ [] → is_Some (dirs e !! get_dir "input").
Proof.
  intros Hn. destruct (dirs e !! get_dir "input") as [dn|] eqn:Hd; [eauto|].
  exfalso. apply Hn. unfold input_names, glob. rewrite Hd. reflexivity.
Qed.

Lemma get_input_files_found st :
  input_names (env st) ≠ [] →
  get_input_files st
  = Out [] st (Ok (in_dir (get_dir "input") <$> sorted (input_names (env st)))).
Proof.
  intros Hn. unfold get_input_files, bind, gets. cbn [res st_of logged].
  fold (input_names (env st)).
  rewrite bool_decide_eq_false_2 by assumption. reflexivity.
Qed.

Lemma quiet_run_finally : quiet is_milestone run_finally.
Proof. unfold run_finally. quiet_auto. Qed.

Lemma run_finally_ok st : res (run_finally st) = Ok tt.
Proof.
  unfold run_finally, try_except.
  pose proof (cleanup_spec "final" st) as Hs. cbv zeta in Hs. revert Hs.
  generalize (cleanup_working_dirs "final" st).
  intros [l s [[]|e]] _; reflexivity.
Qed.

(** A computation that completes still completes, with the same
    milestones, under a handler and a quiet [finally] clause that does not
    raise. *)
Lemma completes_guarded {A} (m : M A) h fin st ms :
  completes m st ms →
  quiet is_milestone fin → (∀ s, res (fin s) = Ok tt) →
  completes (try_finally (try_except m h) fin) st ms.
Proof.
  intros ([a Ha] & Hm & Hb) Hq Hfin.
  unfold completes, try_finally. rewrite (try_except_ok _ _ _ _ Ha).
  cbn [res st_of logged]. rewrite Hfin, Ha.
  destruct (Hq (st_of (m st))) as (Hl & Hs & Hp).
  split; [eauto|]. split.
  - by rewrite omap_app, Hm, Hl, app_nil_r.
  - apply (books_ok_kept (st_of (m st))); [by rewrite Hs|assumption|assumption].
Qed.

Lemma run_try_completes t st :
  books_ok st →
  res (prepare_directories st) = Ok tt →
  input_names (env st) ≠ [] →
  let files := in_dir (get_dir "input") <$> sorted (input_names (env st)) in
  let total := Z.of_nat (length files) in
  completes (run_try t) st ((announced total <$> enumerate 1 files) ++ [Summary]).
Proof.
  intros Hb Hprep Hn. cbv zeta. unfold run_try.
  destruct (input_names_exists _ Hn) as [dn Hdn].
  pose proof (prepare_directories_keeps st _ dn Hdn) as Hkeep.
  pose proof (quiet_completes _ st quiet_prepare_directories (ex_intro _ tt Hprep) Hb)
    as Hc.
  revert Hprep Hkeep Hc. generalize prepare_directories. intros prep Hprep Hkeep Hc.
  apply (completes_bind _ _ _ [] _ Hc). intros _ _.
  destruct Hc as (_ & _ & Hb').
  assert (Hnames : input_names (env (st_of (prep st))) = input_names (env st))
    by (apply input_names_dir; congruence).
  revert Hb' Hnames. generalize (st_of (prep st)). intros st1 Hb1 Hnames.
  rewrite <- Hnames in *. clear Hnames Hkeep Hprep Hdn.
  pose proof (get_input_files_found st1 Hn) as Hg. revert Hg.
  generalize get_input_files. intros gif Hg.
  apply (completes_bind _ _ _ [] _).
  { unfold completes. rewrite Hg. cbn [res st_of logged]. eauto. }
  intros files. rewrite Hg. cbn [res st_of]. intros [= <-]. cbv zeta.
  apply (completes_bind _ _ _ [] _).
  { apply quiet_completes; [quiet_auto|by eexists|assumption]. }
  intros _ _. cbn [st_of log].
  apply completes_bind.
  { by apply run_loop_completes. }
  intros _ _. apply print_summary_completes.
  by apply run_loop_completes.
Qed.

(** From a state whose directories can be prepared and whose input
    directory holds a supported file, [run] returns normally, having
    announced every input file in sorted order and then the summary. *)
Lemma run_completes st :
  books_ok st →
  res (prepare_directories st) = Ok tt →
  input_names (env st) ≠ [] →
  completes run st
    ((announced (Z.of_nat (length (in_dir (get_dir "input")
                                     <$> sorted (input_names (env st)))))
        <$> enumerate 1 (in_dir (get_dir "input") <$> sorted (input_names (env st))))
     ++ [Summary]).
Proof.
  intros Hb Hprep Hn. unfold run.
  apply (completes_bind _ _ _ [] _).
  { apply quiet_completes; [quiet_auto|by eexists|assumption]. }
  intros t _. cbn [st_of now gets].
  apply (completes_bind _ _ _ [] _).
  { apply quiet_completes; [quiet_auto|by eexists|assumption]. }
  intros _ _. cbn [st_of log].
  apply completes_guarded;
    [by apply run_try_completes|apply quiet_run_finally|apply run_finally_ok].
Qed.

(** X1: when the directories can be prepared and input files are found,
    [run] returns normally whatever the outcomes of the jobs: every input
    file, in sorted order, is handed to [process_video], and then the
    summary is printed; a job that raises is logged as failed by its own
    iteration of the loop, which returns normally. *)
Theorem run_continues_after_failures st :
  books_ok st →
  res (prepare_directories st) = Ok tt →
  input_names (env st) ≠ [] →
  let files := in_dir (get_dir "input") <$> sorted (input_names (env st)) in
  let total := Z.of_nat (length files) in
  res (run st) = Ok tt
  ∧ omap is_milestone (logged (run st)) = (announced total <$> enumerate 1 files) ++ [Summary]
  ∧ ∀ st' i f e,
      res (process_video f i total st') = Raise e →
      run_one total (i, f) st'
      = Out (logged (process_video f i total st') ++ [failure_record f e])
            (st_of (process_video f i total st')) (Ok tt).
Proof.
  intros Hb Hprep Hn. cbv zeta.
  destruct (run_completes st Hb Hprep Hn) as ([[] Hr] & Hm & _).
  split; [assumption|]. split; [assumption|].
  intros st' i f e He. rewrite run_one_contains. cbv zeta. by rewrite He.
Qed.
End Job.

(** The theorem at work: the segmenter fails on [a.mkv]. *)
Lemma process_video_resets_workspace_witness :
  is_Some (lookup_entry Demo.a_mkv (env Demo.start))
  ∧ let o := @process_video (Demo.host Demo.SegmentationFails) Demo.a_mkv 1 1 Demo.start in
    current_file (st_of o) = None
    ∧ (resettable (env (st_of o)) = true → transient_empty (env (st_of o)) = true)
    ∧ (transient_empty (env (st_of o)) = true
       ∨ ∃ c, last (logged o) = Some (cleanup_error_record (cleanup_failure c))).
Proof.
  assert (Hin : is_Some (lookup_entry Demo.a_mkv (env Demo.start)))
    by (vm_compute; eexists; reflexivity).
  split; [exact Hin|].
  exact (@process_video_resets_workspace (Demo.host Demo.SegmentationFails)
           Demo.a_mkv 1 1 Demo.start Hin).
Defined.

(** A job whose segmentation step fails leaves the three directories
    empty when nothing prevents the reset. *)
Example segmentation_failure_leaves_workspace_empty :
  let o := @process_video (Demo.host Demo.SegmentationFails) Demo.a_mkv 1 1 Demo.start in
  res o = Raise Demo.segmentation_error
  ∧ transient_empty (env (st_of o)) = true
  ∧ current_file (st_of o) = None.
Proof. vm_compute. repeat split. Qed.

(** C1, as stated, fails: when [working] cannot be removed, the job
    returns with the stale file still in it. *)
Lemma process_video_leaves_locked_dir :
  let o := @process_video (Demo.host Demo.NoFault) Demo.a_mkv 1 1 Demo.locked_start in
  ¬ (current_file (st_of o) = None ∧ transient_empty (env (st_of o)) = true).
Proof. vm_compute. intros [_ Hempty]. discriminate Hempty. Qed.

(** The theorem at work: the segmenter fails and leaves [working]
    impossible to remove, so the reset of the [finally] clause fails. *)
Lemma cleanup_failure_keeps_job_error_witness :
  let h := Demo.host Demo.SegmentationFailsLocked in
  let b := @process_video_begin Demo.a_mkv 1 1 Demo.start in
  let j := try_except (@process_video_try h Demo.a_mkv "a")
             (@process_video_except Demo.a_mkv "a") (st_of b) in
  let c := cleanup_failure (OSError "Permission denied") in
  let o := @process_video h Demo.a_mkv 1 1 Demo.start in
  res b = Ok "a"
  ∧ res (@process_video_try h Demo.a_mkv "a" (st_of b)) = Raise Demo.segmentation_error
  ∧ res (cleanup_working_dirs "a" (with_current_file None (st_of j))) = Raise c
  ∧ res o = Raise Demo.segmentation_error
  ∧ last (logged o) = Some (cleanup_error_record c).
Proof.
  cbv zeta.
  assert (H1 : res (@process_video_begin Demo.a_mkv 1 1 Demo.start) = Ok "a")
    by (vm_compute; reflexivity).
  assert (H2 : res (@process_video_try (Demo.host Demo.SegmentationFailsLocked) Demo.a_mkv "a"
                      (st_of (@process_video_begin Demo.a_mkv 1 1 Demo.start)))
               = Raise Demo.segmentation_error)
    by (vm_compute; reflexivity).
  assert (H3 : res (cleanup_working_dirs "a" (with_current_file None
                 (st_of (try_except
                    (@process_video_try (Demo.host Demo.SegmentationFailsLocked) Demo.a_mkv "a")
                    (@process_video_except Demo.a_mkv "a")
                    (st_of (@process_video_begin Demo.a_mkv 1 1 Demo.start))))))
               = Raise (cleanup_failure (OSError "Permission denied")))
    by (vm_compute; reflexivity).
  split; [exact H1|]. split; [exact H2|]. split; [exact H3|].
  exact (@cleanup_failure_keeps_job_error (Demo.host Demo.SegmentationFailsLocked)
           Demo.a_mkv 1 1 Demo.start "a" _ _ H1 H2 H3).
Defined.

(** The theorem at work on a batch of two files whose first job fails. *)
Lemma run_continues_after_failures_witness :
  let h := Demo.host Demo.NoFault in
  let files := [mkPath "input" "0.mkv"; Demo.a_mkv] in
  books_ok Demo.batch
  ∧ res (prepare_directories Demo.batch) = Ok tt
  ∧ input_names (env Demo.batch) ≠ []
  ∧ res (@run h Demo.batch) = Ok tt
  ∧ omap is_milestone (logged (@run h Demo.batch))
    = (announced 2 <$> enumerate 1 files) ++ [Summary].
Proof.
  cbv zeta.
  assert (H1 : books_ok Demo.batch) by (intros v Hv; by apply elem_of_nil in Hv).
  assert (H2 : res (prepare_directories Demo.batch) = Ok tt) by (vm_compute; reflexivity).
  assert (H3 : input_names (env Demo.batch) ≠ []) by (vm_compute; discriminate).
  split; [exact H1|]. split; [exact H2|]. split; [exact H3|].
  destruct (@run_continues_after_failures (Demo.host Demo.NoFault) Demo.batch H1 H2 H3)
    as (Hr & Hm & _).
  split; [exact Hr|]. rewrite Hm. vm_compute. reflexivity.
Defined.

(** In that batch the job of [0.mkv] fails and is logged as failed, the
    job of [a.mkv] then completes, and [run] returns normally. *)
Example batch_with_a_failing_file :
  let o := @run (Demo.host Demo.NoFault) Demo.batch in
  res o = Ok tt
  ∧ (∃ e, failure_record (mkPath "input" "0.mkv") e ∈ logged o)
  ∧ Rec Ctx INFO [T "Completed processing: "; T (str_path Demo.a_mkv)] ∈ logged o
  ∧ processed_videos (st_of o) = ["0"; "a"].
Proof.
  cbv zeta. split; [vm_compute; reflexivity|]. split; [|split].
  - eexists. apply list_elem_of_In. vm_compute. tauto.
  - apply list_elem_of_In. vm_compute. tauto.
  - vm_compute. reflexivity.
Qed.

(** ** The validator *)

Section Validator.
Context `{Host}.





Lemma check_tool_spec tool st :
  bind (which tool)
    (λ found, if negb found then raise (missing_tool tool) else ret tt) st
  = Out [] st (if bool_decide (tool ∈ on_path (env st)) then Ok tt
               else Raise (missing_tool tool)).
Proof.
  unfold bind, which, gets. cbn [res st_of logged].
  by destruct (bool_decide (tool ∈ on_path (env st))).
Qed.

Lemma check_ffmpeg_installed_cases st :
  (Forall (λ tool, tool ∈ on_path (env st)) required_tools
   ∧ check_ffmpeg_installed st = Out [] st (Ok tt))
  ∨ (∃ tool, tool ∈ required_tools ∧ (tool ∉ on_path (env st))
             ∧ check_ffmpeg_installed st = Out [] st (Raise (missing_tool tool))).
Proof.
  unfold check_ffmpeg_installed. induction required_tools as [|t ts IH].
  - left. split; [constructor|reflexivity].
  - cbn [for_each]. fold (missing_tool t).
    pose proof (check_tool_spec t st) as Ht.
    destruct (decide (t ∈ on_path (env st))) as [Hin|Hout].
    + rewrite (bool_decide_eq_true_2 _ Hin) in Ht.
      rewrite (bind_ok _ _ _ tt) by (rewrite Ht; reflexivity).
      rewrite Ht. cbn [res st_of logged app].
      destruct IH as [[Hall Heq]|(t' & Ht' & Hm & Heq)].
      * left. split; [by constructor|]. by rewrite Heq.
      * right. exists t'. split; [by apply list_elem_of_further|]. split; [assumption|].
        by rewrite Heq.
    + rewrite (bool_decide_eq_false_2 _ Hout) in Ht.
      rewrite (bind_raise _ _ _ (missing_tool t)) by (rewrite Ht; reflexivity).
      rewrite Ht. cbn [res st_of logged app].
      right. exists t. split; [apply list_elem_of_here|]. by split.
Qed.
End Validator.


(** ** The audio stage *)

Section Audio.
Context `{Host}.

Lemma run_command_announced cmd desc check show st :
  ∃ rest, logged (run_command cmd desc check show st)
          = Rec Root INFO [T "Running "; T desc; T ": "; T (String.concat " " cmd)] :: rest.
Proof.
  unfold run_command.
  destruct (logged_bind_prefix
              (log Root INFO [T "Running "; T desc; T ": "; T (String.concat " " cmd)])
              (λ _, '(return_code, stdout, stderr) <- spawn cmd;;
                    (if show
                     then for_each (read_lines stdout) (λ line, log Root INFO [T line]);;
                          for_each (read_lines stderr) (λ line, log Root WARNING [T line])
                     else ret tt);;
                    if check && bool_decide (return_code ≠ 0)
                    then raise (CalledProcessError return_code cmd stdout stderr)
                    else ret (return_code, stdout, stderr))%m st) as [rest Hr].
  exists rest. exact Hr.
Qed.

Lemma encode_audio_track_announced input i channels working_dir st :
  ∃ rest,
    logged (encode_audio_track input i channels working_dir st)
    = [Rec Root INFO [T "Encoding audio track "; T (pretty i); T " with ";
                      T (pretty channels); T " channels at ";
                      T (pretty (Config.get_audio_bitrate channels)); T "k"];
       Rec Root INFO [T "Running "; T ("Encoding audio track " +:+ pretty i); T ": ";
                      T (String.concat " "
                           (audio_cmd input i (Config.get_audio_bitrate channels)
                              (audio_file working_dir i)))]]
      ++ rest.
Proof.
  unfold encode_audio_track. cbv zeta.
  rewrite (bind_ok _ _ _ tt) by reflexivity. cbn [logged st_of res log].
  match goal with |- context [try_except ?m ?h st] =>
    destruct (logged_try_except_prefix m h st) as [r1 Hr1];
    destruct (logged_bind_prefix
                (run_command (audio_cmd input i (Config.get_audio_bitrate channels)
                                (audio_file working_dir i))
                   ("Encoding audio track " +:+ pretty i) true true)
                (λ _, ret (audio_file working_dir i)) st) as [r2 Hr2];
    revert Hr1 Hr2; generalize (try_except m h st)
  end.
  intros o Hr1 Hr2. rewrite Hr1, Hr2.
  destruct (run_command_announced
              (audio_cmd input i (Config.get_audio_bitrate channels)
                 (audio_file working_dir i))
              ("Encoding audio track " +:+ pretty i) true true st) as [r3 Hr3].
  rewrite Hr3. exists (r3 ++ r2 ++ r1). cbn [app]. by rewrite <- !app_assoc.
Qed.

(** X4: a stream descriptor without a [channels] field is encoded
    exactly as the same descriptor with [channels] set to 2: the track is
    announced with 2 channels at 128k, the stereo value of the table, and
    the encoder is run with [-b:a 128k]. *)
Theorem missing_channels_encoded_as_stereo input working_dir acc i (m : gmap string json) st :
  m !! "channels" = None →
  encode_stream input working_dir acc i (JDict m) st
  = encode_stream input working_dir acc i (JDict (<["channels" := JInt 2]> m)) st
  ∧ Config.get_audio_bitrate 2 = 128
  ∧ (∃ rest,
       logged (encode_stream input working_dir acc i (JDict m) st)
       = [Rec Root INFO [T "Processing audio track "; T (pretty i); T " (";
                         J (default (JStr "unknown") (m !! "codec_name")); T " - ";
                         T "2"; T " channels)"];
          Rec Root INFO [T "Encoding audio track "; T (pretty i); T " with "; T "2";
                         T " channels at "; T "128"; T "k"];
          Rec Root INFO [T "Running "; T ("Encoding audio track " +:+ pretty i); T ": ";
                         T (String.concat " "
                              (audio_cmd input i 128 (audio_file working_dir i)))]]
         ++ rest)
  ∧ ∃ before after,
      audio_cmd input i 128 (audio_file working_dir i) = before ++ ["-b:a"; "128k"] ++ after.
Proof.
  intros Hm.
  assert (Hb : Config.get_audio_bitrate 2 = 128) by (vm_compute; reflexivity).
  assert (H2 : pretty (2 : Z) = "2") by (vm_compute; reflexivity).
  assert (H128 : pretty (128 : Z) = "128") by (vm_compute; reflexivity).
  split; [|split; [exact Hb|split]].
  - unfold encode_stream, py_get.
    rewrite lookup_insert_eq, lookup_insert_ne by discriminate. rewrite Hm. reflexivity.
  - unfold encode_stream, py_get, py_int. rewrite Hm. cbn [default].
    rewrite !bind_ret, logged_bind_log.
    destruct (encode_audio_track_announced input i 2 working_dir st) as [r1 Hr1].
    match goal with |- context [bind ?e ?k st] =>
      destruct (logged_bind_prefix e k st) as [r2 Hr2]; revert Hr2;
      generalize (bind e k st)
    end.
    intros o Hr2. rewrite Hr2, Hr1. exists (r1 ++ r2). cbn [app].
    rewrite Hb, H2, H128. by rewrite <- ?app_assoc.
  - exists (take 20 (audio_cmd input i 128 (audio_file working_dir i))),
           (drop 22 (audio_cmd input i 128 (audio_file working_dir i))).
    unfold audio_cmd. rewrite H128. reflexivity.
Qed.
End Audio.

(** The theorem at work: the first stream of [a.mkv] has no [channels]. *)
Lemma missing_channels_encoded_as_stereo_witness :
  let h := Demo.host Demo.NoFault in
  let m : gmap string json := <["codec_name" := JStr "aac"]> ∅ in
  m !! "channels" = None
  ∧ @encode_stream h Demo.a_mkv "working" [] 0 (JDict m) Demo.start
    = @encode_stream h Demo.a_mkv "working" [] 0 (JDict (<["channels" := JInt 2]> m))
        Demo.start
  ∧ Config.get_audio_bitrate 2 = 128.
Proof.
  cbv zeta.
  assert (Hm : (<["codec_name" := JStr "aac"]> ∅ : gmap string json) !! "channels" = None)
    by (vm_compute; reflexivity).
  split; [exact Hm|].
  destruct (@missing_channels_encoded_as_stereo (Demo.host Demo.NoFault) Demo.a_mkv
              "working" [] 0 _ Demo.start Hm) as (He & Hb & _).
  split; [exact He|exact Hb].
Defined.

(** ** The video stage *)

Section LogOf.
Context {R : Type} (f : record → option R).

Lemma omap_bind_quiet {A B} (m : M A) (k : A → M B) st :
  (∀ a, quiet f (k a)) → omap f (logged (bind m k st)) = omap f (logged (m st)).
Proof.
  intros Hk. unfold bind. destruct (res (m st)) as [a|e]; cbn [logged]; [|reflexivity].
  destruct (Hk a (st_of (m st))) as [Hl _]. by rewrite omap_app, Hl, app_nil_r.
Qed.

Lemma omap_try_except_quiet {A} (m : M A) h st :
  (∀ e, quiet f (h e)) → omap f (logged (try_except m h st)) = omap f (logged (m st)).
Proof.
  intros Hh. unfold try_except. destruct (res (m st)) as [a|e]; cbn [logged]; [reflexivity|].
  destruct (Hh e (st_of (m st))) as [Hl _]. by rewrite omap_app, Hl, app_nil_r.
Qed.

(** A loop over numbered names whose body either fails before showing
    anything, or shows the path of its name once: the log shows the paths
    of a prefix of the names, in order, and all of them when the loop
    returns. *)
Lemma fold_shows_prefix {Acc} (body : Acc → Z * string → M Acc) (g : string → R) :
  (∀ acc i n st,
     (omap f (logged (body acc (i, n) st)) = [] ∧ ∃ e, res (body acc (i, n) st) = Raise e)
     ∨ omap f (logged (body acc (i, n) st)) = [g n]) →
  ∀ names i acc st,
    ∃ k, omap f (logged (for_fold (enumerate i names) acc body st)) = take k (g <$> names)
         ∧ (∀ a, res (for_fold (enumerate i names) acc body st) = Ok a → k = length names).
Proof.
  intros Hbody names. induction names as [|n names IH]; intros i acc st.
  - exists 0%nat. split; [reflexivity|]. reflexivity.
  - cbn [enumerate for_fold]. unfold bind.
    specialize (Hbody acc i n st). revert Hbody.
    generalize (body acc (i, n) st). intros [l s [acc'|e]]; cbn [res logged st_of].
    + intros [[_ [e He]]|Hl]; [discriminate|].
      destruct (IH (i + 1) acc' s) as (k & Hk & Hall). exists (S k).
      split; [by rewrite omap_app, Hl, Hk|]. intros a Ha. by rewrite (Hall a Ha).
    + intros [[Hl _]|Hl].
      * exists 0%nat. split; [by rewrite Hl|]. discriminate.
      * exists 1%nat. split; [rewrite Hl; cbn; by rewrite take_0|]. discriminate.
Qed.
End LogOf.

Section Video.
Context `{Host}.

Lemma quiet_input_run_command cmd desc check show :
  quiet is_input (run_command cmd desc check show).
Proof. unfold run_command. quiet_auto. Qed.

Lemma quiet_input_validate_video_file file step :
  quiet is_input (validate_video_file file step).
Proof. unfold validate_video_file. quiet_auto. Qed.

Lemma quiet_input_validate_segments d n : quiet is_input (validate_segments d n).
Proof.
  unfold validate_segments. quiet_auto; apply quiet_input_validate_video_file.
Qed.

(** Each call of [encode_segment] shows its segment in the log, once,
    whatever happens to the encoder. *)
Lemma encode_segment_shows_input segment output_dir i n inp st :
  omap is_input (logged (encode_segment segment output_dir i n inp st))
  = [str_path segment].
Proof.
  unfold encode_segment. cbv zeta.
  do 3 (rewrite (bind_ok (log _ _ _) _ _ tt) by reflexivity;
        cbn [logged st_of res log]).
  match goal with |- context [logged (bind ?m ?k st)] =>
    assert (Hq : quiet is_input (bind m k))
      by (unfold rule; quiet_auto;
          first [apply quiet_input_run_command | apply quiet_input_validate_video_file]);
    destruct (Hq st) as [Hl _]; revert Hl; generalize (bind m k st)
  end.
  intros o Hl. unfold rule. rewrite !omap_app, Hl. reflexivity.
Qed.
Lemma stat_size_cases p st :
  (∃ z, stat_size p st = Out [] st (Ok z))
  ∨ stat_size p st = Out [] st (Raise (OSError "No such file or directory")).
Proof.
  unfold stat_size, bind, gets. cbn [res st_of logged].
  destruct (lookup_entry p (env st)) as [f|]; cbn [res st_of logged ret raise app]; eauto.
Qed.

Lemma sorted_spec (l : list string) : StronglySorted name_le (sorted l) ∧ sorted l ≡ₚ l.
Proof.
  split.
  - apply StronglySorted_merge_sort; apply _.
  - apply merge_sort_Permutation.
Qed.

(** X5: [encode_segments] hands the segments to [encode_segment] in
    ascending order of their names, whatever order the directory lists them
    in: the log shows the paths of a prefix of the sorted names, in order,
    and of all of them when [encode_segments] returns. *)
Theorem encode_segments_in_sorted_order segments_dir encoded_dir input_file st :
  let names := sorted (glob segments_dir "mkv" (env st)) in
  StronglySorted name_le names
  ∧ names ≡ₚ glob segments_dir "mkv" (env st)
  ∧ ∃ k, omap is_input (logged (encode_segments segments_dir encoded_dir input_file st))
         = take k ((λ n, str_path (in_dir segments_dir n)) <$> names)
         ∧ (res (encode_segments segments_dir encoded_dir input_file st) = Ok tt →
            k = length names).
Proof.
  cbv zeta. destruct (sorted_spec (glob segments_dir "mkv" (env st))) as [Hs Hp].
  split; [assumption|]. split; [assumption|].
  unfold encode_segments.
  rewrite (bind_ok _ _ _ (sorted (glob segments_dir "mkv" (env st)))) by reflexivity.
  cbn [logged st_of res gets app]. cbv zeta.
  generalize (sorted (glob segments_dir "mkv" (env st))). intros names.
  do 3 (rewrite (bind_ok (log _ _ _) _ _ tt) by reflexivity;
        cbn [logged st_of res log]).
  rewrite (bind_ok now _ _ (clock (env st))) by reflexivity.
  cbn [logged st_of res now gets app omap list_omap is_input].
  match goal with |- context [bind (for_fold ?xs ?a0 ?body) ?k st] =>
    assert (Hk : ∀ a, quiet is_input (k a))
      by (intros [tin tout]; quiet_auto; apply quiet_input_validate_segments);
    assert (Hbody : ∀ a i n s,
      (omap is_input (logged (body a (i, n) s)) = []
       ∧ ∃ e, res (body a (i, n) s) = Raise e)
      ∨ omap is_input (logged (body a (i, n) s)) = [str_path (in_dir segments_dir n)]);
    [|destruct (fold_shows_prefix is_input body _ Hbody names 1 a0 st) as (n & Hn & Hall);
      rewrite (omap_bind_quiet is_input _ k st Hk);
      exists n; split; [exact Hn|];
      intros Hr; apply res_bind_ok in Hr as (a & Ha & _); exact (Hall a Ha)]
  end.
  clear. intros [tin tout] i n st. cbv beta iota zeta.
  destruct (stat_size_cases (in_dir segments_dir n) st) as [[z Hz]|Hz].
  - right. rewrite (bind_ok _ _ _ z) by (rewrite Hz; reflexivity).
    rewrite Hz. cbn [logged st_of res app].
    rewrite omap_try_except_quiet by (intros e; quiet_auto).
    rewrite omap_bind_quiet by (intros; quiet_auto).
    apply encode_segment_shows_input.
  - left. rewrite (bind_raise _ _ _ (OSError "No such file or directory"))
      by (rewrite Hz; reflexivity).
    rewrite Hz. cbn [logged st_of res]. split; [reflexivity|eauto].
Qed.
Lemma assoc_remove_snoc {A} k (v : A) l : assoc k (remove_assoc k l ++ [(k, v)]) = Some v.
Proof.
  induction l as [|[k' v'] l IH]; cbn.
  - by rewrite String.eqb_refl.
  - destruct (String.eqb k k') eqn:Hk; [assumption|]. cbn. by rewrite Hk.
Qed.

(** Writing a file: it fails and changes nothing, or the file then holds
    the text. *)
Lemma write_text_spec p content st :
  (∃ e, write_text p content st = Out [] st (Raise e))
  ∨ (∃ st', write_text p content st = Out [] st' (Ok tt)
            ∧ lookup_entry p (env st')
              = Some (FEntry true (Z.of_nat (String.length content)) content)).
Proof.
  unfold write_text, bind, gets, modify, raise. cbn [res st_of logged].
  destruct (dirs (env st) !! parent p) as [dn|] eqn:Hd; cbn [res st_of logged]; [|eauto].
  assert (Hw : lookup_entry p (env (set_env (set_dirs
            <[parent p := DNode (remove_assoc (name p) (entries dn)
                                   ++ [(name p, FEntry true
                                                  (Z.of_nat (String.length content)) content)])
                                (removable dn)]>) st))
          = Some (FEntry true (Z.of_nat (String.length content)) content)).
  { unfold lookup_entry. cbn -[insert]. rewrite lookup_insert_eq. cbn.
    apply assoc_remove_snoc. }
  destruct (assoc (name p) (entries dn)) as [[[] ? ?]|]; cbn [res st_of logged]; eauto.
Qed.

(** X6: when [concatenate_segments] has written its concat file, the file
    lists the encoded segments in ascending order of their names, one line
    [file '<path>'] each, with the single quotes of the path escaped. *)
Theorem write_concat_file_lists_sorted encoded_dir st p :
  res (write_concat_file encoded_dir st) = Ok p →
  let names := sorted (glob encoded_dir "mkv" (env st)) in
  p = in_dir encoded_dir "concat.txt"
  ∧ StronglySorted name_le names
  ∧ names ≡ₚ glob encoded_dir "mkv" (env st)
  ∧ ∃ f, lookup_entry p (env (st_of (write_concat_file encoded_dir st))) = Some f
         ∧ is_reg f = true
         ∧ text f = String.concat EmptyString
                      ((λ n, "file '" +:+ escape_quotes (str_path (in_dir encoded_dir n))
                               +:+ "'" +:+ nl) <$> names).
Proof.
  cbv zeta. destruct (sorted_spec (glob encoded_dir "mkv" (env st))) as [Hs Hp].
  unfold write_concat_file. cbv zeta.
  rewrite (bind_ok _ _ _ (sorted (glob encoded_dir "mkv" (env st)))) by reflexivity.
  cbn [logged st_of res gets app].
  rewrite (bind_ok (log _ _ _) _ _ tt) by reflexivity. cbn [logged st_of res log].
  unfold manifest, manifest_line. rewrite <- list_fmap_compose. unfold compose.
  match goal with |- context [bind (write_text ?q ?c) _ st] =>
    destruct (write_text_spec q c st) as [[e He]|(st' & He & Hl)]
  end.
  - rewrite (bind_raise _ _ _ e) by (rewrite He; reflexivity). discriminate.
  - rewrite (bind_ok _ _ _ tt) by (rewrite He; reflexivity). rewrite He.
    cbn [logged st_of res ret]. intros [= <-].
    split; [reflexivity|]. split; [assumption|]. split; [assumption|].
    eexists. split; [exact Hl|]. split; reflexivity.
Qed.

Lemma for_each_log lg l (g : string → list frag) xs st :
  for_each xs (λ x, log lg l (g x)) st = Out ((λ x, Rec lg l (g x)) <$> xs) st (Ok tt).
Proof.
  induction xs as [|x xs IH]; [reflexivity|].
  cbn [for_each]. rewrite (bind_ok _ _ _ tt) by reflexivity.
  cbn [logged st_of res log]. rewrite IH. reflexivity.
Qed.

Lemma spawn_started prog args st e' r :
  prog ∈ on_path (env st) →
  exec (prog :: args) (env st) = (e', r) →
  spawn (prog :: args) st = Out [] (set_env (λ _, e') st) (Ok r).
Proof.
  intros Hin Hex. unfold spawn.
  rewrite (bind_ok _ _ _ (env st)) by reflexivity. cbn [logged st_of res gets app].
  rewrite (bool_decide_eq_true_2 _ Hin), Hex.
  rewrite (bind_ok _ _ _ tt) by reflexivity. reflexivity.
Qed.

Lemma spawn_not_found prog args st :
  prog ∉ on_path (env st) →
  spawn (prog :: args) st = Out [] st (Raise (not_found prog)).
Proof.
  intros Hout. unfold spawn.
  rewrite (bind_ok _ _ _ (env st)) by reflexivity. cbn [logged st_of res gets app].
  rewrite (bool_decide_eq_false_2 _ Hout). reflexivity.
Qed.

(** [run_command] on a program that is on [PATH]. *)
Lemma run_command_started prog args desc check show st e' rc out err :
  prog ∈ on_path (env st) →
  exec (prog :: args) (env st) = (e', (rc, out, err)) →
  run_command (prog :: args) desc check show st
  = Out (running_record desc (prog :: args) :: streamed show out err)
        (set_env (λ _, e') st)
        (if check && bool_decide (rc ≠ 0)
         then Raise (CalledProcessError rc (prog :: args) out err)
         else Ok (rc, out, err)).
Proof.
  intros Hin Hex. unfold run_command.
  rewrite (bind_ok _ _ _ tt) by reflexivity. cbn [logged st_of res log].
  rewrite (bind_ok _ _ _ (rc, out, err))
    by (rewrite (spawn_started _ _ _ _ _ Hin Hex); reflexivity).
  rewrite (spawn_started _ _ _ _ _ Hin Hex). cbn [logged st_of res app].
  generalize (set_env (λ _, e') st). intros st1.
  assert (Hs : (if show
                then bind (for_each (read_lines out) (λ line, log Root INFO [T line]))
                       (λ _, for_each (read_lines err) (λ line, log Root WARNING [T line]))
                else ret tt) st1
               = Out (streamed show out err) st1 (Ok tt)).
  { unfold streamed. destruct show; [|reflexivity].
    rewrite (bind_ok _ _ _ tt) by (rewrite for_each_log; reflexivity).
    rewrite !for_each_log. reflexivity. }
  rewrite (bind_ok _ _ _ tt) by (rewrite Hs; reflexivity). rewrite Hs.
  cbn [logged st_of res]. unfold running_record.
  destruct (check && bool_decide (rc ≠ 0)); cbn [logged st_of res raise ret app];
    by rewrite app_nil_r.
Qed.

(** [run_command] on a program that is not on [PATH]. *)
Lemma run_command_unstarted prog args desc check show st :
  prog ∉ on_path (env st) →
  run_command (prog :: args) desc check show st
  = Out [running_record desc (prog :: args)] st (Raise (not_found prog)).
Proof.
  intros Hout. unfold run_command.
  rewrite (bind_ok _ _ _ tt) by reflexivity. cbn [logged st_of res log].
  rewrite (bind_raise _ _ _ (not_found prog))
    by (rewrite (spawn_not_found _ _ _ Hout); reflexivity).
  rewrite (spawn_not_found _ _ _ Hout). reflexivity.
Qed.

(** X7: when mediainfo can be started, [detect_dolby_vision] never
    raises: the flag is set from the output of a probe that exits with
    status zero, and a probe that exits with another status is logged as
    two warnings and leaves the flag false. *)
Theorem detect_dolby_vision_downgrades_exit_failure file st e' rc out err :
  "mediainfo" ∈ on_path (env st) →
  exec ["mediainfo"; "--Output=JSON"; str_path file] (env st) = (e', (rc, out, err)) →
  let o := detect_dolby_vision file st in
  res o = Ok tt
  ∧ env (st_of o) = e'
  ∧ is_dolby_vision (st_of o)
    = (if decide (rc = 0) then contains "Dolby Vision" out else false)
  ∧ (rc ≠ 0 → logged o = probe_failure_log file err).
Proof.
  intros Hin Hexec. cbv zeta.
  pose proof (run_command_started "mediainfo" ["--Output=JSON"; str_path file]
                "Mediainfo detection" true false st e' rc out err Hin Hexec) as Hrun.
  unfold detect_dolby_vision. cbv zeta.
  rewrite (bind_ok _ _ _ tt) by reflexivity. cbn [logged st_of res log].
  revert Hrun.
  generalize (run_command ["mediainfo"; "--Output=JSON"; str_path file]
                "Mediainfo detection" true false).
  intros rcmd Hrun. cbn [andb] in Hrun.
  destruct (decide (rc = 0)) as [->|Hrc].
  - rewrite bool_decide_eq_false_2 in Hrun by (intros Hx; by apply Hx).
    unfold try_except, bind. rewrite Hrun.
    cbn [res st_of logged modify].
    destruct (contains "Dolby Vision" out); cbn [res st_of logged log];
      (split; [reflexivity|]; split; [reflexivity|]; split; [reflexivity|];
       intros Hx; by destruct Hx).
  - rewrite (bool_decide_eq_true_2 _ Hrc) in Hrun.
    unfold try_except, bind. rewrite Hrun. cbn [res st_of logged log modify].
    repeat split.
Qed.

(** X8: when mediainfo is not on [PATH], the probe cannot be started and
    [detect_dolby_vision] does not catch that: it raises the [OSError],
    having changed nothing. *)
Theorem detect_dolby_vision_needs_mediainfo file st :
  "mediainfo" ∉ on_path (env st) →
  detect_dolby_vision file st
  = Out (take 2 (probe_failure_log file EmptyString)) st (Raise (not_found "mediainfo")).
Proof.
  intros Hout.
  pose proof (run_command_unstarted "mediainfo" ["--Output=JSON"; str_path file]
                "Mediainfo detection" true false st Hout) as Hrun.
  unfold detect_dolby_vision. cbv zeta.
  rewrite (bind_ok _ _ _ tt) by reflexivity. cbn [logged st_of res log].
  revert Hrun.
  generalize (run_command ["mediainfo"; "--Output=JSON"; str_path file]
                "Mediainfo detection" true false).
  intros rcmd Hrun. unfold try_except, bind. rewrite Hrun. reflexivity.
Qed.
End Video.

Lemma write_concat_file_lists_sorted_witness :
  res (write_concat_file "encoded_segments" Demo.encoded)
  = Ok (in_dir "encoded_segments" "concat.txt")
  ∧ glob "encoded_segments" "mkv" (env Demo.encoded) = ["0001.mkv"; "0000.mkv"]
  ∧ ∃ f, lookup_entry (in_dir "encoded_segments" "concat.txt")
           (env (st_of (write_concat_file "encoded_segments" Demo.encoded))) = Some f
         ∧ text f = "file '/app/videos/encoded_segments/0000.mkv'" +:+ nl
                    +:+ "file '/app/videos/encoded_segments/0001.mkv'" +:+ nl.
Proof.
  assert (Hr : res (write_concat_file "encoded_segments" Demo.encoded)
               = Ok (in_dir "encoded_segments" "concat.txt")) by (vm_compute; reflexivity).
  split; [exact Hr|]. split; [vm_compute; reflexivity|].
  destruct (write_concat_file_lists_sorted "encoded_segments" Demo.encoded _ Hr)
    as (_ & _ & _ & f & Hf & _ & Ht).
  exists f. split; [exact Hf|]. rewrite Ht. vm_compute. reflexivity.
Defined.

Lemma detect_dolby_vision_downgrades_exit_failure_witness :
  let h := Demo.host Demo.ProbeFails in
  let o := @detect_dolby_vision h Demo.a_mkv Demo.start in
  "mediainfo" ∈ on_path (env Demo.start)
  ∧ res o = Ok tt
  ∧ is_dolby_vision (st_of o) = false
  ∧ logged o = probe_failure_log Demo.a_mkv "cannot open".
Proof.
  cbv zeta.
  assert (Hin : "mediainfo" ∈ on_path (env Demo.start))
    by (apply list_elem_of_In; vm_compute; tauto).
  assert (Hex : @exec (Demo.host Demo.ProbeFails)
                  ["mediainfo"; "--Output=JSON"; str_path Demo.a_mkv] (env Demo.start)
                = (env Demo.start, (1, EmptyString, "cannot open"))) by reflexivity.
  destruct (@detect_dolby_vision_downgrades_exit_failure (Demo.host Demo.ProbeFails)
              Demo.a_mkv Demo.start _ _ _ _ Hin Hex) as (Hr & _ & Hd & Hl).
  split; [exact Hin|]. split; [exact Hr|]. split; [exact Hd|]. apply Hl. discriminate.
Defined.

Lemma detect_dolby_vision_needs_mediainfo_witness :
  ("mediainfo" ∉ on_path (env Demo.no_mediainfo))
  ∧ res (@detect_dolby_vision (Demo.host Demo.NoFault) Demo.a_mkv Demo.no_mediainfo)
    = Raise (not_found "mediainfo").
Proof.
  assert (Hout : "mediainfo" ∉ on_path (env Demo.no_mediainfo)).
  { intros Hin. apply list_elem_of_In in Hin. vm_compute in Hin.
    repeat (destruct Hin as [Hin|Hin]; [discriminate Hin|]). exact Hin. }
  split; [exact Hout|].
  by rewrite (@detect_dolby_vision_needs_mediainfo (Demo.host Demo.NoFault) _ _ Hout).
Defined.

(** * Further properties of the code *)

(** ** Running programs *)

Section Programs.
Context `{Host}.

Lemma stat_size_found p st f :
  lookup_entry p (env st) = Some f → stat_size p st = Out [] st (Ok (st_size f)).
Proof. intros Hl. unfold stat_size. by rewrite bind_gets, Hl. Qed.

Lemma stat_size_missing p st :
  lookup_entry p (env st) = None →
  stat_size p st = Out [] st (Raise (OSError "No such file or directory")).
Proof. intros Hl. unfold stat_size. by rewrite bind_gets, Hl. Qed.

Lemma subprocess_run_started prog args st e' rc out err :
  prog ∈ on_path (env st) →
  exec (prog :: args) (env st) = (e', (rc, out, err)) →
  subprocess_run (prog :: args) st
  = Out [] (set_env (λ _, e') st)
        (if bool_decide (rc ≠ 0) then Raise (CalledProcessError rc (prog :: args) out err)
         else Ok (out, err)).
Proof.
  intros Hin Hex. unfold subprocess_run.
  rewrite (bind_out _ _ _ _ _ _ (spawn_started _ _ _ _ _ Hin Hex)).
  by destruct (bool_decide (rc ≠ 0)).
Qed.

Lemma subprocess_run_unstarted prog args st :
  prog ∉ on_path (env st) →
  subprocess_run (prog :: args) st = Out [] st (Raise (not_found prog)).
Proof.
  intros Hout. unfold subprocess_run.
  by rewrite (bind_out_raise _ _ _ _ _ _ (spawn_not_found _ _ _ Hout)).
Qed.

(** X9: [run_command] logs the command first.  A program that is not on
    [PATH] cannot be started: the [OSError] is raised and the outside world
    is untouched.  A program that is on [PATH] acts on the outside world,
    its output is logged when asked for, and [CalledProcessError] is raised
    exactly when [check] is set and the exit status is not zero; otherwise
    the status and both streams are returned. *)
Theorem run_command_spec prog args desc check show st :
  let cmd := prog :: args in
  let o := run_command cmd desc check show st in
  (prog ∉ on_path (env st) →
   o = Out [running_record desc cmd] st (Raise (not_found prog)))
  ∧ (prog ∈ on_path (env st) →
     ∀ e' rc out err,
       exec cmd (env st) = (e', (rc, out, err)) →
       o = Out (running_record desc cmd :: streamed show out err)
               (set_env (λ _, e') st)
               (if check && bool_decide (rc ≠ 0)
                then Raise (CalledProcessError rc cmd out err)
                else Ok (rc, out, err))).
Proof.
  cbv zeta. split.
  - apply run_command_unstarted.
  - intros Hin e' rc out err Hex. by apply run_command_started.
Qed.

(** X3: [check_ffmpeg_installed] logs nothing and changes nothing; it
    returns normally exactly when ffmpeg, ffprobe and mediainfo are all on
    [PATH], and otherwise raises the [ValidationError] that names a missing
    one. *)
Theorem check_ffmpeg_installed_spec st :
  let o := check_ffmpeg_installed st in
  logged o = [] ∧ st_of o = st
  ∧ (res o = Ok tt ↔ ∀ tool, tool ∈ required_tools → tool ∈ on_path (env st))
  ∧ ∀ e, res o = Raise e →
         ∃ tool, tool ∈ required_tools ∧ (tool ∉ on_path (env st)) ∧ e = missing_tool tool.
Proof.
  cbv zeta.
  destruct (check_ffmpeg_installed_cases st) as [[Hall ->]|(tool & Ht & Hm & ->)];
    cbn [logged st_of res].
  - split; [reflexivity|]. split; [reflexivity|]. split.
    + split; [|reflexivity]. intros _ tool Ht.
      by apply (proj1 (Forall_forall _ _) Hall).
    + discriminate.
  - split; [reflexivity|]. split; [reflexivity|]. split.
    + split; [discriminate|]. intros Hall. destruct Hm. by apply Hall.
    + intros e [= <-]. by exists tool.
Qed.

(** X10: the decision table of [validate_video_file].  A path that is not
    a regular file is rejected as not found, a file below
    [MIN_FILE_SIZE] bytes as too small, both without running ffprobe and
    without touching anything.  Otherwise ffprobe decides: exit status
    zero accepts the file, any other status rejects it as an invalid video
    with what ffprobe wrote on its standard error; and when ffprobe cannot
    be started, the [OSError] escapes. *)
Theorem validate_video_file_spec file step st :
  let o := validate_video_file file step st in
  match regular (env st) file with
  | None => o = Out [validating_record file step] st (Raise (file_not_found step file))
  | Some size =>
      if size <? Config.MIN_FILE_SIZE
      then o = Out [validating_record file step] st
                   (Raise (mkFileSizeError file size Config.MIN_FILE_SIZE))
      else if decide ("ffprobe" ∈ on_path (env st))
      then let '(e', (rc, _, stderr)) := exec (probe_cmd file) (env st) in
           env (st_of o) = e'
           ∧ res o = (if decide (rc = 0) then Ok tt
                      else Raise (invalid_video step file stderr))
      else o = Out [validating_record file step] st (Raise (not_found "ffprobe"))
  end.
Proof.
  cbv zeta. unfold validate_video_file, regular, is_file.
  rewrite bind_log. cbv beta. rewrite bind_gets.
  destruct (lookup_entry file (env st)) as [f|] eqn:Hl; [|reflexivity].
  destruct (is_reg f); [|reflexivity]. cbn [negb].
  rewrite (bind_out _ _ _ _ _ _ (stat_size_found _ _ _ Hl)). cbn [app].
  destruct (st_size f <? Config.MIN_FILE_SIZE); [reflexivity|].
  fold (probe_cmd file). unfold probe_cmd.
  destruct (decide ("ffprobe" ∈ on_path (env st))) as [Hin|Hout].
  - destruct (exec ["ffprobe"; "-v"; "error"; str_path file] (env st))
      as [e' [[rc out] err]] eqn:Hex.
    pose proof (subprocess_run_started _ _ _ _ _ _ _ Hin Hex) as Hrun. revert Hrun.
    generalize (subprocess_run ["ffprobe"; "-v"; "error"; str_path file]).
    intros run Hrun.
    destruct (decide (rc = 0)) as [->|Hrc].
    + rewrite bool_decide_eq_false_2 in Hrun by (intros Hx; by apply Hx).
      unfold try_except, bind. rewrite Hrun. by split.
    + rewrite (bool_decide_eq_true_2 _ Hrc) in Hrun.
      unfold try_except, bind. rewrite Hrun. by split.
  - pose proof (subprocess_run_unstarted _ [ "-v"; "error"; str_path file] _ Hout) as Hrun.
    revert Hrun.
    generalize (subprocess_run ["ffprobe"; "-v"; "error"; str_path file]).
    intros run Hrun. unfold try_except, bind. rewrite Hrun. reflexivity.
Qed.

Lemma try_finally_out {A} (m : M A) (f : M unit) st l s r l' s' :
  m st = Out l s r → f s = Out l' s' (Ok tt) → try_finally m f st = Out (l ++ l') s' r.
Proof.
  intros Hm Hf. unfold try_finally. rewrite Hm. cbn [st_of logged res].
  rewrite Hf. reflexivity.
Qed.

(** X11: [encode_audio_track] turns a failed run of the encoder, and only
    that, into an [AudioError] naming the track and carrying what ffmpeg
    wrote on its standard error; when ffmpeg exits with status zero the
    path [audio-<index>.mkv] in the working directory is returned; when
    ffmpeg cannot be started the [OSError] escapes as it is. *)
Theorem encode_audio_track_spec input i channels working_dir st :
  let output_file := audio_file working_dir i in
  let cmd := audio_cmd input i (Config.get_audio_bitrate channels) output_file in
  let o := encode_audio_track input i channels working_dir st in
  ("ffmpeg" ∉ on_path (env st) → res o = Raise (not_found "ffmpeg") ∧ st_of o = st)
  ∧ ("ffmpeg" ∈ on_path (env st) →
     ∀ e' rc out err,
       exec cmd (env st) = (e', (rc, out, err)) →
       env (st_of o) = e'
       ∧ res o = (if decide (rc = 0) then Ok output_file
                  else Raise (audio_track_error input i err))).
Proof.
  cbv zeta. unfold encode_audio_track. cbv zeta. rewrite bind_log. cbv beta.
  unfold audio_cmd. split.
  - intros Hout.
    match goal with |- context [run_command (?p :: ?args) ?d true true] =>
      pose proof (run_command_unstarted p args d true true st Hout) as Hrun; revert Hrun;
      generalize (run_command (p :: args) d true true)
    end.
    intros run Hrun. unfold try_except, bind. rewrite Hrun. by split.
  - intros Hin e' rc out err Hex.
    pose proof (run_command_started _ _ ("Encoding audio track " +:+ pretty i) true true
                  _ _ _ _ _ Hin Hex) as Hrun.
    revert Hrun.
    match goal with |- context [run_command ?c ?d true true] =>
      generalize (run_command c d true true)
    end.
    intros run Hrun. cbn [andb] in Hrun.
    destruct (decide (rc = 0)) as [->|Hrc].
    + rewrite bool_decide_eq_false_2 in Hrun by (intros Hx; by apply Hx).
      unfold try_except, bind. rewrite Hrun. by split.
    + rewrite (bool_decide_eq_true_2 _ Hrc) in Hrun.
      unfold try_except, bind. rewrite Hrun. by split.
Qed.

(** X12: [get_audio_info] logs the probe command and nothing else.  A
    probe that exits with a status other than zero becomes a
    [ProcessError] with the command, the status and both streams; output
    that is not JSON becomes an [AudioError]; decoded output that is a
    dictionary yields its [streams] entry, or the empty list when it has
    none. *)
Theorem get_audio_info_spec input st :
  let cmd := audio_info_cmd input in
  let o := get_audio_info input st in
  logged o = [running_record "Getting audio stream information" cmd]
  ∧ ("ffprobe" ∈ on_path (env st) →
     ∀ e' rc out err,
       exec cmd (env st) = (e', (rc, out, err)) →
       env (st_of o) = e'
       ∧ res o = (if decide (rc = 0) then streams_of out
                  else Raise (mkProcessError "Failed to get audio information" cmd rc out err))).
Proof.
  cbv zeta. unfold get_audio_info. cbv zeta. unfold audio_info_cmd.
  destruct (decide ("ffprobe" ∈ on_path (env st))) as [Hin|Hout].
  - destruct (exec ["ffprobe"; "-v"; "quiet"; "-print_format"; "json"; "-show_streams";
                    "-select_streams"; "a"; str_path input] (env st))
      as [e' [[rc out] err]] eqn:Hex.
    pose proof (run_command_started _ _ "Getting audio stream information" true false
                  _ _ _ _ _ Hin Hex) as Hrun.
    revert Hrun.
    match goal with |- context [run_command ?c ?d true false] =>
      generalize (run_command c d true false)
    end.
    intros run Hrun. cbn [andb] in Hrun. unfold streamed in Hrun.
    destruct (decide (rc = 0)) as [Hz|Hrc].
    + rewrite bool_decide_eq_false_2 in Hrun by (intros Hx; by apply Hx).
      unfold try_except, bind. rewrite Hrun. cbn [res st_of logged].
      assert (Hp : ∀ s, logged (match json_loads out with
                                | Some data => py_get data "streams" (JList [])
                                | None => raise JSONDecodeError
                                end s) = []
                        ∧ st_of (match json_loads out with
                                 | Some data => py_get data "streams" (JList [])
                                 | None => raise JSONDecodeError
                                 end s) = s
                        ∧ match res (match json_loads out with
                                | Some data => py_get data "streams" (JList [])
                                | None => raise JSONDecodeError
                                end s) with
                          | Ok v => streams_of out = Ok v
                          | Raise e =>
                              (e = JSONDecodeError ∨ e = AttributeError)
                              ∧ streams_of out
                                = match e with
                                  | JSONDecodeError =>
                                      Raise (Enc AudioError "Failed to parse audio information: "
                                               (Some JSONDecodeError) None)
                                  | _ => Raise e
                                  end
                          end).
      { intros s. unfold streams_of.
        destruct (json_loads out) as [[]|]; cbn; auto. }
      destruct (Hp (set_env (λ _, e') st)) as (Hl & Hs & Hr). revert Hl Hs Hr.
      generalize (match json_loads out with
                  | Some data => py_get data "streams" (JList [])
                  | None => raise JSONDecodeError
                  end (set_env (λ _, e') st)).
      intros [l s [v|e]] Hl Hs Hr; cbn [res st_of logged] in *; subst l s.
      * split; [reflexivity|]. intros _ e2 rc2 out2 err2 [= <- <- <- <-].
        split; [reflexivity|]. destruct (decide (rc = 0)); [by rewrite Hr|contradiction].
      * destruct Hr as [[-> | ->] Hr]; cbn [res st_of logged raise app];
          (split; [reflexivity|]; intros _ e2 rc2 out2 err2 [= <- <- <- <-];
           split; [reflexivity|]; destruct (decide (rc = 0)); [by rewrite Hr|contradiction]).
    + rewrite (bool_decide_eq_true_2 _ Hrc) in Hrun.
      unfold try_except, bind. rewrite Hrun. cbn [res st_of logged raise app].
      split; [reflexivity|]. intros _ e2 rc2 out2 err2 [= <- <- <- <-].
      split; [reflexivity|]. destruct (decide (rc = 0)); [contradiction|reflexivity].
  - match goal with |- context [run_command (?p :: ?args) ?d true false] =>
      pose proof (run_command_unstarted p args d true false st Hout) as Hrun; revert Hrun;
      generalize (run_command (p :: args) d true false)
    end.
    intros run Hrun. unfold try_except, bind. rewrite Hrun.
    cbn [res st_of logged raise app]. split; [reflexivity|]. intros Hin. contradiction.
Qed.

(** X13: an input without audio is not an error: when the probe reports
    no stream (an empty list, or no usable value), [encode_audio_tracks]
    logs a warning and returns the empty list, without encoding or
    validating anything. *)
Theorem encode_audio_tracks_without_streams input working_dir st streams :
  res (get_audio_info input st) = Ok streams →
  json_truthy streams = false →
  encode_audio_tracks input working_dir st
  = Out (logged (get_audio_info input st)
           ++ [Rec Root WARNING [T "No audio streams found in input file"]])
        (st_of (get_audio_info input st)) (Ok []).
Proof.
  intros Hr Hf. unfold encode_audio_tracks.
  destruct (get_audio_info input st) as [l s r] eqn:Hg. cbn [res st_of logged] in *.
  subst r. rewrite (bind_out _ _ _ _ _ _ Hg). rewrite Hf. reflexivity.
Qed.

(** X14: [encode_segment] does not turn a failed run of the encoder into
    an [EncodingError]: when ab-av1 exits with a status other than zero,
    the [CalledProcessError] is raised as it is, after the failure and the
    closing rule have been logged. *)
Theorem encode_segment_reraises_encoder_failure segment output_dir n total input_file st
    f e' rc out err :
  lookup_entry segment (env st) = Some f →
  "ab-av1" ∈ on_path (env st) →
  exec (encode_cmd segment (in_dir output_dir (name segment))) (env st)
  = (e', (rc, out, err)) →
  rc ≠ 0 →
  let o := encode_segment segment output_dir n total input_file st in
  res o = Raise (CalledProcessError rc (encode_cmd segment (in_dir output_dir (name segment)))
                   out err)
  ∧ class_of (CalledProcessError rc (encode_cmd segment (in_dir output_dir (name segment)))
                out err) ≠ Some EncodingError
  ∧ env (st_of o) = e'
  ∧ ∃ before,
      logged o = before ++ [Rec Ctx ERROR [T "Failed to encode segment "; T (pretty n)];
                            Rec Ctx INFO rule].
Proof.
  intros Hl Hin Hex Hrc. cbv zeta.
  pose proof (run_command_started _ _ ("Encoding segment " +:+ progress n total) true true
                _ _ _ _ _ Hin Hex) as Hrun.
  cbn [andb] in Hrun. rewrite (bool_decide_eq_true_2 _ Hrc) in Hrun.
  fold (encode_cmd segment (in_dir output_dir (name segment))) in Hrun.
  unfold encode_segment. cbv zeta.
  do 4 (rewrite bind_log; cbv beta).
  rewrite (bind_out _ _ _ _ _ _ (stat_size_found _ _ _ Hl)).
  rewrite bind_log. cbv beta.
  match goal with |- context [try_finally (try_except ?b ?h) ?fin st] =>
    assert (Hb : b st = Out (running_record ("Encoding segment " +:+ progress n total)
                               (encode_cmd segment (in_dir output_dir (name segment)))
                             :: streamed true out err)
                            (set_env (λ _, e') st)
                            (Raise (CalledProcessError rc
                                      (encode_cmd segment (in_dir output_dir (name segment)))
                                      out err)))
      by (unfold now; rewrite bind_gets; exact (bind_out_raise _ _ _ _ _ _ Hrun));
    pose proof (try_except_out_raise b h st _ _ _ Hb) as Ht;
    cbv beta in Ht; rewrite bind_log in Ht; cbv beta in Ht;
    rewrite (try_finally_out (try_except b h) fin st _ _ _
               [Rec Ctx INFO rule] (set_env (λ _, e') st) Ht eq_refl)
  end.
  cbn [res st_of logged raise env set_env].
  split; [reflexivity|]. split; [discriminate|]. split; [reflexivity|].
  match goal with
  | |- ∃ before, ?a :: ?b :: ?c :: ?d :: [] ++ ?e :: ((?r :: ?s) ++ ?x) ++ ?y = _ =>
      exists ([a; b; c; d; e; r] ++ s)
  end.
  cbn [app]. by rewrite <- app_assoc.
Qed.

Lemma for_each_returns {A} (xs : list A) (body : A → M unit) st :
  (∀ x s, res (body x s) = Ok tt) → res (for_each xs body st) = Ok tt.
Proof.
  intros Hb. revert st. induction xs as [|x xs IH]; intros st; [reflexivity|].
  cbn [for_each]. rewrite (bind_ok _ _ _ tt) by apply Hb. apply IH.
Qed.

(** X15: whatever goes wrong inside [segment_video], be it the segmenter,
    a program that cannot be started or the validation of the segments,
    the caller sees a [SegmentationError] that carries the input path. *)
Theorem segment_video_raises_segmentation_error input segments_dir st e :
  res (segment_video input segments_dir st) = Raise e →
  class_of e = Some SegmentationError ∧ file_of e = Some input.
Proof.
  unfold segment_video. repeat (rewrite res_bind_log; cbv beta).
  intros He. apply res_try_except_raise in He as (e0 & _ & He).
  destruct e0; cbn [res raise] in He; injection He as <-; by split.
Qed.

(** X16: whatever goes wrong inside [concatenate_segments], the caller
    sees a [ConcatenationError] that carries the path of the output
    file. *)
Theorem concatenate_segments_raises_concatenation_error encoded_dir output_file st e :
  res (concatenate_segments encoded_dir output_file st) = Raise e →
  class_of e = Some ConcatenationError ∧ file_of e = Some output_file.
Proof.
  unfold concatenate_segments. repeat (rewrite res_bind_log; cbv beta).
  intros He. apply res_try_except_raise in He as (e0 & _ & He).
  destruct e0; cbn [res raise] in He; injection He as <-; by split.
Qed.

(** X17: whatever goes wrong inside [remux_tracks], including a final
    output that fails validation, the caller sees a [RemuxError] that
    carries the path of the output file. *)
Theorem remux_tracks_raises_remux_error video_file audio_files output_file st e :
  res (remux_tracks video_file audio_files output_file st) = Raise e →
  class_of e = Some RemuxError ∧ file_of e = Some output_file.
Proof.
  unfold remux_tracks. repeat (rewrite res_bind_log; cbv beta).
  intros He. apply res_bind_raise in He as [He|([] & _ & He)].
  - rewrite for_each_returns in He; [discriminate|]. by intros [i a] s.
  - apply res_try_except_raise in He as (e0 & _ & He).
    destruct e0; cbn [res raise] in He; injection He as <-; by split.
Qed.
End Programs.

(** The theorems at work. *)

Lemma run_command_spec_witness :
  let h := Demo.host Demo.ProbeFails in
  let cmd := ["mediainfo"; "--Output=JSON"; str_path Demo.a_mkv] in
  ("mediainfo" ∉ on_path (env Demo.no_mediainfo))
  ∧ @run_command h cmd "Mediainfo detection" true false Demo.no_mediainfo
    = Out [running_record "Mediainfo detection" cmd] Demo.no_mediainfo
          (Raise (not_found "mediainfo"))
  ∧ "mediainfo" ∈ on_path (env Demo.start)
  ∧ res (@run_command h cmd "Mediainfo detection" true false Demo.start)
    = Raise (CalledProcessError 1 cmd EmptyString "cannot open")
  ∧ res (@run_command h cmd "Mediainfo detection" false false Demo.start)
    = Ok (1, EmptyString, "cannot open").
Proof.
  cbv zeta.
  assert (Hout : "mediainfo" ∉ on_path (env Demo.no_mediainfo)).
  { intros Hin. apply list_elem_of_In in Hin. vm_compute in Hin.
    repeat (destruct Hin as [Hin|Hin]; [discriminate Hin|]). exact Hin. }
  assert (Hin : "mediainfo" ∈ on_path (env Demo.start))
    by (apply list_elem_of_In; vm_compute; tauto).
  split; [exact Hout|]. split.
  { exact (proj1 (@run_command_spec (Demo.host Demo.ProbeFails) "mediainfo"
                    ["--Output=JSON"; str_path Demo.a_mkv] "Mediainfo detection"
                    true false Demo.no_mediainfo) Hout). }
  split; [exact Hin|]. split.
  - by rewrite (proj2 (@run_command_spec (Demo.host Demo.ProbeFails) "mediainfo"
                         ["--Output=JSON"; str_path Demo.a_mkv] "Mediainfo detection"
                         true false Demo.start) Hin _ _ _ _ eq_refl).
  - by rewrite (proj2 (@run_command_spec (Demo.host Demo.ProbeFails) "mediainfo"
                         ["--Output=JSON"; str_path Demo.a_mkv] "Mediainfo detection"
                         false false Demo.start) Hin _ _ _ _ eq_refl).
Defined.

Lemma encode_audio_tracks_without_streams_witness :
  res (@get_audio_info Faulty.silent Demo.a_mkv Demo.start) = Ok (JList [])
  ∧ json_truthy (JList []) = false
  ∧ res (@encode_audio_tracks Faulty.silent Demo.a_mkv "working" Demo.start) = Ok [].
Proof.
  assert (Hr : res (@get_audio_info Faulty.silent Demo.a_mkv Demo.start) = Ok (JList []))
    by (vm_compute; reflexivity).
  split; [exact Hr|]. split; [reflexivity|].
  by rewrite (@encode_audio_tracks_without_streams Faulty.silent Demo.a_mkv "working"
                Demo.start (JList []) Hr eq_refl).
Defined.

Lemma encode_segment_reraises_encoder_failure_witness :
  let h := Faulty.failing "ab-av1" 1 "boom" (Demo.host Demo.NoFault) in
  let segment := mkPath "segments" "0000.mkv" in
  lookup_entry segment (env Faulty.segmented) = Some (Demo.media 6000)
  ∧ "ab-av1" ∈ on_path (env Faulty.segmented)
  ∧ res (@encode_segment h segment "encoded_segments" 1 1 "a.mkv" Faulty.segmented)
    = Raise (CalledProcessError 1 (encode_cmd segment (mkPath "encoded_segments" "0000.mkv"))
               EmptyString "boom").
Proof.
  cbv zeta.
  assert (Hl : lookup_entry (mkPath "segments" "0000.mkv") (env Faulty.segmented)
               = Some (Demo.media 6000)) by (vm_compute; reflexivity).
  assert (Hin : "ab-av1" ∈ on_path (env Faulty.segmented))
    by (apply list_elem_of_In; vm_compute; tauto).
  split; [exact Hl|]. split; [exact Hin|].
  assert (Hrc : (1 : Z) ≠ 0) by discriminate.
  exact (proj1 (@encode_segment_reraises_encoder_failure
                  (Faulty.failing "ab-av1" 1 "boom" (Demo.host Demo.NoFault))
                  (mkPath "segments" "0000.mkv") "encoded_segments" 1 1 "a.mkv"
                  Faulty.segmented _ _ 1 EmptyString "boom" Hl Hin eq_refl Hrc)).
Defined.

Lemma segment_video_raises_segmentation_error_witness :
  let o := @segment_video (Demo.host Demo.SegmentationFails) Demo.a_mkv "segments"
             Demo.start in
  res o = Raise Demo.segmentation_error
  ∧ class_of Demo.segmentation_error = Some SegmentationError
  ∧ file_of Demo.segmentation_error = Some Demo.a_mkv.
Proof.
  cbv zeta.
  assert (Hr : res (@segment_video (Demo.host Demo.SegmentationFails) Demo.a_mkv "segments"
                      Demo.start) = Raise Demo.segmentation_error)
    by (vm_compute; reflexivity).
  split; [exact Hr|].
  exact (@segment_video_raises_segmentation_error (Demo.host Demo.SegmentationFails)
           Demo.a_mkv "segments" Demo.start _ Hr).
Defined.

(** The concatenation is asked for an output that the tool does not
    produce: the [OSError] of the size check comes back wrapped. *)
Lemma concatenate_segments_raises_concatenation_error_witness :
  let out := mkPath "working" "b.mkv" in
  let e := Enc ConcatenationError EmptyString
             (Some (OSError "No such file or directory")) (Some out) in
  res (@concatenate_segments (Demo.host Demo.NoFault) "encoded_segments" out Demo.encoded)
  = Raise e
  ∧ class_of e = Some ConcatenationError ∧ file_of e = Some out.
Proof.
  cbv zeta.
  assert (Hr : res (@concatenate_segments (Demo.host Demo.NoFault) "encoded_segments"
                      (mkPath "working" "b.mkv") Demo.encoded)
               = Raise (Enc ConcatenationError EmptyString
                          (Some (OSError "No such file or directory"))
                          (Some (mkPath "working" "b.mkv"))))
    by (vm_compute; reflexivity).
  split; [exact Hr|].
  exact (@concatenate_segments_raises_concatenation_error (Demo.host Demo.NoFault)
           "encoded_segments" (mkPath "working" "b.mkv") Demo.encoded _ Hr).
Defined.

(** The remux is asked for an output that the tool does not produce: the
    validation of the final output fails, and comes back wrapped. *)
Lemma remux_tracks_raises_remux_error_witness :
  let out := mkPath "output" "b.mkv" in
  let e := Enc RemuxError EmptyString (Some (file_not_found "Final output" out))
             (Some out) in
  res (@remux_tracks (Demo.host Demo.NoFault) (mkPath "working" "a.mkv") [] out Demo.start)
  = Raise e
  ∧ class_of e = Some RemuxError ∧ file_of e = Some out.
Proof.
  cbv zeta.
  assert (Hr : res (@remux_tracks (Demo.host Demo.NoFault) (mkPath "working" "a.mkv") []
                      (mkPath "output" "b.mkv") Demo.start)
               = Raise (Enc RemuxError EmptyString
                          (Some (file_not_found "Final output" (mkPath "output" "b.mkv")))
                          (Some (mkPath "output" "b.mkv"))))
    by (vm_compute; reflexivity).
  split; [exact Hr|].
  exact (@remux_tracks_raises_remux_error (Demo.host Demo.NoFault)
           (mkPath "working" "a.mkv") [] (mkPath "output" "b.mkv") Demo.start _ Hr).
Defined.

(** ** The encoder's directories *)

Lemma grown_refl e : grown e e.
Proof. repeat split. by left. Qed.

Lemma grown_trans e1 e2 e3 : grown e1 e2 → grown e2 e3 → grown e1 e3.
Proof.
  intros (Hb & Hp & Hc & Hd) (Hb' & Hp' & Hc' & Hd').
  split; [congruence|]. split; [congruence|]. split; [congruence|].
  intros d. destruct (Hd d) as [H1|[H1 H1']], (Hd' d) as [H2|[H2 H2']].
  - left. congruence.
  - right. split; congruence.
  - right. split; congruence.
  - congruence.
Qed.

Lemma grown_input_names e e' : grown e e' → input_names e' = input_names e.
Proof.
  intros (_ & _ & _ & Hd). unfold input_names, glob.
  destruct (Hd (get_dir "input")) as [->|[-> ->]]; reflexivity.
Qed.

Lemma mkdir_cases d st :
  mkdir d true st
  = match dirs (env st) !! d with
    | Some _ => Out [] st (Ok tt)
    | None =>
        if base_writable (env st)
        then Out [] (set_env (set_dirs (<[d := fresh]>)) st) (Ok tt)
        else Out [] st (Raise (OSError "Permission denied"))
    end.
Proof.
  unfold mkdir. rewrite bind_gets.
  destruct (dirs (env st) !! d); [reflexivity|].
  by destruct (base_writable (env st)).
Qed.

Lemma mkdir_grown d st :
  same_session st (st_of (mkdir d true st)) ∧ grown (env st) (env (st_of (mkdir d true st))).
Proof.
  rewrite mkdir_cases.
  destruct (dirs (env st) !! d) eqn:Hd; [split; [done|apply grown_refl]|].
  destruct (base_writable (env st)); [|split; [done|apply grown_refl]].
  split; [done|]. unfold grown, set_env, set_dirs.
  cbn [st_of env base_writable on_path clock dirs].
  repeat split. intros d'. destruct (decide (d' = d)) as [->|Hne].
  - right. by rewrite lookup_insert_eq.
  - left. by rewrite lookup_insert_ne.
Qed.

Lemma mkdir_all_spec ds st :
  let o := for_each ds (λ dir_path, mkdir dir_path true) st in
  logged o = [] ∧ same_session st (st_of o) ∧ grown (env st) (env (st_of o))
  ∧ match res o with
    | Ok _ => ∀ d, d ∈ ds → is_Some (dirs (env (st_of o)) !! d)
    | Raise e => e = OSError "Permission denied" ∧ base_writable (env st) = false
    end
  ∧ (base_writable (env st) = true → res o = Ok tt).
Proof.
  cbv zeta. revert st. induction ds as [|d ds IH]; intros st.
  - cbn [for_each ret logged st_of res]. split; [done|]. split; [done|].
    split; [apply grown_refl|]. split; [|done]. intros d Hd. by apply elem_of_nil in Hd.
  - cbn [for_each]. destruct (mkdir_grown d st) as (Hs & Hg).
    pose proof (mkdir_cases d st) as Hc.
    destruct (mkdir d true st) as [l s r] eqn:Hm. cbn [st_of] in Hs, Hg.
    assert (Hd : r = Ok tt → is_Some (dirs (env s) !! d)).
    { destruct (dirs (env st) !! d) eqn:Hd.
      - injection Hc as -> -> ->. by rewrite Hd.
      - destruct (base_writable (env st)); injection Hc as -> -> ->; [|discriminate].
        intros _. cbn [env set_env]. unfold set_dirs. cbn [dirs].
        by rewrite lookup_insert_eq. }
    assert (Hr : l = [] ∧ match r with
                          | Ok _ => True
                          | Raise e => e = OSError "Permission denied"
                                       ∧ base_writable (env st) = false
                          end).
    { destruct (dirs (env st) !! d); [by injection Hc as -> -> ->|].
      destruct (base_writable (env st)); by injection Hc as -> -> ->. }
    destruct Hr as [-> Hr]. clear Hc.
    destruct r as [[]|e].
    + rewrite (bind_out _ _ _ _ _ _ Hm). cbn [logged st_of res app].
      destruct (IH s) as (Hl & Hs' & Hg' & Hres & Hw).
      split; [assumption|].
      split. { destruct Hs as (?&?&?&?), Hs' as (?&?&?&?). repeat split; congruence. }
      split; [by apply (grown_trans _ (env s))|].
      split.
      * destruct (res (for_each ds (λ dir_path, mkdir dir_path true) s)) as [[]|e].
        -- intros d' [->|Hin]%elem_of_cons; [|by apply Hres].
           destruct (Hd eq_refl) as [dn Hdn].
           destruct Hg' as (_ & _ & _ & Hk). destruct (Hk d) as [->|[Hn _]]; [by eexists|].
           congruence.
        -- destruct Hg as (Hb & _). destruct Hres as [-> Hf]. split; [reflexivity|]. congruence.
      * intros Hb. apply Hw. destruct Hg as (Hb' & _). congruence.
    + rewrite (bind_out_raise _ _ _ _ _ _ Hm). cbn [logged st_of res].
      split; [reflexivity|]. split; [assumption|]. split; [assumption|].
      split; [assumption|]. destruct Hr as [_ Hr]. congruence.
Qed.

(** X18: [prepare_directories] creates the missing directories of [DIRS],
    empty, and leaves everything else as it is: a directory that exists
    keeps its contents.  When it returns, all six directories exist; it
    fails, with a [VideoEncoderError], only when a directory is missing
    and cannot be created. *)
Theorem prepare_directories_spec st :
  let o := prepare_directories st in
  logged o = [Rec Ctx INFO [T "Preparing working directories"]]
  ∧ same_session st (st_of o)
  ∧ grown (env st) (env (st_of o))
  ∧ (res o = Ok tt → ∀ d, d ∈ Config.DIRS → is_Some (dirs (env (st_of o)) !! d))
  ∧ (∀ e, res o = Raise e →
          e = prepare_failure (OSError "Permission denied")
          ∧ base_writable (env st) = false)
  ∧ (base_writable (env st) = true → res o = Ok tt).
Proof.
  cbv zeta. unfold prepare_directories. rewrite bind_log. cbv beta.
  change (snd <$> get_all_dirs) with Config.DIRS.
  destruct (mkdir_all_spec Config.DIRS st) as (Hl & Hs & Hg & Hres & Hw). revert Hl Hs Hg Hres Hw.
  unfold try_except.
  generalize (for_each Config.DIRS (λ dir_path, mkdir dir_path true) st).
  intros [l s [[]|e]] Hl Hs Hg Hres Hw; cbn [logged st_of res raise app] in *; subst l.
  - split; [reflexivity|]. split; [assumption|]. split; [assumption|].
    split; [intros _; assumption|]. split; [discriminate|]. intros _. reflexivity.
  - split; [reflexivity|]. split; [assumption|]. split; [assumption|].
    split; [discriminate|]. destruct Hres as [-> Hb]. split.
    + intros e' [= <-]. by split.
    + intros Hb'. congruence.
Qed.

(** X19: [get_input_files] reads the input directory and changes nothing.
    It finds the listed names that end in [.mkv] or [.mp4]; when there is
    none it raises a [VideoEncoderError], and otherwise it returns all of
    them, each once per listing, in ascending order of their names. *)
Theorem get_input_files_spec st :
  let o := get_input_files st in
  logged o = [] ∧ st_of o = st
  ∧ (∀ n, n ∈ input_names (env st)
          ↔ ∃ dn, dirs (env st) !! get_dir "input" = Some dn
                  ∧ n ∈ (fst <$> entries dn)
                  ∧ (ends_with ".mkv" n = true ∨ ends_with ".mp4" n = true))
  ∧ (input_names (env st) = [] → res o = Raise no_input_files)
  ∧ (input_names (env st) ≠ [] →
     ∃ names, res o = Ok (in_dir (get_dir "input") <$> names)
              ∧ StronglySorted name_le names
              ∧ names ≡ₚ input_names (env st)).
Proof.
  cbv zeta.
  assert (Hn : ∀ n, n ∈ input_names (env st)
                    ↔ ∃ dn, dirs (env st) !! get_dir "input" = Some dn
                            ∧ n ∈ (fst <$> entries dn)
                            ∧ (ends_with ".mkv" n = true ∨ ends_with ".mp4" n = true)).
  { intros n. unfold input_names, glob. cbn [fmap list_fmap Config.SUPPORTED_FORMATS concat].
    rewrite app_nil_r, elem_of_app.
    destruct (dirs (env st) !! get_dir "input") as [dn|].
    - rewrite !list_elem_of_filter. split.
      + intros [[Hm Hin]|[Hm Hin]]; exists dn; auto.
      + intros (dn' & [= <-] & Hin & [Hm|Hm]); auto.
    - split.
      + intros [Hin|Hin]; by apply elem_of_nil in Hin.
      + by intros (dn' & [=] & _). }
  destruct (decide (input_names (env st) = [])) as [He|Hne].
  - assert (Hg : get_input_files st = Out [] st (Raise no_input_files)).
    { unfold get_input_files. cbv zeta. rewrite bind_gets.
      fold (input_names (env st)). rewrite He. reflexivity. }
    rewrite Hg. cbn [logged st_of res]. split; [reflexivity|]. split; [reflexivity|].
    split; [exact Hn|]. split; [reflexivity|]. intros Hx. by destruct Hx.
  - rewrite (get_input_files_found st Hne). cbn [logged st_of res].
    split; [reflexivity|]. split; [reflexivity|]. split; [exact Hn|].
    split; [intros Hx; by destruct Hne|].
    intros _. exists (sorted (input_names (env st))). split; [reflexivity|].
    apply sorted_spec.
Qed.

Lemma same_machine_refl e : same_machine e e.
Proof. done. Qed.



(** ** core/video.py: cleanup_segments *)


(** ** The batch *)

Section Batch.
Context `{Host}.

Lemma run_finally_spec st :
  let o := run_finally st in
  res o = Ok tt ∧ same_session st (st_of o)
  ∧ omap is_milestone (logged o) = []
  ∧ (transient_empty (env (st_of o)) = true ∨ resettable (env (st_of o)) = false).
Proof.
  cbv zeta. destruct (quiet_run_finally st) as (Hq & _).
  split; [apply run_finally_ok|]. split; [|split; [exact Hq|]].
  - destruct (cleanup_spec "final" st) as (_ & Hs & _). revert Hs.
    unfold run_finally, try_except. generalize (cleanup_working_dirs "final" st).
    by intros [l s [[]|e]] Hs.
  - destruct (cleanup_spec "final" st) as (_ & _ & Hc). revert Hc.
    unfold run_finally, try_except. generalize (cleanup_working_dirs "final" st).
    intros [l s [[]|e]] Hc; cbn [res st_of logged log] in *.
    + destruct Hc as [[_ ?]|(c & [=] & _)]. by left.
    + destruct Hc as [[[=] _]|(c & _ & ?)]. by right.
Qed.

(** The outcome of [run] when the directories can be prepared and no
    input file is found. *)
Lemma run_no_inputs st :
  res (prepare_directories st) = Ok tt →
  input_names (env st) = [] →
  let s1 := st_of (prepare_directories st) in
  run st
  = Out (Rec Ctx INFO [T "Starting video encoding workflow"]
           :: (logged (prepare_directories st) ++ [fatal_record no_input_files])
           ++ logged (run_finally s1))
        (st_of (run_finally s1)) (Raise no_input_files).
Proof.
  intros Hp Hn. cbv zeta.
  destruct (prepare_directories_spec st) as (_ & _ & Hg & _).
  apply grown_input_names in Hg. rewrite Hn in Hg.
  destruct (prepare_directories st) as [l s1 r] eqn:Hprep. cbn [res st_of logged] in *.
  subst r.
  assert (Hgi : get_input_files s1 = Out [] s1 (Raise no_input_files)).
  { unfold get_input_files. cbv zeta. rewrite bind_gets.
    fold (input_names (env s1)). rewrite Hg. reflexivity. }
  unfold run, now. rewrite bind_gets, bind_log. cbv beta.
  assert (Ht : run_try (clock (env st)) st = Out l s1 (Raise no_input_files)).
  { unfold run_try. rewrite (bind_out _ _ _ _ _ _ Hprep).
    rewrite (bind_out_raise _ _ _ _ _ _ Hgi). cbn [logged st_of res].
    by rewrite app_nil_r. }
  match goal with |- context [try_finally (try_except ?b ?h) run_finally st] =>
    pose proof (try_except_out_raise b h st _ _ _ Ht) as Hte
  end.
  cbv beta in Hte. rewrite bind_log in Hte. cbn [logged st_of res raise] in Hte.
  unfold try_finally. rewrite Hte. cbn [logged st_of res].
  rewrite run_finally_ok. reflexivity.
Qed.

(** X22: when the directories can be prepared but the input directory
    holds no supported file, [run] starts no job and prints no summary: it
    logs the fatal error, still resets the transient directories, and
    raises the [VideoEncoderError] of [get_input_files]. *)
Theorem run_without_inputs st :
  res (prepare_directories st) = Ok tt →
  input_names (env st) = [] →
  let o := run st in
  res o = Raise no_input_files
  ∧ omap is_milestone (logged o) = []
  ∧ fatal_record no_input_files ∈ logged o
  ∧ same_books st (st_of o)
  ∧ (resettable (env (st_of o)) = true → transient_empty (env (st_of o)) = true).
Proof.
  intros Hp Hn. cbv zeta.
  pose proof (run_no_inputs st Hp Hn) as Hrun. cbv zeta in Hrun.
  destruct (prepare_directories_spec st) as (Hl & Hs & _).
  destruct (run_finally_spec (st_of (prepare_directories st))) as (_ & Hs' & Hq & Hc).
  revert Hrun Hl Hs Hs' Hq Hc.
  generalize (run_finally (st_of (prepare_directories st))).
  generalize (prepare_directories st). generalize (run st).
  intros o p fin -> Hl Hs Hs' Hq Hc. cbn [res st_of logged].
  split; [reflexivity|]. split; [|split; [|split]].
  - rewrite Hl, app_comm_cons, omap_app, Hq, app_nil_r. reflexivity.
  - apply list_elem_of_further, elem_of_app. left. apply elem_of_app. right.
    apply list_elem_of_here.
  - destruct Hs as (_ & ? & ? & _), Hs' as (_ & ? & ? & _). split; congruence.
  - intros Hr. destruct Hc as [?|Hf]; [assumption|congruence].
Qed.

(** X23: [run] does not check for the required tools: when ffmpeg,
    ffprobe or mediainfo is missing from [PATH], [check_ffmpeg_installed]
    would raise, yet [run] starts the job of every input file (each fails
    or not on its own), prints the summary and returns normally. *)
Theorem run_does_not_check_tools st tool :
  books_ok st →
  res (prepare_directories st) = Ok tt →
  input_names (env st) ≠ [] →
  tool ∈ required_tools →
  tool ∉ on_path (env st) →
  let files := in_dir (get_dir "input") <$> sorted (input_names (env st)) in
  let total := Z.of_nat (length files) in
  (∃ missing, res (check_ffmpeg_installed st) = Raise (missing_tool missing))
  ∧ res (run st) = Ok tt
  ∧ omap is_milestone (logged (run st)) = (announced total <$> enumerate 1 files) ++ [Summary].
Proof.
  intros Hb Hp Hn Ht Hm. cbv zeta. split.
  - destruct (check_ffmpeg_installed_cases st) as [[Hall _]|(t & _ & _ & ->)].
    + destruct Hm. by apply (proj1 (Forall_forall _ _) Hall).
    + by exists t.
  - destruct (run_completes st Hb Hp Hn) as ([[] Hr] & Hms & _). by split.
Qed.
End Batch.

Lemma run_without_inputs_witness :
  let o := @run (Demo.host Demo.NoFault) Faulty.no_inputs in
  res (prepare_directories Faulty.no_inputs) = Ok tt
  ∧ input_names (env Faulty.no_inputs) = []
  ∧ res o = Raise no_input_files
  ∧ dir_empty (env (st_of o)) "working" = true.
Proof.
  cbv zeta.
  assert (Hp : res (prepare_directories Faulty.no_inputs) = Ok tt) by (vm_compute; reflexivity).
  assert (Hn : input_names (env Faulty.no_inputs) = []) by (vm_compute; reflexivity).
  split; [exact Hp|]. split; [exact Hn|].
  destruct (@run_without_inputs (Demo.host Demo.NoFault) Faulty.no_inputs Hp Hn)
    as (Hr & _ & _ & _ & _).
  split; [exact Hr|]. vm_compute. reflexivity.
Defined.

(** Without mediainfo the job of [a.mkv] is started and fails when
    mediainfo cannot be run; the summary is printed all the same. *)
Lemma run_does_not_check_tools_witness :
  let h := Demo.host Demo.NoFault in
  let o := @run h Demo.no_mediainfo in
  "mediainfo" ∈ required_tools
  ∧ ("mediainfo" ∉ on_path (env Demo.no_mediainfo))
  ∧ res (check_ffmpeg_installed Demo.no_mediainfo) = Raise (missing_tool "mediainfo")
  ∧ res o = Ok tt
  ∧ omap is_milestone (logged o) = [announced 1 (1, Demo.a_mkv); Summary]
  ∧ failure_record Demo.a_mkv (not_found "mediainfo") ∈ logged o.
Proof.
  cbv zeta.
  assert (H1 : books_ok Demo.no_mediainfo) by (intros v Hv; by apply elem_of_nil in Hv).
  assert (H2 : res (prepare_directories Demo.no_mediainfo) = Ok tt)
    by (vm_compute; reflexivity).
  assert (H3 : input_names (env Demo.no_mediainfo) ≠ []) by (vm_compute; discriminate).
  assert (H4 : "mediainfo" ∈ required_tools) by (apply list_elem_of_In; vm_compute; tauto).
  assert (H5 : "mediainfo" ∉ on_path (env Demo.no_mediainfo)).
  { intros Hin. apply list_elem_of_In in Hin. vm_compute in Hin.
    repeat (destruct Hin as [Hin|Hin]; [discriminate Hin|]). exact Hin. }
  destruct (@run_does_not_check_tools (Demo.host Demo.NoFault) Demo.no_mediainfo
              "mediainfo" H1 H2 H3 H4 H5) as (_ & Hr & Hm).
  split; [exact H4|]. split; [exact H5|]. split; [vm_compute; reflexivity|].
  split; [exact Hr|]. split; [rewrite Hm; vm_compute; reflexivity|].
  apply list_elem_of_In. vm_compute. tauto.
Defined.

(** ** main.py *)

Section Main.
Context `{Host}.
Variable strftime : Z → string.






Lemma main_handler_returns e s :
  res (match e with
       | Enc _ _ _ _ => bind (log Root ERROR [T "Encoder error: "; E e]) (λ _, ret 1)
       | _ => bind (log Root ERROR [T "Unexpected error: "; E e]) (λ _, ret 1)
       end s) = Ok 1.
Proof. by destruct e. Qed.

End Main.


(** ** The statistics of a job *)

Lemma extends_refl r : extends r r.
Proof. by repeat split. Qed.

Lemma extends_trans r1 r2 r3 : extends r1 r2 → extends r2 r3 → extends r1 r3.
Proof.
  intros (?&?&?&?&?&?&?) (?&?&?&?&?&?&?).
  repeat split; [congruence|congruence|congruence|auto..].
Qed.

Lemma job_frame_refl vid s : job_frame vid s s.
Proof. split; [done|]. split; [done|]. intros r Hr. exists r. split; [done|apply extends_refl]. Qed.

Lemma job_frame_trans vid s1 s2 s3 :
  job_frame vid s1 s2 → job_frame vid s2 s3 → job_frame vid s1 s3.
Proof.
  intros (Hp & Ho & Hr) (Hp' & Ho' & Hr'). split; [congruence|]. split.
  - intros v Hv. rewrite Ho', Ho; done.
  - intros r H1. destruct (Hr r H1) as (r2 & H2 & He).
    destruct (Hr' r2 H2) as (r3 & H3 & He'). exists r3. split; [done|].
    by apply (extends_trans _ r2).
Qed.

Section JobStats.
Context `{Host}.

Lemma tracks_of_quiet {A} vid (m : M A) : quiet is_milestone m → tracks vid m.
Proof.
  intros Hq st. destruct (Hq st) as (_ & Hs & Hp).
  split; [done|]. split; [intros; by rewrite Hs|].
  intros r Hr. exists r. rewrite Hs. split; [done|apply extends_refl].
Qed.

Lemma tracks_bind {A B} vid (m : M A) (k : A → M B) :
  tracks vid m → (∀ a, tracks vid (k a)) → tracks vid (bind m k).
Proof.
  intros Hm Hk st. unfold bind. pose proof (Hm st) as H1.
  destruct (res (m st)) as [a|e]; cbn [st_of]; [|done].
  apply (job_frame_trans _ _ (st_of (m st))); [exact H1|apply Hk].
Qed.

Lemma tracks_try_except {A} vid (m : M A) h :
  tracks vid m → (∀ e, tracks vid (h e)) → tracks vid (try_except m h).
Proof.
  intros Hm Hh st. unfold try_except. pose proof (Hm st) as H1.
  destruct (res (m st)) as [a|e]; cbn [st_of]; [done|].
  apply (job_frame_trans _ _ (st_of (m st))); [exact H1|apply Hh].
Qed.

Lemma update_stats_cases vid g st :
  update_stats vid g st
  = match stats st !! vid with
    | Some r => Out [] (set_stats (<[vid := g r]>) st) (Ok tt)
    | None => Out [] st (Raise KeyError)
    end.
Proof. unfold update_stats. rewrite bind_gets. by destruct (stats st !! vid). Qed.

Lemma tracks_update_stats vid g : (∀ r, extends r (g r)) → tracks vid (update_stats vid g).
Proof.
  intros Hg st. rewrite update_stats_cases.
  destruct (stats st !! vid) as [r|] eqn:Hr; [|apply job_frame_refl].
  unfold job_frame, set_stats. cbn [st_of processed_videos stats]. split; [done|]. split.
  - intros v Hv. by rewrite lookup_insert_ne.
  - intros r' Hr'. rewrite Hr in Hr'. injection Hr' as <-.
    exists (g r). by rewrite lookup_insert_eq.
Qed.

Lemma extends_set_end_time t r : extends r (set_end_time t r).
Proof. repeat split; cbn; eauto. Qed.
Lemma extends_set_segment_count z r : extends r (set_segment_count z r).
Proof. repeat split; cbn; eauto. Qed.
Lemma extends_set_audio_tracks z r : extends r (set_audio_tracks z r).
Proof. repeat split; cbn; eauto. Qed.
Lemma extends_set_output_size z r : extends r (set_output_size z r).
Proof. repeat split; cbn; eauto. Qed.

Ltac tracks_auto :=
  repeat first
    [ apply tracks_update_stats;
      first [ apply extends_set_end_time | apply extends_set_segment_count
            | apply extends_set_audio_tracks | apply extends_set_output_size ]
    | apply tracks_of_quiet; solve [ quiet_auto ]
    | apply tracks_bind; [|intros; cbv beta zeta]
    | apply tracks_try_except; [|intros; cbv beta zeta] ].

Lemma tracks_process_video_try input vid : tracks vid (process_video_try input vid).
Proof. unfold process_video_try. tracks_auto. Qed.

Lemma tracks_process_video_except input vid e : tracks vid (process_video_except input vid e).
Proof. unfold process_video_except. tracks_auto. Qed.

Lemma post_bind {A B} (Q : St → Prop) (m : M A) (k : A → M B) st b :
  (∀ a s, res (k a s) = Ok b → Q (st_of (k a s))) →
  res (bind m k st) = Ok b → Q (st_of (bind m k st)).
Proof.
  intros Hk. unfold bind. destruct (res (m st)) as [a|e]; cbn [res st_of]; [apply Hk|].
  discriminate.
Qed.

(** A field set by [update_stats] is still set at the end of a
    computation that keeps to the frame of the job. *)
Lemma update_then {B} vid g (k : unit → M B) field st b :
  (∀ r, is_Some (field (g r))) →
  (∀ r r', extends r r' → is_Some (field r) → is_Some (field r')) →
  tracks vid (k tt) →
  res (bind (update_stats vid g) k st) = Ok b →
  has_field vid field (st_of (bind (update_stats vid g) k st)).
Proof.
  intros Hg Hmono Hk. pose proof (update_stats_cases vid g st) as Hu.
  destruct (stats st !! vid) as [r|] eqn:Hr.
  - rewrite (bind_out _ _ _ _ _ _ Hu). cbn [res st_of]. intros _.
    destruct (Hk (set_stats (<[vid := g r]>) st)) as (_ & _ & Hf).
    destruct (Hf (g r)) as (r' & Hr' & He).
    { unfold set_stats. cbn [stats]. by rewrite lookup_insert_eq. }
    exists r'. split; [exact Hr'|]. by apply (Hmono (g r)).
  - rewrite (bind_out_raise _ _ _ _ _ _ Hu). discriminate.
Qed.

Ltac field_auto :=
  unfold process_video_try; cbv zeta;
  repeat lazymatch goal with
         | |- res (bind (update_stats _ _) _ _) = _ → _ =>
             first [ apply update_then;
                     [ intros; cbn; by eexists
                     | intros ? ? (?&?&?&?&?&?&?); assumption
                     | cbv beta zeta; tracks_auto ]
                   | apply post_bind; intros ? ?; cbv beta zeta ]
         | |- res (bind _ _ _) = _ → _ => apply post_bind; intros ? ?; cbv beta zeta
         end.

Lemma try_sets_end_time input vid st :
  res (process_video_try input vid st) = Ok tt →
  has_field vid Stats.end_time (st_of (process_video_try input vid st)).
Proof. field_auto. Qed.

Lemma try_sets_segment_count input vid st :
  res (process_video_try input vid st) = Ok tt →
  has_field vid Stats.segment_count (st_of (process_video_try input vid st)).
Proof. field_auto. Qed.

Lemma try_sets_audio_tracks input vid st :
  res (process_video_try input vid st) = Ok tt →
  has_field vid Stats.audio_tracks (st_of (process_video_try input vid st)).
Proof. field_auto. Qed.

Lemma try_sets_output_size input vid st :
  res (process_video_try input vid st) = Ok tt →
  has_field vid Stats.output_size (st_of (process_video_try input vid st)).
Proof. field_auto. Qed.
End JobStats.

Section JobBooks.
Context `{Host}.

Lemma has_field_frame vid field s s' :
  (∀ r r', extends r r' → is_Some (field r) → is_Some (field r')) →
  job_frame vid s s' → has_field vid field s → has_field vid field s'.
Proof.
  intros Hmono (_ & _ & Hf) (r & Hr & Hs). destruct (Hf r Hr) as (r' & Hr' & He).
  exists r'. split; [exact Hr'|]. by apply (Hmono r).
Qed.

Lemma except_sets_end_time input vid e st :
  is_Some (stats st !! vid) →
  has_field vid Stats.end_time (st_of (process_video_except input vid e st)).
Proof.
  intros [r Hr]. unfold process_video_except, now.
  rewrite st_of_bind_log. cbv beta. rewrite bind_gets.
  pose proof (update_stats_cases vid (set_end_time (clock (env st))) st) as Hu.
  rewrite Hr in Hu. rewrite (bind_out _ _ _ _ _ _ Hu). cbn [st_of raise].
  exists (set_end_time (clock (env st)) r). unfold set_stats. cbn [stats].
  rewrite lookup_insert_eq. split; [reflexivity|]. by eexists.
Qed.

(** What the guarded job of [process_video] leaves in the books. *)
Lemma guarded_job_books input vid s0 r0 :
  stats s0 !! vid = Some r0 →
  let j := try_except (process_video_try input vid) (process_video_except input vid) s0 in
  job_frame vid s0 (st_of j)
  ∧ has_field vid Stats.end_time (st_of j)
  ∧ (res j = Ok tt →
     has_field vid Stats.segment_count (st_of j)
     ∧ has_field vid Stats.audio_tracks (st_of j)
     ∧ has_field vid Stats.output_size (st_of j)).
Proof.
  intros Hr0. cbv zeta. split.
  { apply tracks_try_except; [apply tracks_process_video_try|].
    intros e. apply tracks_process_video_except. }
  pose proof (tracks_process_video_try input vid s0) as Ht.
  pose proof (try_sets_end_time input vid s0) as He.
  pose proof (try_sets_segment_count input vid s0) as Hsc.
  pose proof (try_sets_audio_tracks input vid s0) as Hat.
  pose proof (try_sets_output_size input vid s0) as Hos.
  destruct (process_video_try input vid s0) as [lt s1 [[]|e]] eqn:HT; cbn [res st_of] in *.
  - rewrite (try_except_out_ok _ _ _ _ _ _ HT). cbn [res st_of]. auto.
  - rewrite (try_except_out_raise _ _ _ _ _ _ HT). cbn [res st_of].
    destruct Ht as (_ & _ & Hf). destruct (Hf r0 Hr0) as (r1 & Hr1 & _).
    split; [apply except_sets_end_time; by eexists|].
    rewrite process_video_except_raises by (by eexists). discriminate.
Qed.

Lemma begun_books input t z st :
  let vid := stem (name input) in
  let s0 := begun input t z st in
  stats s0 !! vid = Some (Stats.mkStats vid t None (Some z) None None None)
  ∧ processed_videos s0 = processed_videos st ++ [vid]
  ∧ ∀ v, v ≠ vid → stats s0 !! v = stats st !! v.
Proof.
  cbv zeta. unfold begun, with_current_file, set_processed, set_stats.
  cbn [stats processed_videos]. split; [by rewrite lookup_insert_eq|].
  split; [reflexivity|]. intros v Hv. by rewrite lookup_insert_ne.
Qed.

Lemma job_frame_same_books vid s s1 s2 :
  job_frame vid s s1 → same_books s1 s2 → job_frame vid s s2.
Proof. intros (Hp & Ho & Hf) (Hs & Hp'). unfold job_frame. by rewrite Hs, Hp'. Qed.

Lemma has_field_same_books vid field s1 s2 :
  has_field vid field s1 → same_books s1 s2 → has_field vid field s2.
Proof. intros (r & Hr & Hs) (Hst & _). exists r. by rewrite Hst. Qed.

(** From the state [process_video] enters its [try] statement with to
    the state it leaves: the frame of the job is kept, the end time is
    set, and so are the other fields when the job succeeds. *)
Lemma process_video_frame input cur total st f :
  lookup_entry input (env st) = Some f →
  let vid := stem (name input) in
  let o := process_video input cur total st in
  job_frame vid (begun input (clock (env st)) (st_size f) st) (st_of o)
  ∧ has_field vid Stats.end_time (st_of o)
  ∧ (res o = Ok tt →
     has_field vid Stats.segment_count (st_of o)
     ∧ has_field vid Stats.audio_tracks (st_of o)
     ∧ has_field vid Stats.output_size (st_of o)).
Proof.
  intros Hl. cbv zeta.
  pose proof (process_video_unfold input cur total st f Hl) as Hu. cbv zeta in Hu.
  destruct (begun_books input (clock (env st)) (st_size f) st) as (Hr0 & _).
  destruct (guarded_job_books input (stem (name input)) _ _ Hr0) as (Hf & He & Hok).
  match type of Hu with _ = Out (_ ++ _ ++ logged ?fin) _ _ =>
    destruct (process_video_finally_spec (stem (name input))
                (st_of (try_except (process_video_try input (stem (name input)))
                          (process_video_except input (stem (name input)))
                          (begun input (clock (env st)) (st_size f) st))))
      as (_ & _ & Hsb & _);
    revert Hu Hsb; generalize fin
  end.
  revert Hf He Hok.
  generalize (try_except (process_video_try input (stem (name input)))
                (process_video_except input (stem (name input)))
                (begun input (clock (env st)) (st_size f) st)).
  clear Hr0. generalize (begun input (clock (env st)) (st_size f) st).
  generalize (process_video input cur total st).
  intros o s0 j Hf He Hok fin -> Hsb. cbn [st_of res].
  split; [by apply (job_frame_same_books _ _ (st_of j))|].
  split; [by apply (has_field_same_books _ _ (st_of j))|].
  intros Hres. destruct (Hok Hres) as (H1 & H2 & H3).
  split; [|split]; by apply (has_field_same_books _ _ (st_of j)).
Qed.

(** X25: the books of a job.  Whether the job succeeds or fails,
    [process_video] appends the stem of the input name to the processed
    videos and leaves under it statistics that carry the stem, the start
    time, the input size and an end time; the statistics of other videos
    are untouched.  When the job succeeds, the segment count, the number of
    audio tracks and the output size are recorded as well. *)
Theorem process_video_keeps_books input cur total st f :
  lookup_entry input (env st) = Some f →
  let vid := stem (name input) in
  let o := process_video input cur total st in
  processed_videos (st_of o) = processed_videos st ++ [vid]
  ∧ (∀ v, v ≠ vid → stats (st_of o) !! v = stats st !! v)
  ∧ ∃ r, stats (st_of o) !! vid = Some r
         ∧ Stats.filename r = vid
         ∧ Stats.start_time r = clock (env st)
         ∧ Stats.input_size r = Some (st_size f)
         ∧ is_Some (Stats.end_time r)
         ∧ (res o = Ok tt →
            is_Some (Stats.segment_count r) ∧ is_Some (Stats.audio_tracks r)
            ∧ is_Some (Stats.output_size r)).
Proof.
  intros Hl. cbv zeta.
  destruct (process_video_frame input cur total st f Hl) as ((Hjp & Hjo & Hjf) & He & Hok).
  destruct (begun_books input (clock (env st)) (st_size f) st) as (Hr0 & Hp0 & Ho0).
  revert Hjp Hjo Hjf He Hok. generalize (process_video input cur total st).
  revert Hr0 Hp0 Ho0. generalize (begun input (clock (env st)) (st_size f) st).
  intros s0 Hr0 Hp0 Ho0 o Hjp Hjo Hjf He Hok.
  split; [congruence|]. split.
  { intros v Hv. rewrite Hjo, Ho0; done. }
  destruct (Hjf _ Hr0) as (r & Hr & (Hn & Hst & Hi & _)).
  exists r. split; [exact Hr|]. split; [exact Hn|]. split; [exact Hst|].
  split; [exact Hi|]. split.
  - destruct He as (r' & Hr' & Hs). congruence.
  - intros Hres. destruct (Hok Hres) as ((r1 & H1 & Hs1) & (r2 & H2 & Hs2) & (r3 & H3 & Hs3)).
    split; [|split]; congruence.
Qed.
End JobBooks.

(** The books after a job that failed in the segmenter. *)
Lemma process_video_keeps_books_witness :
  let h := Demo.host Demo.SegmentationFails in
  let o := @process_video h Demo.a_mkv 1 1 Demo.start in
  lookup_entry Demo.a_mkv (env Demo.start) = Some (Demo.media 10000)
  ∧ res o = Raise Demo.segmentation_error
  ∧ processed_videos (st_of o) = ["a"]
  ∧ ∃ r, stats (st_of o) !! "a" = Some r
         ∧ Stats.input_size r = Some 10000 ∧ is_Some (Stats.end_time r).
Proof.
  cbv zeta.
  assert (Hl : lookup_entry Demo.a_mkv (env Demo.start) = Some (Demo.media 10000))
    by (vm_compute; reflexivity).
  split; [exact Hl|]. split; [vm_compute; reflexivity|].
  destruct (@process_video_keeps_books (Demo.host Demo.SegmentationFails) Demo.a_mkv 1 1
              Demo.start _ Hl) as (Hp & _ & r & Hr & _ & _ & Hi & He & _).
  split; [exact Hp|]. exists r. split; [exact Hr|]. split; [exact Hi|exact He].
Defined.

(** ** Names *)

Lemma rfind_dot_dotless s i : dotless s = true → rfind_dot s i = None.
Proof.
  revert i. induction s as [|c s IH]; intros i; [reflexivity|].
  cbn [dotless rfind_dot]. intros [Hc Hs]%andb_true_iff.
  rewrite (IH _ Hs). by destruct (Ascii.eqb c ".").
Qed.

Lemma append_nil b : EmptyString +:+ b = b.
Proof. reflexivity. Qed.

Lemma append_cons c a b : String c a +:+ b = String c (a +:+ b).
Proof. reflexivity. Qed.

Lemma rfind_dot_suffix base ext i :
  dotless ext = true →
  rfind_dot (base +:+ "." +:+ ext) i = Some (i + String.length base)%nat.
Proof.
  intros Hd. revert i. induction base as [|c b IH]; intros i.
  - rewrite append_nil, append_cons, append_nil. cbn [rfind_dot String.length].
    rewrite (rfind_dot_dotless _ _ Hd). cbn. f_equal. lia.
  - rewrite append_cons. cbn [rfind_dot String.length]. rewrite IH. f_equal. lia.
Qed.

Lemma length_app_string a b :
  String.length (a +:+ b) = (String.length a + String.length b)%nat.
Proof.
  induction a as [|c a IH]; [reflexivity|].
  rewrite append_cons. cbn [String.length]. by rewrite IH.
Qed.

Lemma substring_prefix a b : String.substring 0 (String.length a) (a +:+ b) = a.
Proof.
  induction a as [|c a IH].
  - rewrite append_nil. cbn. by destruct b.
  - rewrite append_cons. cbn [String.length String.substring]. by rewrite IH.
Qed.

(** The stem of [base.ext]. *)
Lemma stem_of_name base ext :
  base ≠ EmptyString → ext ≠ EmptyString → dotless ext = true →
  stem (base +:+ "." +:+ ext) = base.
Proof.
  intros Hb He Hd. unfold stem. rewrite (rfind_dot_suffix _ _ 0 Hd). cbn [Nat.add].
  rewrite bool_decide_eq_true_2.
  - apply substring_prefix.
  - rewrite !length_app_string. cbn [String.length].
    destruct base; [done|]. destruct ext; [done|]. cbn [String.length]. lia.
Qed.

(** ** A vanished input *)

Section Vanished.
Context `{Host}.

(** X27: an input file that is gone when its job starts.  The size is
    read before the [try] statement of [process_video], so the [OSError]
    escapes at once: the workspace is not reset, nothing is entered in the
    books and the logger keeps its context.  The loop of [run] logs the
    failure and goes on. *)
Theorem process_video_missing_input input cur total st :
  lookup_entry input (env st) = None →
  process_video input cur total st
  = Out [processing_record cur total input] st
        (Raise (OSError "No such file or directory"))
  ∧ run_one total (cur, input) st
    = Out [processing_record cur total input;
           failure_record input (OSError "No such file or directory")] st (Ok tt).
Proof.
  intros Hl. pose proof (process_video_missing input cur total st Hl) as Hp.
  split; [exact Hp|].
  rewrite run_one_contains. cbv zeta. revert Hp.
  generalize (process_video input cur total st). by intros o ->.
Qed.
End Vanished.

Lemma process_video_missing_input_witness :
  let gone := mkPath "input" "gone.mkv" in
  lookup_entry gone (env Demo.start) = None
  ∧ st_of (@process_video (Demo.host Demo.NoFault) gone 1 1 Demo.start) = Demo.start
  ∧ res (@run_one (Demo.host Demo.NoFault) 1 (1, gone) Demo.start) = Ok tt.
Proof.
  cbv zeta.
  assert (Hl : lookup_entry (mkPath "input" "gone.mkv") (env Demo.start) = None)
    by (vm_compute; reflexivity).
  destruct (@process_video_missing_input (Demo.host Demo.NoFault)
              (mkPath "input" "gone.mkv") 1 1 Demo.start Hl) as (Hp & Hr).
  split; [exact Hl|]. split; [by rewrite Hp|by rewrite Hr].
Defined.

(** ** The summary *)

Lemma omap_skip {A B} (f : A → option B) a l : f a = None → omap f (a :: l) = omap f l.
Proof. intros Hf. cbn [omap list_omap]. by rewrite Hf. Qed.

Lemma summarize_cases v st :
  ∃ l, summarize v st
       = Out l st (match stats st !! v with Some _ => Ok tt | None => Raise KeyError end)
       ∧ (is_Some (stats st !! v) → omap is_video_header l = [v]).
Proof.
  unfold summarize. rewrite bind_gets.
  destruct (stats st !! v) as [r|]; [|exists []; split; [reflexivity|by intros [? ?]]].
  repeat (rewrite bind_log; cbv beta).
  destruct (Stats.compression_ratio r) as [q|];
    [|eexists; split; [reflexivity|reflexivity]].
  destruct (Stats.input_size r) as [i|]; [|eexists; split; [reflexivity|reflexivity]].
  destruct (Stats.output_size r) as [o|]; [|eexists; split; [reflexivity|reflexivity]].
  destruct (negb (Qeq_bool q 0)); [|eexists; split; [reflexivity|reflexivity]].
  repeat (rewrite bind_log; cbv beta).
  eexists; split; [reflexivity|reflexivity].
Qed.

Lemma summary_loop_cases l st :
  ∃ L, for_each l summarize st
       = Out L st (if bool_decide (Forall (λ v, is_Some (stats st !! v)) l)
                   then Ok tt else Raise KeyError)
       ∧ (Forall (λ v, is_Some (stats st !! v)) l → omap is_video_header L = l).
Proof.
  induction l as [|v l (L & IH & IHl)].
  - exists []. rewrite bool_decide_eq_true_2 by constructor. by split.
  - cbn [for_each]. destruct (summarize_cases v st) as (lv & Hv & Hlv).
    destruct (stats st !! v) as [r|] eqn:Hr.
    + rewrite (bind_out _ _ _ _ _ _ Hv), IH. cbn [logged st_of res].
      exists (lv ++ L). split.
      * assert (Hx : bool_decide (Forall (λ v, is_Some (stats st !! v)) l)
                     = bool_decide (Forall (λ v, is_Some (stats st !! v)) (v :: l))).
        { apply bool_decide_ext. rewrite Forall_cons, Hr.
          split; [by split|by intros [_ ?]]. }
        by rewrite Hx.
      * intros [_ Hall]%Forall_cons. rewrite omap_app, IHl, Hlv by eauto. reflexivity.
    + rewrite (bind_out_raise _ _ _ _ _ _ Hv). exists lv. split.
      * rewrite bool_decide_eq_false_2; [reflexivity|].
        intros [[? Hx] _]%Forall_cons. congruence.
      * intros [[? Hx] _]%Forall_cons. congruence.
Qed.

(** X28: [print_summary] changes nothing.  When every processed video
    has its statistics, it returns normally and its log has one section
    per processed video, in processing order, failed jobs included; when a
    processed video has no statistics it raises [KeyError]. *)
Theorem print_summary_lists_processed start_time st :
  let o := print_summary start_time st in
  st_of o = st
  ∧ (books_ok st →
     res o = Ok tt ∧ omap is_video_header (logged o) = processed_videos st)
  ∧ (¬ books_ok st → res o = Raise KeyError).
Proof.
  cbv zeta.
  destruct (summary_loop_cases (processed_videos st) st) as (L & HL & Hh).
  assert (Hiff : books_ok st ↔ Forall (λ v, is_Some (stats st !! v)) (processed_videos st)).
  { unfold books_ok. by rewrite Forall_forall. }
  destruct (decide (Forall (λ v, is_Some (stats st !! v)) (processed_videos st)))
    as [Hall|Hnot].
  - rewrite (bool_decide_eq_true_2 _ Hall) in HL.
    unfold print_summary, now. rewrite bind_gets. cbv zeta.
    repeat (rewrite bind_log; cbv beta). rewrite bind_gets.
    rewrite (bind_out _ _ _ _ _ _ HL). cbn [logged st_of res log].
    split; [reflexivity|]. split.
    + intros _. split; [reflexivity|].
      rewrite !omap_skip by reflexivity.
      rewrite omap_app, (Hh Hall). cbn. by rewrite app_nil_r.
    + intros Hb. destruct Hb. by apply Hiff.
  - rewrite (bool_decide_eq_false_2 _ Hnot) in HL.
    unfold print_summary, now. rewrite bind_gets. cbv zeta.
    repeat (rewrite bind_log; cbv beta). rewrite bind_gets.
    rewrite (bind_out_raise _ _ _ _ _ _ HL). cbn [logged st_of res].
    split; [reflexivity|]. split; [|reflexivity].
    intros Hb. destruct Hnot. by apply Hiff.
Qed.

Lemma print_summary_lists_processed_witness :
  let st := st_of (@run (Demo.host Demo.NoFault) Demo.batch) in
  books_ok st
  ∧ processed_videos st = ["0"; "a"]
  ∧ omap is_video_header (logged (print_summary 0 st)) = ["0"; "a"].
Proof.
  cbv zeta.
  assert (Hp : processed_videos (st_of (@run (Demo.host Demo.NoFault) Demo.batch))
               = ["0"; "a"]) by (vm_compute; reflexivity).
  assert (Hb : books_ok (st_of (@run (Demo.host Demo.NoFault) Demo.batch))).
  { intros v. rewrite Hp. intros Hv. apply list_elem_of_In in Hv.
    destruct Hv as [<-|[<-|[]]]; vm_compute; by eexists. }
  split; [exact Hb|]. split; [exact Hp|].
  destruct (print_summary_lists_processed 0
              (st_of (@run (Demo.host Demo.NoFault) Demo.batch))) as (_ & Hok & _).
  destruct (Hok Hb) as (_ & Hl). by rewrite Hl.
Defined.

(** ** The audio tracks of the final output *)

Section FinalOutput.
Context `{Host}.

(** X29: [validate_final_output] first validates the file, and fails as
    [validate_video_file] does.  When the file is valid, it accepts exactly
    when the number of audio tracks that [get_audio_track_count] reports
    for it is the expected one, and otherwise rejects the output with a
    [ValidationError] that gives both numbers. *)
Theorem validate_final_output_counts_tracks file expected st :
  let v := validate_video_file file "Final output" st in
  let o := validate_final_output file expected st in
  (∀ e, res v = Raise e → res o = Raise e)
  ∧ (res v = Ok tt →
     (res o = Ok tt ↔ res (get_audio_track_count file (st_of v)) = Ok expected)
     ∧ ∀ n, res (get_audio_track_count file (st_of v)) = Ok n → n ≠ expected →
            res o = Raise (track_count_mismatch file n expected)).
Proof.
  cbv zeta. unfold validate_final_output. rewrite res_bind_log. cbv beta.
  destruct (validate_video_file file "Final output" st) as [lv s1 rv] eqn:Hv.
  cbn [res st_of]. split.
  - intros e ->. by rewrite (bind_out_raise _ _ _ _ _ _ Hv).
  - intros ->. rewrite (bind_out _ _ _ _ _ _ Hv). cbn [res].
    unfold get_audio_track_count.
    destruct (subprocess_run (audio_probe_cmd "stream=index" file) s1)
      as [l2 s2 [[out err]|e]] eqn:Hsr.
    + match goal with |- context [bind (try_except ?b ?h) ?k s1] =>
        assert (Hb : b s1 = Out l2 s2
                  (if bool_decide (Z.of_nat (length (splitlines out)) ≠ expected)
                   then Raise (track_count_mismatch file
                                 (Z.of_nat (length (splitlines out))) expected)
                   else Ok tt))
          by (rewrite (bind_out _ _ _ _ _ _ Hsr); cbv beta iota zeta;
              destruct (bool_decide (Z.of_nat (length (splitlines out)) ≠ expected));
              cbn [logged st_of res raise ret]; by rewrite app_nil_r)
      end.
      match goal with |- context [res (try_except ?b ?h s1) = Ok expected] =>
        assert (Hc : b s1 = Out l2 s2 (Ok (Z.of_nat (length (splitlines out)))))
          by (rewrite (bind_out _ _ _ _ _ _ Hsr); cbn [logged st_of res ret];
              by rewrite app_nil_r);
        rewrite (try_except_out_ok b h s1 _ _ _ Hc)
      end.
      cbn [res].
      destruct (decide (Z.of_nat (length (splitlines out)) = expected)) as [He|Hne].
      * rewrite bool_decide_eq_false_2 in Hb by (intros Hx; by apply Hx).
        match goal with |- context [bind (try_except ?b ?h) ?k s1] =>
          rewrite (bind_out _ _ _ _ _ _ (try_except_out_ok b h s1 _ _ _ Hb))
        end.
        cbn [res log]. split; [by rewrite He|]. intros n [= <-] Hn. contradiction.
      * rewrite (bool_decide_eq_true_2 _ Hne) in Hb.
        match goal with |- context [bind (try_except ?b ?h) ?k s1] =>
          rewrite (bind_out_raise _ _ _ _ _ _
                     (eq_trans (try_except_out_raise b h s1 _ _ _ Hb) eq_refl))
        end.
        cbn [res]. split.
        -- split; [discriminate|]. intros [= Hx]. contradiction.
        -- by intros n [= <-] _.
    + match goal with |- context [bind (try_except ?b ?h) ?k s1] =>
        assert (Hb : b s1 = Out l2 s2 (Raise e))
          by (by rewrite (bind_out_raise _ _ _ _ _ _ Hsr))
      end.
      match goal with |- context [res (try_except ?b ?h s1) = Ok expected] =>
        assert (Hc : b s1 = Out l2 s2 (Raise e))
          by (by rewrite (bind_out_raise _ _ _ _ _ _ Hsr));
        rewrite (try_except_out_raise b h s1 _ _ _ Hc)
      end.
      match goal with |- context [bind (try_except ?b ?h) ?k s1] =>
        pose proof (try_except_out_raise b h s1 _ _ _ Hb) as Ht
      end.
      cbv beta in Ht.
      assert (Hr : ∃ e' l3 s3,
                 match e with
                 | CalledProcessError rc cmd out err =>
                     raise (mkProcessError "Failed to probe final output" cmd rc out err)
                 | _ => raise e
                 end s2 = Out (A:=unit) l3 s3 (Raise e')).
      { destruct e; by eexists _, _, _. }
      destruct Hr as (e' & l3 & s3 & Hr). rewrite Hr in Ht. cbn [logged st_of res] in Ht.
      rewrite (bind_out_raise _ _ _ _ _ _ Ht). cbn [res].
      split.
      * split; [discriminate|]. by destruct e.
      * intros n. by destruct e.
Qed.
End FinalOutput.

Lemma validate_final_output_counts_tracks_witness :
  let h := Demo.host Demo.NoFault in
  let st := Demo.state (Demo.add_file "output" "a.mkv" (Demo.media 9000)
                          (Demo.world Demo.all_tools ["a.mkv"])) in
  let file := mkPath "output" "a.mkv" in
  res (@validate_video_file h file "Final output" st) = Ok tt
  ∧ res (@get_audio_track_count h file st) = Ok 2
  ∧ res (@validate_final_output h file 2 st) = Ok tt
  ∧ res (@validate_final_output h file 3 st) = Raise (track_count_mismatch file 2 3).
Proof.
  cbv zeta.
  assert (Hv : res (@validate_video_file (Demo.host Demo.NoFault) (mkPath "output" "a.mkv")
                      "Final output"
                      (Demo.state (Demo.add_file "output" "a.mkv" (Demo.media 9000)
                                     (Demo.world Demo.all_tools ["a.mkv"])))) = Ok tt)
    by (vm_compute; reflexivity).
  split; [exact Hv|]. split; [vm_compute; reflexivity|].
  destruct (@validate_final_output_counts_tracks (Demo.host Demo.NoFault)
              (mkPath "output" "a.mkv") 2
              (Demo.state (Demo.add_file "output" "a.mkv" (Demo.media 9000)
                             (Demo.world Demo.all_tools ["a.mkv"])))) as (_ & H2).
  destruct (@validate_final_output_counts_tracks (Demo.host Demo.NoFault)
              (mkPath "output" "a.mkv") 3
              (Demo.state (Demo.add_file "output" "a.mkv" (Demo.media 9000)
                             (Demo.world Demo.all_tools ["a.mkv"])))) as (_ & H3).
  split.
  - apply (proj1 (H2 Hv)). vm_compute. reflexivity.
  - apply (proj2 (H3 Hv) 2); [vm_compute; reflexivity|discriminate].
Defined.

(** ** Inputs that share their stem *)

Section Twins.
Context `{Host}.

(** X26: the key of a job is the stem of the input name, so two inputs
    that differ only in their extension collide: they are written to the
    same output file, the processed videos list the stem twice, and the
    statistics of the first job are replaced by those of the second. *)
Theorem jobs_with_the_same_stem_collide base ext1 ext2 st f1 f2 cur1 cur2 total :
  base ≠ EmptyString → ext1 ≠ EmptyString → ext2 ≠ EmptyString →
  dotless ext1 = true → dotless ext2 = true →
  let in1 := mkPath "input" (base +:+ "." +:+ ext1) in
  let in2 := mkPath "input" (base +:+ "." +:+ ext2) in
  lookup_entry in1 (env st) = Some f1 →
  let s1 := st_of (process_video in1 cur1 total st) in
  lookup_entry in2 (env s1) = Some f2 →
  let s2 := st_of (process_video in2 cur2 total s1) in
  in_dir (get_dir "output") (stem (name in1) +:+ ".mkv")
  = in_dir (get_dir "output") (stem (name in2) +:+ ".mkv")
  ∧ processed_videos s2 = processed_videos st ++ [base; base]
  ∧ ∃ r, stats s2 !! base = Some r
         ∧ Stats.start_time r = clock (env s1)
         ∧ Stats.input_size r = Some (st_size f2).
Proof.
  intros Hb He1 He2 Hd1 Hd2. cbv zeta. intros Hl1 Hl2.
  pose proof (stem_of_name base ext1 Hb He1 Hd1) as Hs1.
  pose proof (stem_of_name base ext2 Hb He2 Hd2) as Hs2.
  destruct (process_video_frame _ cur1 total _ _ Hl1) as ((Hp1 & _) & _).
  destruct (process_video_frame _ cur2 total _ _ Hl2) as ((Hp2 & _ & Hf2) & _).
  destruct (begun_books (mkPath "input" (base +:+ "." +:+ ext1)) (clock (env st))
              (st_size f1) st) as (_ & Hb1 & _).
  destruct (begun_books (mkPath "input" (base +:+ "." +:+ ext2))
              (clock (env (st_of (process_video (mkPath "input" (base +:+ "." +:+ ext1))
                                    cur1 total st))))
              (st_size f2)
              (st_of (process_video (mkPath "input" (base +:+ "." +:+ ext1)) cur1 total st)))
    as (Hr2 & Hb2 & _).
  destruct (Hf2 _ Hr2) as (r & Hr & (_ & Hst & Hi & _)).
  cbn [name] in *. rewrite Hs1 in Hb1. rewrite Hs2 in Hb2, Hr. rewrite Hs1, Hs2.
  split; [reflexivity|]. split.
  - rewrite Hp2, Hb2, Hp1, Hb1, <- app_assoc. reflexivity.
  - exists r. by split.
Qed.
End Twins.

Lemma jobs_with_the_same_stem_collide_witness :
  let h := Demo.host Demo.NoFault in
  let s1 := st_of (@process_video h (mkPath "input" "a.mkv") 1 2 Faulty.twins) in
  let s2 := st_of (@process_video h (mkPath "input" "a.mp4") 2 2 s1) in
  lookup_entry (mkPath "input" "a.mkv") (env Faulty.twins) = Some (Demo.media 10000)
  ∧ lookup_entry (mkPath "input" "a.mp4") (env s1) = Some (Demo.media 10000)
  ∧ processed_videos s2 = ["a"; "a"].
Proof.
  cbv zeta.
  assert (H1 : lookup_entry (mkPath "input" ("a" +:+ "." +:+ "mkv")) (env Faulty.twins)
               = Some (Demo.media 10000)) by (vm_compute; reflexivity).
  assert (H2 : lookup_entry (mkPath "input" ("a" +:+ "." +:+ "mp4"))
                 (env (st_of (@process_video (Demo.host Demo.NoFault)
                                (mkPath "input" ("a" +:+ "." +:+ "mkv")) 1 2 Faulty.twins)))
               = Some (Demo.media 10000)) by (vm_compute; reflexivity).
  split; [exact H1|]. split; [exact H2|].
  assert (Ha : "a" ≠ EmptyString) by discriminate.
  assert (Hk : "mkv" ≠ EmptyString) by discriminate.
  assert (Hp : "mp4" ≠ EmptyString) by discriminate.
  exact (proj1 (proj2 (@jobs_with_the_same_stem_collide (Demo.host Demo.NoFault)
                         "a" "mkv" "mp4" Faulty.twins _ _ 1 2 2 Ha Hk Hp eq_refl eq_refl
                         H1 H2))).
Defined.
